(** * Kernel TLS offload (goktls): a shallow embedding of the Linux kTLS
    glue code and the properties of its specification.

    Sources embedded here:
    - [ktls_cipher_linux.go]: the three cipher wire encoders
      ([ktlsEnableAES128GCM], [ktlsEnableAES256GCM],
      [ktlsEnableCHACHA20POLY1305]), the best-effort socket options and
      the per-connection orchestration ([ktlsEnableAES],
      [ktlsEnableCHACHA20]);
    - [ktls_linux.go]: the capability thresholds of [init] and the way
      it reads the kernel release, the cipher-suite dispatch
      [enableKernelTLS], the record-type read path ([ktlsReadRecord],
      [ktlsReadDataFromRecord]), the record-type write path
      ([ktlsSendCtrlMessage]) and the two bulk transfer helpers
      ([writeToFile], [spliceToFile]).

    Go values are modelled as follows: [int], [int64] and [uint16] as [Z]
    (64-bit wrap-around written with [add64]/[sub64] where the code adds
    or subtracts [int64] values), byte slices and byte arrays as
    [list byte], [error] as an inductive type with [option error] for the
    nil-able interface, system calls as oracles carried by the socket,
    file or reader they act on, and every call that reaches the kernel is
    recorded in a log threaded through the functions. *)

From Stdlib Require Import ZArith List Bool Lia.
From Stdlib Require Import Strings.Byte.
Import ListNotations.

Local Open Scope Z_scope.

(** ** Go primitives *)

(** [len(s)] of a slice, as a Go [int]. *)
Definition len {A : Type} (s : list A) : Z := Z.of_nat (length s).

(** The builtin [copy(dst, src)]: the first [min(len dst, len src)]
    elements of [dst] are overwritten, the rest of [dst] is kept. *)
Definition go_copy {A : Type} (dst src : list A) : list A :=
  firstn (length dst) src ++ skipn (length src) dst.

(** A zero-initialised array [[n]byte]. *)
Definition zero_array (n : Z) : list byte := repeat x00 (Z.to_nat n).

Definition byte_of_Z (z : Z) : byte :=
  match Byte.of_N (Z.to_N (z mod 256)) with
  | Some b => b
  | None => x00
  end.

Definition Z_of_byte (b : byte) : Z := Z.of_N (Byte.to_N b).

(** In-memory image of a [uint16] (little-endian, as on linux/amd64 and
    linux/arm64). *)
Definition le16 (v : Z) : list byte :=
  [byte_of_Z (v mod 256); byte_of_Z ((v / 256) mod 256)].

(** [int64] arithmetic. *)
Definition min_int64 : Z := - 2 ^ 63.
Definition max_int64 : Z := 2 ^ 63 - 1.

Definition wrap64 (z : Z) : Z := (z + 2 ^ 63) mod 2 ^ 64 - 2 ^ 63.
Definition add64 (a b : Z) : Z := wrap64 (a + b).
Definition sub64 (a b : Z) : Z := wrap64 (a - b).

(** Errors.  Every [fmt.Errorf] of the sources has its own constructor
    carrying the formatted operands; [Errno] is a [syscall.Errno];
    [ErrNet] stands for an error raised by the [net]/[os] runtime
    (closed descriptor, deadline exceeded, ...). *)
Inductive error : Type :=
| ErrWrongKeyLength (desired actual : Z)
| ErrWrongIVLength (desired actual : Z)
| ErrWrongSeqLength (desired actual : Z)
| ErrWrongCryptoInfoSize (desired actual : Z)
| Errno (e : Z)
| ErrNet (code : Z)
| ErrEOF
| ErrUnknownSize (n : Z)
| ErrUnsupportedCmsgLevel (level : Z)
| ErrUnsupportedCmsgType (typ : Z)
| ErrAlertTooShort
| ErrUnsupportedAlert (b0 : byte)
| ErrUnsupportedRecordType (typ : Z).

Definition EAGAIN : Z := 11.
Definition EEXIST : Z := 17.
Definition ENOENT : Z := 2.
Definition ENOPROTOOPT : Z := 92.

(** The test [err == unix.EAGAIN]. *)
Definition is_EAGAIN (err : option error) : bool :=
  match err with
  | Some (Errno e) => e =? EAGAIN
  | _ => false
  end.

(** ** Constants of [ktls_linux.go] and [ktls_cipher_linux.go] *)

Definition TCP_ULP : Z := 31.
Definition SOL_TLS : Z := 282.
Definition SOL_TCP : Z := 6.

Definition TLS_TX : Z := 1.
Definition TLS_RX : Z := 2.
Definition TLS_TX_ZEROCOPY_RO : Z := 3.
Definition TLS_RX_EXPECT_NO_PAD : Z := 4.

Definition TLS_SET_RECORD_TYPE : Z := 1.
Definition TLS_GET_RECORD_TYPE : Z := 2.

Definition kTLS_CIPHER_AES_GCM_128 : Z := 51.
Definition kTLS_CIPHER_AES_GCM_128_IV_SIZE : Z := 8.
Definition kTLS_CIPHER_AES_GCM_128_KEY_SIZE : Z := 16.
Definition kTLS_CIPHER_AES_GCM_128_SALT_SIZE : Z := 4.
Definition kTLS_CIPHER_AES_GCM_128_TAG_SIZE : Z := 16.
Definition kTLS_CIPHER_AES_GCM_128_REC_SEQ_SIZE : Z := 8.

Definition kTLS_CIPHER_AES_GCM_256 : Z := 52.
Definition kTLS_CIPHER_AES_GCM_256_IV_SIZE : Z := 8.
Definition kTLS_CIPHER_AES_GCM_256_KEY_SIZE : Z := 32.
Definition kTLS_CIPHER_AES_GCM_256_SALT_SIZE : Z := 4.
Definition kTLS_CIPHER_AES_GCM_256_TAG_SIZE : Z := 16.
Definition kTLS_CIPHER_AES_GCM_256_REC_SEQ_SIZE : Z := 8.

Definition kTLS_CIPHER_CHACHA20_POLY1305 : Z := 54.
Definition kTLS_CIPHER_CHACHA20_POLY1305_IV_SIZE : Z := 12.
Definition kTLS_CIPHER_CHACHA20_POLY1305_KEY_SIZE : Z := 32.
Definition kTLS_CIPHER_CHACHA20_POLY1305_SALT_SIZE : Z := 0.
Definition kTLS_CIPHER_CHACHA20_POLY1305_TAG_SIZE : Z := 16.
Definition kTLS_CIPHER_CHACHA20_POLY1305_REC_SEQ_SIZE : Z := 8.

Definition kTLSCryptoInfoSize_AES_GCM_128 : Z :=
  2 + 2 + kTLS_CIPHER_AES_GCM_128_IV_SIZE + kTLS_CIPHER_AES_GCM_128_KEY_SIZE +
  kTLS_CIPHER_AES_GCM_128_SALT_SIZE + kTLS_CIPHER_AES_GCM_128_REC_SEQ_SIZE.

Definition kTLSCryptoInfoSize_AES_GCM_256 : Z :=
  2 + 2 + kTLS_CIPHER_AES_GCM_256_IV_SIZE + kTLS_CIPHER_AES_GCM_256_KEY_SIZE +
  kTLS_CIPHER_AES_GCM_256_SALT_SIZE + kTLS_CIPHER_AES_GCM_256_REC_SEQ_SIZE.

Definition kTLSCryptoInfoSize_CHACHA20_POLY1305 : Z :=
  2 + 2 + kTLS_CIPHER_CHACHA20_POLY1305_IV_SIZE +
  kTLS_CIPHER_CHACHA20_POLY1305_KEY_SIZE +
  kTLS_CIPHER_CHACHA20_POLY1305_SALT_SIZE +
  kTLS_CIPHER_CHACHA20_POLY1305_REC_SEQ_SIZE.

(** Modelled from the spec: the protocol-version tags, the record types,
    the close-notify alert code and the cipher-suite identifiers are
    constants of the package declared in files that are not part of the
    sources at hand ([common.go], [alert.go], [cipher_suites.go] of the
    TLS package this repository extends); the spec names them ("protocol
    version 1.2 / 1.3", "alert", "applicationData", "close notify",
    "TLS-1.2 and TLS-1.3 suites") and they carry their TLS registry
    values. *)
Definition VersionTLS12 : Z := 0x0303.
Definition VersionTLS13 : Z := 0x0304.

Definition recordTypeAlert : Z := 21.
Definition recordTypeApplicationData : Z := 23.
Definition alertCloseNotify : Z := 0.

Definition TLS_RSA_WITH_AES_128_GCM_SHA256 : Z := 0x009c.
Definition TLS_RSA_WITH_AES_256_GCM_SHA384 : Z := 0x009d.
Definition TLS_ECDHE_ECDSA_WITH_AES_128_GCM_SHA256 : Z := 0xc02b.
Definition TLS_ECDHE_ECDSA_WITH_AES_256_GCM_SHA384 : Z := 0xc02c.
Definition TLS_ECDHE_RSA_WITH_AES_128_GCM_SHA256 : Z := 0xc02f.
Definition TLS_ECDHE_RSA_WITH_AES_256_GCM_SHA384 : Z := 0xc030.
Definition TLS_ECDHE_RSA_WITH_CHACHA20_POLY1305_SHA256 : Z := 0xcca8.
Definition TLS_ECDHE_ECDSA_WITH_CHACHA20_POLY1305_SHA256 : Z := 0xcca9.
Definition TLS_AES_128_GCM_SHA256 : Z := 0x1301.
Definition TLS_AES_256_GCM_SHA384 : Z := 0x1302.
Definition TLS_CHACHA20_POLY1305_SHA256 : Z := 0x1303.

(** ** Sockets and the system-call log *)

(** A call that reaches the kernel through [rwc.Control]. *)
Inductive syscall : Type :=
| SetsockoptString (level opt : Z) (value : list byte)
| SetsockoptInt (level opt value : Z).

(** A [*net.TCPConn] as the encoders see it: [c.SyscallConn()] may fail,
    [rwc.Control] may fail without running its closure (both with an
    error of the runtime, [ErrNet]), and the kernel
    answers each [setsockopt] with [None] (success) or an errno, possibly
    depending on the calls made before. *)
Record TCPConn : Type := {
  syscallConnErr : option Z;
  controlErr : option Z;
  kernel : list syscall -> syscall -> option Z
}.

Definition syslog : Type := list syscall.

(** [syscall.SetsockoptString] / [syscall.SetsockoptInt]: the call is
    logged and the kernel's answer returned. *)
Definition setsockopt (c : TCPConn) (call : syscall) (log : syslog)
  : option error * syslog :=
  (option_map Errno (kernel c log call), log ++ [call]).

(** The string ["tls"]. *)
Definition tls_ulp_name : list byte := [x74; x6c; x73].

(** ** Cipher wire structures *)

Record kTLSCryptoInfo : Type := {
  version : Z;
  cipherType : Z
}.

(** [kTLSCryptoInfoAESGCM128], [kTLSCryptoInfoAESGCM256] and
    [kTLSCryptoInfoCHACHA20POLY1305] have the same fields and differ in
    the lengths of their arrays only; one record stands for the three,
    and [new_cryptoInfo] gives the zero value with the array lengths of
    the struct type. *)
Record kTLSCryptoInfoCipher : Type := {
  info : kTLSCryptoInfo;
  iv : list byte;
  key : list byte;
  salt : list byte;
  recSeq : list byte
}.

Definition new_cryptoInfo (ver ctype ivSize keySize saltSize seqSize : Z)
  : kTLSCryptoInfoCipher :=
  {| info := {| version := ver; cipherType := ctype |};
     iv := zero_array ivSize;
     key := zero_array keySize;
     salt := zero_array saltSize;
     recSeq := zero_array seqSize |}.

Definition set_key (ci : kTLSCryptoInfoCipher) (v : list byte) :=
  {| info := info ci; iv := iv ci; key := v; salt := salt ci;
     recSeq := recSeq ci |}.
Definition set_salt (ci : kTLSCryptoInfoCipher) (v : list byte) :=
  {| info := info ci; iv := iv ci; key := key ci; salt := v;
     recSeq := recSeq ci |}.
Definition set_iv (ci : kTLSCryptoInfoCipher) (v : list byte) :=
  {| info := info ci; iv := v; key := key ci; salt := salt ci;
     recSeq := recSeq ci |}.
Definition set_recSeq (ci : kTLSCryptoInfoCipher) (v : list byte) :=
  {| info := info ci; iv := iv ci; key := key ci; salt := salt ci;
     recSeq := v |}.

(** Memory image of the struct: two [uint16] then four byte arrays, in
    declaration order.  The struct is 2-aligned (its widest scalar is a
    [uint16]), so its size is the sum of the field sizes rounded up to an
    even number and the image ends with that many filler bytes. *)
Definition align_up (n a : Z) : Z := ((n + a - 1) / a) * a.

Definition fields_bytes (ci : kTLSCryptoInfoCipher) : list byte :=
  le16 (version (info ci)) ++ le16 (cipherType (info ci)) ++
  iv ci ++ key ci ++ salt ci ++ recSeq ci.

(** [unsafe.Sizeof] of a struct with the given array lengths. *)
Definition Sizeof (ivSize keySize saltSize seqSize : Z) : Z :=
  align_up (2 + 2 + ivSize + keySize + saltSize + seqSize) 2.

Definition struct_bytes (ci : kTLSCryptoInfoCipher) : list byte :=
  fields_bytes ci ++
  zero_array (align_up (len (fields_bytes ci)) 2 - len (fields_bytes ci)).

(** The conversion of the struct, seen through a pointer to an array of
    [size] bytes, to the string handed to [SetsockoptString]. *)
Definition cast_bytes (size : Z) (ci : kTLSCryptoInfoCipher) : list byte :=
  firstn (Z.to_nat size) (struct_bytes ci).

(** ** Cipher wire encoders ([ktls_cipher_linux.go]) *)

(** The struct literal and the four [copy] calls of
    [ktlsEnableAES128GCM].  The slice expressions [iv[:SALT_SIZE]] and
    [iv[SALT_SIZE:]] are reached only after the length checks, when [iv]
    has at least [SALT_SIZE] bytes. *)
Definition cryptoInfoAES128GCM (ver : Z) (key_ iv_ seq : list byte)
  : kTLSCryptoInfoCipher :=
  let cryptoInfo :=
    new_cryptoInfo ver kTLS_CIPHER_AES_GCM_128
      kTLS_CIPHER_AES_GCM_128_IV_SIZE kTLS_CIPHER_AES_GCM_128_KEY_SIZE
      kTLS_CIPHER_AES_GCM_128_SALT_SIZE kTLS_CIPHER_AES_GCM_128_REC_SEQ_SIZE in
  let cryptoInfo := set_key cryptoInfo (go_copy (key cryptoInfo) key_) in
  let cryptoInfo :=
    set_salt cryptoInfo
      (go_copy (salt cryptoInfo)
         (firstn (Z.to_nat kTLS_CIPHER_AES_GCM_128_SALT_SIZE) iv_)) in
  let cryptoInfo :=
    set_iv cryptoInfo
      (go_copy (iv cryptoInfo)
         (skipn (Z.to_nat kTLS_CIPHER_AES_GCM_128_SALT_SIZE) iv_)) in
  set_recSeq cryptoInfo (go_copy (recSeq cryptoInfo) seq).

Definition ktlsEnableAES128GCM (c : TCPConn) (ver : Z) (opt : Z)
    (skip : bool) (key_ iv_ seq : list byte) (log : syslog)
  : option error * syslog :=
  if negb (len key_ =? kTLS_CIPHER_AES_GCM_128_KEY_SIZE) then
    (Some (ErrWrongKeyLength kTLS_CIPHER_AES_GCM_128_KEY_SIZE (len key_)), log)
  else
  let lengths :=
    if ver =? VersionTLS12 then
      if negb (len iv_ =? kTLS_CIPHER_AES_GCM_128_SALT_SIZE) then
        Some (ErrWrongIVLength kTLS_CIPHER_AES_GCM_128_SALT_SIZE (len iv_))
      else if negb (len seq =? kTLS_CIPHER_AES_GCM_128_REC_SEQ_SIZE) then
        Some (ErrWrongSeqLength kTLS_CIPHER_AES_GCM_128_REC_SEQ_SIZE (len seq))
      else None
    else
      if negb (len iv_ =? kTLS_CIPHER_AES_GCM_128_SALT_SIZE +
                          kTLS_CIPHER_AES_GCM_128_IV_SIZE) then
        Some (ErrWrongIVLength
                (kTLS_CIPHER_AES_GCM_128_SALT_SIZE +
                 kTLS_CIPHER_AES_GCM_128_IV_SIZE) (len iv_))
      else if negb (len seq =? kTLS_CIPHER_AES_GCM_128_REC_SEQ_SIZE) then
        Some (ErrWrongSeqLength kTLS_CIPHER_AES_GCM_128_REC_SEQ_SIZE (len seq))
      else None in
  match lengths with
  | Some e => (Some e, log)
  | None =>
    let cryptoInfo := cryptoInfoAES128GCM ver key_ iv_ seq in
    let size :=
      Sizeof kTLS_CIPHER_AES_GCM_128_IV_SIZE kTLS_CIPHER_AES_GCM_128_KEY_SIZE
        kTLS_CIPHER_AES_GCM_128_SALT_SIZE
        kTLS_CIPHER_AES_GCM_128_REC_SEQ_SIZE in
    if negb (size =? kTLSCryptoInfoSize_AES_GCM_128) then
      (Some (ErrWrongCryptoInfoSize kTLSCryptoInfoSize_AES_GCM_128 size), log)
    else
    match syscallConnErr c with
    | Some e => (Some (ErrNet e), log)
    | None =>
      match controlErr c with
      | Some e => (Some (ErrNet e), log)
      | None =>
        (* the closure handed to rwc.Control: a failed bind is only
           logged with Debugln, there is no return after it *)
        let log :=
          if negb skip then
            snd (setsockopt c
                   (SetsockoptString SOL_TCP TCP_ULP tls_ulp_name) log)
          else log in
        setsockopt c
          (SetsockoptString SOL_TLS opt
             (cast_bytes kTLSCryptoInfoSize_AES_GCM_128 cryptoInfo)) log
      end
    end
  end.

Definition cryptoInfoAES256GCM (ver : Z) (key_ iv_ seq : list byte)
  : kTLSCryptoInfoCipher :=
  let cryptoInfo :=
    new_cryptoInfo ver kTLS_CIPHER_AES_GCM_256
      kTLS_CIPHER_AES_GCM_256_IV_SIZE kTLS_CIPHER_AES_GCM_256_KEY_SIZE
      kTLS_CIPHER_AES_GCM_256_SALT_SIZE kTLS_CIPHER_AES_GCM_256_REC_SEQ_SIZE in
  let cryptoInfo := set_key cryptoInfo (go_copy (key cryptoInfo) key_) in
  let cryptoInfo :=
    set_salt cryptoInfo
      (go_copy (salt cryptoInfo)
         (firstn (Z.to_nat kTLS_CIPHER_AES_GCM_256_SALT_SIZE) iv_)) in
  let cryptoInfo :=
    set_iv cryptoInfo
      (go_copy (iv cryptoInfo)
         (skipn (Z.to_nat kTLS_CIPHER_AES_GCM_256_SALT_SIZE) iv_)) in
  set_recSeq cryptoInfo (go_copy (recSeq cryptoInfo) seq).

Definition ktlsEnableAES256GCM (c : TCPConn) (ver : Z) (opt : Z)
    (skip : bool) (key_ iv_ seq : list byte) (log : syslog)
  : option error * syslog :=
  if negb (len key_ =? kTLS_CIPHER_AES_GCM_256_KEY_SIZE) then
    (Some (ErrWrongKeyLength kTLS_CIPHER_AES_GCM_256_KEY_SIZE (len key_)), log)
  else
  let lengths :=
    if ver =? VersionTLS12 then
      if negb (len iv_ =? kTLS_CIPHER_AES_GCM_256_SALT_SIZE) then
        Some (ErrWrongIVLength kTLS_CIPHER_AES_GCM_256_SALT_SIZE (len iv_))
      else if negb (len seq =? kTLS_CIPHER_AES_GCM_256_REC_SEQ_SIZE) then
        Some (ErrWrongSeqLength kTLS_CIPHER_AES_GCM_256_REC_SEQ_SIZE (len seq))
      else None
    else
      if negb (len iv_ =? kTLS_CIPHER_AES_GCM_256_SALT_SIZE +
                          kTLS_CIPHER_AES_GCM_256_IV_SIZE) then
        Some (ErrWrongIVLength
                (kTLS_CIPHER_AES_GCM_256_SALT_SIZE +
                 kTLS_CIPHER_AES_GCM_256_IV_SIZE) (len iv_))
      else if negb (len seq =? kTLS_CIPHER_AES_GCM_256_REC_SEQ_SIZE) then
        Some (ErrWrongSeqLength kTLS_CIPHER_AES_GCM_256_REC_SEQ_SIZE (len seq))
      else None in
  match lengths with
  | Some e => (Some e, log)
  | None =>
    let cryptoInfo := cryptoInfoAES256GCM ver key_ iv_ seq in
    let size :=
      Sizeof kTLS_CIPHER_AES_GCM_256_IV_SIZE kTLS_CIPHER_AES_GCM_256_KEY_SIZE
        kTLS_CIPHER_AES_GCM_256_SALT_SIZE
        kTLS_CIPHER_AES_GCM_256_REC_SEQ_SIZE in
    if negb (size =? kTLSCryptoInfoSize_AES_GCM_256) then
      (Some (ErrWrongCryptoInfoSize kTLSCryptoInfoSize_AES_GCM_256 size), log)
    else
    match syscallConnErr c with
    | Some e => (Some (ErrNet e), log)
    | None =>
      match controlErr c with
      | Some e => (Some (ErrNet e), log)
      | None =>
        (* the closure handed to rwc.Control *)
        let '(err0, log) :=
          if negb skip then
            setsockopt c (SetsockoptString SOL_TCP TCP_ULP tls_ulp_name) log
          else (None, log) in
        match err0 with
        | Some e => (Some e, log)
        | None =>
          setsockopt c
            (SetsockoptString SOL_TLS opt
               (cast_bytes kTLSCryptoInfoSize_AES_GCM_256 cryptoInfo)) log
        end
      end
    end
  end.

(** The salt of CHACHA20POLY1305 has 0 bytes: the struct's [salt] array
    is never written. *)
Definition cryptoInfoCHACHA20POLY1305 (ver : Z) (key_ iv_ seq : list byte)
  : kTLSCryptoInfoCipher :=
  let cryptoInfo :=
    new_cryptoInfo ver kTLS_CIPHER_CHACHA20_POLY1305
      kTLS_CIPHER_CHACHA20_POLY1305_IV_SIZE
      kTLS_CIPHER_CHACHA20_POLY1305_KEY_SIZE
      kTLS_CIPHER_CHACHA20_POLY1305_SALT_SIZE
      kTLS_CIPHER_CHACHA20_POLY1305_REC_SEQ_SIZE in
  let cryptoInfo := set_key cryptoInfo (go_copy (key cryptoInfo) key_) in
  let cryptoInfo := set_iv cryptoInfo (go_copy (iv cryptoInfo) iv_) in
  set_recSeq cryptoInfo (go_copy (recSeq cryptoInfo) seq).

Definition ktlsEnableCHACHA20POLY1305 (c : TCPConn) (ver : Z) (opt : Z)
    (skip : bool) (key_ iv_ seq : list byte) (log : syslog)
  : option error * syslog :=
  if negb (len key_ =? kTLS_CIPHER_CHACHA20_POLY1305_KEY_SIZE) then
    (Some (ErrWrongKeyLength kTLS_CIPHER_CHACHA20_POLY1305_KEY_SIZE
             (len key_)), log)
  else if negb (len iv_ =? kTLS_CIPHER_CHACHA20_POLY1305_IV_SIZE) then
    (Some (ErrWrongIVLength kTLS_CIPHER_CHACHA20_POLY1305_IV_SIZE
             (len iv_)), log)
  else if negb (len seq =? kTLS_CIPHER_CHACHA20_POLY1305_REC_SEQ_SIZE) then
    (Some (ErrWrongSeqLength kTLS_CIPHER_CHACHA20_POLY1305_REC_SEQ_SIZE
             (len seq)), log)
  else
    let cryptoInfo := cryptoInfoCHACHA20POLY1305 ver key_ iv_ seq in
    let size :=
      Sizeof kTLS_CIPHER_CHACHA20_POLY1305_IV_SIZE
        kTLS_CIPHER_CHACHA20_POLY1305_KEY_SIZE
        kTLS_CIPHER_CHACHA20_POLY1305_SALT_SIZE
        kTLS_CIPHER_CHACHA20_POLY1305_REC_SEQ_SIZE in
    if negb (size =? kTLSCryptoInfoSize_CHACHA20_POLY1305) then
      (Some (ErrWrongCryptoInfoSize kTLSCryptoInfoSize_CHACHA20_POLY1305 size),
       log)
    else
    match syscallConnErr c with
    | Some e => (Some (ErrNet e), log)
    | None =>
      match controlErr c with
      | Some e => (Some (ErrNet e), log)
      | None =>
        (* the closure handed to rwc.Control *)
        let '(err0, log) :=
          if negb skip then
            setsockopt c (SetsockoptString SOL_TCP TCP_ULP tls_ulp_name) log
          else (None, log) in
        match err0 with
        | Some e => (Some e, log)
        | None =>
          setsockopt c
            (SetsockoptString SOL_TLS opt
               (cast_bytes kTLSCryptoInfoSize_CHACHA20_POLY1305 cryptoInfo))
            log
        end
      end
    end.

(** The two best-effort options.  They return an error that every caller
    in the package discards. *)
Record Caps : Type := {
  kTLSSupport : bool;
  kTLSSupportTX : bool;
  kTLSSupportRX : bool;
  kTLSSupportAESGCM128 : bool;
  kTLSSupportAESGCM256 : bool;
  kTLSSupportCHACHA20POLY1305 : bool;
  kTLSSupportTLS13TX : bool;
  kTLSSupportTLS13RX : bool;
  kTLSSupportZEROCOPY : bool;
  kTLSSupportNOPAD : bool
}.

Definition ktlsEnableTxZerocopySendfile (caps : Caps) (c : TCPConn)
    (log : syslog) : option error * syslog :=
  if negb (kTLSSupportZEROCOPY caps) then (None, log)
  else
    match syscallConnErr c with
    | Some e => (Some (ErrNet e), log)
    | None =>
      match controlErr c with
      | Some e => (Some (ErrNet e), log)
      | None => setsockopt c (SetsockoptInt SOL_TLS TLS_TX_ZEROCOPY_RO 1) log
      end
    end.

Definition ktlsEnableRxExpectNoPad (caps : Caps) (c : TCPConn)
    (log : syslog) : option error * syslog :=
  if negb (kTLSSupportNOPAD caps) then (None, log)
  else
    match syscallConnErr c with
    | Some e => (Some (ErrNet e), log)
    | None =>
      match controlErr c with
      | Some e => (Some (ErrNet e), log)
      | None => setsockopt c (SetsockoptInt SOL_TLS TLS_RX_EXPECT_NO_PAD 1) log
      end
    end.

(** ** Per-connection orchestration ([ktls_cipher_linux.go]) *)

(** [c.conn] is a [net.Conn]; the code type-asserts it to
    [*net.TCPConn]. *)
Inductive net_Conn : Type :=
| IsTCPConn (t : TCPConn)
| OtherConn.

(** The part of [Conn] the offload code reads: the transport and the two
    record sequence numbers ([c.out.seq], [c.in.seq], arrays of 8
    bytes). *)
Record Conn : Type := {
  conn : net_Conn;
  out_seq : list byte;
  in_seq : list byte
}.

(** What is stored behind the [*any] out-parameters: the cipher the
    handshake chose, or the placeholder [kTLSCipher{}] of [ktls.go]. *)
Inductive cipher_any : Type :=
| SoftwareCipher
| kTLSCipher.

(** The state an activation call changes: the system calls issued on the
    socket and the two out-parameters. *)
Record offload : Type := {
  sys : syslog;
  clientCipher : cipher_any;
  serverCipher : cipher_any
}.

Definition with_sys (st : offload) (log : syslog) : offload :=
  {| sys := log; clientCipher := clientCipher st;
     serverCipher := serverCipher st |}.
Definition with_clientCipher (st : offload) (v : cipher_any) : offload :=
  {| sys := sys st; clientCipher := v; serverCipher := serverCipher st |}.
Definition with_serverCipher (st : offload) (v : cipher_any) : offload :=
  {| sys := sys st; clientCipher := clientCipher st; serverCipher := v |}.

Definition enableFunc_t : Type :=
  TCPConn -> Z -> Z -> bool -> list byte -> list byte -> list byte ->
  syslog -> option error * syslog.

(** The receive half shared by [ktlsEnableAES] and [ktlsEnableCHACHA20]
    once the capability gate has been passed and (for AES) the key length
    matched. *)
Definition enableRX (caps : Caps) (c : Conn) (ver : Z)
    (enableFunc : enableFunc_t) (ulpEnabled : bool)
    (inKey inIV : list byte) (st : offload) : option error * offload :=
  match conn c with
  | IsTCPConn tcpConn =>
    match enableFunc tcpConn ver TLS_RX ulpEnabled inKey inIV (in_seq c)
            (sys st) with
    | (Some err, log) => (Some err, with_sys st log)
    | (None, log) =>
      let st := with_serverCipher (with_sys st log) kTLSCipher in
      let st :=
        if ver =? VersionTLS13 then
          with_sys st (snd (ktlsEnableRxExpectNoPad caps tcpConn (sys st)))
        else st in
      (None, st)
    end
  | OtherConn => (None, st)
  end.

(** The transmit half: an error, or the new [ulpEnabled] and state. *)
Definition enableTX (caps : Caps) (c : Conn) (ver : Z)
    (enableFunc : enableFunc_t) (ulpEnabled : bool)
    (outKey outIV : list byte) (st : offload)
  : (error * offload) + (bool * offload) :=
  match conn c with
  | IsTCPConn tcpConn =>
    match enableFunc tcpConn ver TLS_TX ulpEnabled outKey outIV (out_seq c)
            (sys st) with
    | (Some err, log) => inl (err, with_sys st log)
    | (None, log) =>
      let st := with_clientCipher (with_sys st log) kTLSCipher in
      let st :=
        with_sys st (snd (ktlsEnableTxZerocopySendfile caps tcpConn (sys st))) in
      inr (true, st)
    end
  | OtherConn => inr (ulpEnabled, st)
  end.

Definition ktlsEnableAES (caps : Caps) (c : Conn) (ver : Z)
    (enableFunc : enableFunc_t) (keyLen : Z)
    (inKey outKey inIV outIV : list byte) (st : offload)
  : option error * offload :=
  let ulpEnabled := false in
  if negb (kTLSSupportTX caps) then (None, st)
  else
    let tx :=
      if len outKey =? keyLen then
        enableTX caps c ver enableFunc ulpEnabled outKey outIV st
      else inr (ulpEnabled, st) in
    match tx with
    | inl (err, st) => (Some err, st)
    | inr (ulpEnabled, st) =>
      if negb (kTLSSupportRX caps) ||
         ((ver =? VersionTLS13) && negb (kTLSSupportTLS13RX caps))
      then (None, st)
      else if len inKey =? keyLen then
        enableRX caps c ver enableFunc ulpEnabled inKey inIV st
      else (None, st)
    end.

Definition ktlsEnableCHACHA20 (caps : Caps) (c : Conn) (ver : Z)
    (inKey outKey inIV outIV : list byte) (st : offload)
  : option error * offload :=
  let ulpEnabled := false in
  if negb (kTLSSupportTX caps) then (None, st)
  else
    match enableTX caps c ver ktlsEnableCHACHA20POLY1305 ulpEnabled
            outKey outIV st with
    | inl (err, st) => (Some err, st)
    | inr (ulpEnabled, st) =>
      if negb (kTLSSupportRX caps) ||
         ((ver =? VersionTLS13) && negb (kTLSSupportTLS13RX caps))
      then (None, st)
      else
        enableRX caps c ver ktlsEnableCHACHA20POLY1305 ulpEnabled
          inKey inIV st
    end.

(** ** Offload activation ([enableKernelTLS], [ktls_linux.go]) *)

(** The clause of the [switch cipherSuiteID] that an identifier selects;
    [None] is the fall-through to the final [return nil]. *)
Inductive suiteCase : Type :=
| CaseAES128_TLS12
| CaseAES256_TLS12
| CaseCHACHA20_TLS12
| CaseAES128_TLS13
| CaseAES256_TLS13
| CaseCHACHA20_TLS13.

Definition switchCipherSuite (cipherSuiteID : Z) : option suiteCase :=
  if (cipherSuiteID =? TLS_ECDHE_RSA_WITH_AES_128_GCM_SHA256) ||
     (cipherSuiteID =? TLS_ECDHE_ECDSA_WITH_AES_128_GCM_SHA256) ||
     (cipherSuiteID =? TLS_RSA_WITH_AES_128_GCM_SHA256)
  then Some CaseAES128_TLS12
  else if (cipherSuiteID =? TLS_ECDHE_RSA_WITH_AES_256_GCM_SHA384) ||
          (cipherSuiteID =? TLS_ECDHE_ECDSA_WITH_AES_256_GCM_SHA384) ||
          (cipherSuiteID =? TLS_RSA_WITH_AES_256_GCM_SHA384)
  then Some CaseAES256_TLS12
  else if (cipherSuiteID =? TLS_ECDHE_RSA_WITH_CHACHA20_POLY1305_SHA256) ||
          (cipherSuiteID =? TLS_ECDHE_ECDSA_WITH_CHACHA20_POLY1305_SHA256)
  then Some CaseCHACHA20_TLS12
  else if cipherSuiteID =? TLS_AES_128_GCM_SHA256 then Some CaseAES128_TLS13
  else if cipherSuiteID =? TLS_AES_256_GCM_SHA384 then Some CaseAES256_TLS13
  else if cipherSuiteID =? TLS_CHACHA20_POLY1305_SHA256
  then Some CaseCHACHA20_TLS13
  else None.

Definition enableKernelTLS (caps : Caps) (c : Conn) (cipherSuiteID : Z)
    (inKey outKey inIV outIV : list byte) (st : offload)
  : option error * offload :=
  if negb (kTLSSupport caps) then (None, st)
  else
    match switchCipherSuite cipherSuiteID with
    | Some CaseAES128_TLS12 =>
      if negb (kTLSSupportAESGCM128 caps) then (None, st)
      else ktlsEnableAES caps c VersionTLS12 ktlsEnableAES128GCM 16
             inKey outKey inIV outIV st
    | Some CaseAES256_TLS12 =>
      if negb (kTLSSupportAESGCM256 caps) then (None, st)
      else ktlsEnableAES caps c VersionTLS12 ktlsEnableAES256GCM 32
             inKey outKey inIV outIV st
    | Some CaseCHACHA20_TLS12 =>
      if negb (kTLSSupportCHACHA20POLY1305 caps) then (None, st)
      else ktlsEnableCHACHA20 caps c VersionTLS12 inKey outKey inIV outIV st
    | Some CaseAES128_TLS13 =>
      if negb (kTLSSupportAESGCM128 caps) || negb (kTLSSupportTLS13TX caps)
      then (None, st)
      else ktlsEnableAES caps c VersionTLS13 ktlsEnableAES128GCM 16
             inKey outKey inIV outIV st
    | Some CaseAES256_TLS13 =>
      if negb (kTLSSupportAESGCM256 caps) || negb (kTLSSupportTLS13TX caps)
      then (None, st)
      else ktlsEnableAES caps c VersionTLS13 ktlsEnableAES256GCM 32
             inKey outKey inIV outIV st
    | Some CaseCHACHA20_TLS13 =>
      if negb (kTLSSupportCHACHA20POLY1305 caps) ||
         negb (kTLSSupportTLS13TX caps)
      then (None, st)
      else ktlsEnableCHACHA20 caps c VersionTLS13 inKey outKey inIV outIV st
    | None => (None, st)
    end.

(** ** Capability probe ([init], [ktls_linux.go]) *)

(** What the probe observes: whether [/sys/module/tls] exists, the policy
    switch [kTLSEnabled] of [ktls.go], whether [uname] succeeded, and the
    two results of [strconv.Atoi] on the major and minor parts of the
    release string ([None] when Atoi reports an error). *)
Record ProbeEnv : Type := {
  statOK : bool;
  kTLSEnabled : bool;
  unameOK : bool;
  majorRelease : option Z;
  minorRelease : option Z
}.

(** The zero values of the package-level flags. *)
Definition noCaps : Caps :=
  {| kTLSSupport := false; kTLSSupportTX := false; kTLSSupportRX := false;
     kTLSSupportAESGCM128 := false; kTLSSupportAESGCM256 := false;
     kTLSSupportCHACHA20POLY1305 := false; kTLSSupportTLS13TX := false;
     kTLSSupportTLS13RX := false; kTLSSupportZEROCOPY := false;
     kTLSSupportNOPAD := false |}.

(** The six [if] statements that follow the parse; every flag starts at
    [false] and is only ever set to [true]. *)
Definition grantCaps (support : bool) (major minor : Z) : Caps :=
  let tx128 := ((major =? 4) && (minor >=? 13)) || (major >? 4) in
  let rx := ((major =? 4) && (minor >=? 17)) || (major >? 4) in
  let aes256 := ((major =? 5) && (minor >=? 1)) || (major >? 5) in
  let chacha := ((major =? 5) && (minor >=? 11)) || (major >? 5) in
  let zerocopy := ((major =? 5) && (minor >=? 19)) || (major >? 5) in
  let six := major >? 5 in
  {| kTLSSupport := support;
     kTLSSupportTX := tx128;
     kTLSSupportRX := rx;
     kTLSSupportAESGCM128 := tx128;
     kTLSSupportAESGCM256 := aes256;
     kTLSSupportCHACHA20POLY1305 := chacha;
     kTLSSupportTLS13TX := aes256;
     kTLSSupportTLS13RX := six;
     kTLSSupportZEROCOPY := zerocopy;
     kTLSSupportNOPAD := six |}.

Definition with_kTLSSupport (caps : Caps) (v : bool) : Caps :=
  {| kTLSSupport := v; kTLSSupportTX := kTLSSupportTX caps;
     kTLSSupportRX := kTLSSupportRX caps;
     kTLSSupportAESGCM128 := kTLSSupportAESGCM128 caps;
     kTLSSupportAESGCM256 := kTLSSupportAESGCM256 caps;
     kTLSSupportCHACHA20POLY1305 := kTLSSupportCHACHA20POLY1305 caps;
     kTLSSupportTLS13TX := kTLSSupportTLS13TX caps;
     kTLSSupportTLS13RX := kTLSSupportTLS13RX caps;
     kTLSSupportZEROCOPY := kTLSSupportZEROCOPY caps;
     kTLSSupportNOPAD := kTLSSupportNOPAD caps |}.

Definition init (env : ProbeEnv) : Caps :=
  if negb (statOK env) then noCaps
  else
    let support := true && kTLSEnabled env in
    if negb support then with_kTLSSupport noCaps support
    else if negb (unameOK env) then with_kTLSSupport noCaps support
    else
      match majorRelease env with
      | None => with_kTLSSupport noCaps support
      | Some major =>
        match minorRelease env with
        | None => with_kTLSSupport noCaps support
        | Some minor => grantCaps support major minor
        end
      end.

(** The probe on a machine whose kernel module is present, with offload
    enabled, and whose release string parses to [major.minor]. *)
Definition probe (major minor : Z) : Caps :=
  init {| statOK := true; kTLSEnabled := true; unameOK := true;
          majorRelease := Some major; minorRelease := Some minor |}.

(** ** Outcomes of calls that can block or panic *)

(** A Go call either returns, panics at run time (index or slice bounds
    out of range), or leaves its goroutine parked on a descriptor for
    which the modelled environment has no further event. *)
Inductive outcome (A : Type) : Type :=
| Returns (a : A)
| Panics
| Parks.

Arguments Returns {A} a.
Arguments Panics {A}.
Arguments Parks {A}.

(** ** Record-type read path ([ktls_linux.go]) *)

(** What the descriptor has in store for the successive attempts of
    [rwc.Read]: nothing yet ([RxBlock], recvmsg fails with EAGAIN), a
    failing recvmsg, end of stream (recvmsg returns 0), a record with the
    control message the kernel attaches (cmsg level, cmsg type, the byte
    of cmsg data) and its payload, or an error of [rwc.Read] itself
    (deadline, closed descriptor) raised without running the closure. *)
Inductive rx_event : Type :=
| RxBlock
| RxErrno (e : Z)
| RxEOF
| RxRecord (level typ : Z) (data : byte) (payload : list byte)
| RxNetErr (code : Z).

(** The control message as [ktlsReadRecord] reads it back. *)
Record Cmsghdr : Type := {
  Level : Z;
  Type_ : Z;
  Data : byte
}.

Definition zero_cmsg : Cmsghdr := {| Level := 0; Type_ := 0; Data := x00 |}.

(** Local variables of [ktlsReadRecord] that its closure assigns. *)
Record rr_locals : Type := {
  rr_n : Z;
  rr_err : option error;
  rr_cmsg : Cmsghdr;
  rr_b : list byte
}.

(** [recvmsg] of this file: [n = int(r0)], which is -1 when the system
    call fails, and [err = errnoErr(e1)].  A record longer than the
    buffer is cut to the buffer. *)
Definition recvmsg (ev : rx_event) (l : rr_locals) : rr_locals :=
  match ev with
  | RxBlock =>
    {| rr_n := -1; rr_err := Some (Errno EAGAIN); rr_cmsg := rr_cmsg l;
       rr_b := rr_b l |}
  | RxErrno e =>
    {| rr_n := -1; rr_err := Some (Errno e); rr_cmsg := rr_cmsg l;
       rr_b := rr_b l |}
  | RxEOF =>
    {| rr_n := 0; rr_err := None; rr_cmsg := rr_cmsg l; rr_b := rr_b l |}
  | RxRecord level typ data payload =>
    let got := firstn (length (rr_b l)) payload in
    {| rr_n := len got; rr_err := None;
       rr_cmsg := {| Level := level; Type_ := typ; Data := data |};
       rr_b := go_copy (rr_b l) got |}
  | RxNetErr _ => l
  end.

(** [rwc.Read] with the closure of [ktlsReadRecord]: the closure runs on
    each event until it reports completion; the result is [err0] and the
    locals, or [None] when the events run out while the closure still
    waits for data. *)
Fixpoint rwcRead (q : list rx_event) (l : rr_locals)
  : option (option error * rr_locals) * list rx_event :=
  match q with
  | [] => (None, [])
  | RxNetErr code :: q' => (Some (Some (ErrNet code), l), q')
  | ev :: q' =>
    let l := recvmsg ev l in
    if is_EAGAIN (rr_err l) then rwcRead q' l
    else
      let l :=
        match rr_err l with
        | None =>
          if rr_n l =? 0 then
            {| rr_n := rr_n l; rr_err := Some ErrEOF; rr_cmsg := rr_cmsg l;
               rr_b := rr_b l |}
          else l
        | Some _ => l
        end in
      (Some (None, l), q')
  end.

(** [ktlsReadRecord]: the result triple, the buffer as the call leaves it
    and the events not consumed.  [syscallConn] is the result of
    [c.SyscallConn()]. *)
Definition ktlsReadRecord (syscallConn : option Z) (q : list rx_event)
    (b : list byte)
  : outcome (Z * Z * option error) * list byte * list rx_event :=
  match b with
  | [] => (Panics, b, q)            (* iov.Base = &b[0] *)
  | _ :: _ =>
    match syscallConn with
    | Some err => (Returns (0, 0, Some (ErrNet err)), b, q)
    | None =>
      let l0 := {| rr_n := 0; rr_err := None; rr_cmsg := zero_cmsg;
                   rr_b := b |} in
      match rwcRead q l0 with
      | (None, q') => (Parks, b, q')
      | (Some (err0, l), q') =>
        let err := match err0 with Some e => Some e | None => rr_err l end in
        let n := rr_n l in
        let b := rr_b l in
        let cmsg := rr_cmsg l in
        match err with
        | Some e =>
          let n := if n =? -1 then 0 else n in
          (Returns (0, n, Some e), b, q')
        | None =>
          if n <? 0 then (Returns (0, 0, Some (ErrUnknownSize n)), b, q')
          else if n =? 0 then (Returns (0, 0, None), b, q')
          else if negb (Level cmsg =? SOL_TLS) then
            (Returns (0, 0, Some (ErrUnsupportedCmsgLevel (Level cmsg))), b, q')
          else if negb (Type_ cmsg =? TLS_GET_RECORD_TYPE) then
            (Returns (0, 0, Some (ErrUnsupportedCmsgType (Type_ cmsg))), b, q')
          else
            let typ := Z_of_byte (Data cmsg) in
            (Returns (typ, n, None), b, q')
        end
      end
    end
  end.

(** Indexing [b[i]] panics out of range. *)
Definition index {A : Type} (b : list A) (i : nat) : outcome A :=
  match nth_error b i with
  | Some x => Returns x
  | None => Panics
  end.

(** [ktlsReadDataFromRecord]: the pair [(int, error)], with the buffer
    and remaining events. *)
Definition ktlsReadDataFromRecord (syscallConn : option Z)
    (q : list rx_event) (b : list byte)
  : outcome (Z * option error) * list byte * list rx_event :=
  match ktlsReadRecord syscallConn q b with
  | (Panics, b, q) => (Panics, b, q)
  | (Parks, b, q) => (Parks, b, q)
  | (Returns (typ, n, Some err), b, q) => (Returns (n, Some err), b, q)
  | (Returns (typ, n, None), b, q) =>
    if typ =? recordTypeAlert then
      if n <? 2 then (Returns (0, Some ErrAlertTooShort), b, q)
      else
        match index b 1 with
        | Returns b1 =>
          if Z_of_byte b1 =? alertCloseNotify then
            (Returns (0, Some ErrEOF), b, q)
          else
            match index b 0 with
            | Returns b0 => (Returns (0, Some (ErrUnsupportedAlert b0)), b, q)
            | _ => (Panics, b, q)
            end
        | _ => (Panics, b, q)
        end
    else if typ =? recordTypeApplicationData then (Returns (n, None), b, q)
    else (Returns (0, Some (ErrUnsupportedRecordType typ)), b, q)
  end.

(** ** Files *)

(** A destination file: its contents and the current offset of the
    descriptor. *)
Record File : Type := {
  fdata : list byte;
  fpos : Z
}.

(** Writing [bs] at position [pos]: the bytes there are overwritten, a
    gap between the end of the file and [pos] reads as zeros. *)
Definition write_at (data : list byte) (pos : nat) (bs : list byte)
  : list byte :=
  firstn pos data ++ repeat x00 (pos - length data) ++ bs ++
  skipn (pos + length bs) data.

(** [ftruncate]: cut to [size], or extend with zeros up to [size]. *)
Definition truncate (data : list byte) (size : Z) : list byte :=
  firstn (Z.to_nat size) data ++
  repeat x00 (Z.to_nat size - length data).

(** ** Mapped-buffer transfer ([writeToFile], [ktls_linux.go]) *)

Definition maxBufferSize : Z := 4 * 1024 * 1024.

(** The answers of the file system to [f.Seek], [f.Stat], [f.Truncate]
    and [unix.Mmap]. *)
Record FileEnv : Type := {
  seekErr : option Z;
  statErr : option Z;
  truncateErr : option Z;
  mmapErr : option Z
}.

(** The answer of one [c.Read] call: the bytes it stores at the start of
    the buffer it is given (cut to that buffer when longer) and its
    error. *)
Definition read_result : Type := (list byte * option error)%type.

(** The [for] loop of [writeToFile] over the successive answers of
    [c.Read]; [bytes] is the mapped range [bytes[offset:offset+remain]].
    The loop parks when the reader has no further answer. *)
Fixpoint readLoop (remain : Z) (reads : list read_result)
    (bytes : list byte) (start end_ : Z)
  : outcome (Z * option error) * list byte :=
  match reads with
  | [] => (Parks, bytes)
  | (data, err) :: reads' =>
    let end_ := if end_ >? remain then remain else end_ in
    (* bytes[start:end] *)
    if negb ((0 <=? start) && (start <=? end_) && (end_ <=? len bytes)) then
      (Panics, bytes)
    else
      let got := firstn (Z.to_nat (end_ - start)) data in
      let n := len got in
      let bytes := write_at bytes (Z.to_nat start) got in
      match err with
      | Some e => (Returns (add64 start n, Some e), bytes)
      | None =>
        let start := add64 start n in
        if start >=? remain then (Returns (remain, None), bytes)
        else readLoop remain reads' bytes start (add64 end_ n)
      end
  end.

(** [writeToFile]: the triple [(written, err, handled)] and the file as
    the call leaves it.  The mapping is shared: what the loop stores in
    [bytes] is stored in the file at [offset] onwards. *)
Definition writeToFile (env : FileEnv) (reads : list read_result)
    (f : File) (remain : Z)
  : outcome (Z * option error * bool) * File :=
  if remain <=? 0 then (Returns (0, None, false), f)
  else
    match seekErr env with
    | Some _ => (Returns (0, None, false), f)
    | None =>
      let offset := fpos f in
      match statErr env with
      | Some _ => (Returns (0, None, false), f)
      | None =>
        let total := add64 offset remain in
        let truncated :=
          if total >? len (fdata f) then
            match truncateErr env with
            | Some _ => None
            | None =>
              Some {| fdata := truncate (fdata f) total; fpos := fpos f |}
            end
          else Some f in
        match truncated with
        | None => (Returns (0, None, false), f)
        | Some f =>
          match mmapErr env with
          | Some _ => (Returns (0, None, false), f)
          | None =>
            (* bytes[offset : offset+remain] of the mapping of length
               offset+remain *)
            if negb ((0 <=? offset) && (offset <=? total) &&
                     (total <=? len (fdata f))) then (Panics, f)
            else
              let bytes :=
                firstn (Z.to_nat remain)
                  (skipn (Z.to_nat offset) (fdata f)) in
              let '(res, bytes) :=
                readLoop remain reads bytes 0 maxBufferSize in
              let f :=
                {| fdata := firstn (Z.to_nat offset) (fdata f) ++ bytes ++
                            skipn (Z.to_nat total) (fdata f);
                   fpos := fpos f |} in
              match res with
              | Returns (written, err) => (Returns (written, err, true), f)
              | Panics => (Panics, f)
              | Parks => (Parks, f)
              end
          end
        end
      end
    end.

(** ** Splice bridge ([spliceToFile], [ktls_linux.go]) *)

Definition maxSpliceSize : Z := Z.shiftl 4 20.

(** What the socket has in store for the successive socket-to-pipe
    splices: nothing yet ([SockBlock]: the splice fails with EAGAIN),
    bytes ready to be moved (an empty [SockData] is the end of the
    stream: the splice returns 0), a failing splice, or an error of
    [sc.Read] itself raised while waiting for readiness. *)
Inductive sock_ev : Type :=
| SockBlock
| SockData (bs : list byte)
| SockErrno (e : Z)
| SockNetErr (code : Z).

(** What the destination does on the successive pipe-to-file splices:
    move at most [k] bytes ([FileShort]), or fail.  When this list is
    empty every splice moves all it is asked for. *)
Inductive file_ev : Type :=
| FileShort (k : nat)
| FileErrno (e : Z).

Record splice_world : Type := {
  sock : list sock_ev;
  pipe : list byte;
  fileq : list file_ev;
  dst : File
}.

(** The variables the two closures share: the parameter [remain], the
    named results [written] and [err], and [n], [m]. *)
Record splice_locals : Type := {
  sl_remain : Z;
  sl_written : Z;
  sl_err : option error;
  sl_n : Z;
  sl_m : Z
}.

(** Whether [c.conn] is a [*net.TCPConn], and the error codes (if any)
    of [tcpConn.SyscallConn], [f.SyscallConn], [unix.Pipe] and of
    [fsc.Write] itself. *)
Record SpliceEnv : Type := {
  connIsTCP : bool;
  scErr : option Z;
  fscErr : option Z;
  pipeErr : option Z;
  fscWriteErr : option Z
}.

(** The byte count a splice is asked for: [int(n)] reaches the kernel as
    an unsigned size, so a negative [n] asks for everything. *)
Definition splice_len (n : Z) (available : nat) : nat :=
  if n <? 0 then available else Z.to_nat n.

(** [unix.Splice(rfd, nil, pwfd, nil, n, SPLICE_F_MORE)].  The wrapper
    has the shape of [recvmsg] above: it returns [int64(r0)], which is
    -1 when the system call fails ([ktlsReadRecord] corrects that very
    value, "fix bufio panic due to n == -1"). *)
Definition spliceSock (w : splice_world) (n : Z)
  : (Z * option error) * splice_world :=
  match sock w with
  | SockData bs :: q =>
    let k := splice_len n (length bs) in
    let moved := firstn k bs in
    let rest := skipn k bs in
    ((len moved, None),
     {| sock := match rest with [] => q | _ :: _ => SockData rest :: q end;
        pipe := pipe w ++ moved; fileq := fileq w; dst := dst w |})
  | SockErrno e :: q =>
    ((-1, Some (Errno e)),
     {| sock := q; pipe := pipe w; fileq := fileq w; dst := dst w |})
  | SockBlock :: q =>
    ((-1, Some (Errno EAGAIN)),
     {| sock := q; pipe := pipe w; fileq := fileq w; dst := dst w |})
  | SockNetErr _ :: _ => ((-1, Some (Errno EAGAIN)), w)
  | [] => ((-1, Some (Errno EAGAIN)), w)
  end.

(** [unix.Splice(prfd, nil, wfd, nil, n, MOVE|MORE|NONBLOCK)]: bytes
    leave the pipe and are written at the file offset, which advances;
    an empty pipe answers EAGAIN. *)
Definition spliceFile (w : splice_world) (n : Z)
  : (Z * option error) * splice_world :=
  match fileq w with
  | FileErrno e :: q =>
    ((-1, Some (Errno e)),
     {| sock := sock w; pipe := pipe w; fileq := q; dst := dst w |})
  | evs =>
    let bound :=
      match evs with FileShort k :: _ => k | _ => length (pipe w) end in
    let q := tl evs in
    match pipe w with
    | [] =>
      if 0 <? n then
        ((-1, Some (Errno EAGAIN)),
         {| sock := sock w; pipe := pipe w; fileq := q; dst := dst w |})
      else
        ((0, None),
         {| sock := sock w; pipe := pipe w; fileq := q; dst := dst w |})
    | _ :: _ =>
      let k := Nat.min bound (splice_len n (length (pipe w))) in
      let moved := firstn k (pipe w) in
      ((len moved, None),
       {| sock := sock w; pipe := skipn k (pipe w); fileq := q;
          dst := {| fdata := write_at (fdata (dst w))
                               (Z.to_nat (fpos (dst w))) moved;
                    fpos := fpos (dst w) + len moved |} |})
    end
  end.

(** The closure handed to [fsc.Write], with its [bump] label: the
    pipe-to-file splice is re-issued for the [n - m] bytes left of the
    chunk while it moves fewer than asked.  [None] is lack of fuel. *)
Fixpoint bump (fuel : nat) (l : splice_locals) (w : splice_world)
  : option (splice_locals * splice_world) :=
  match fuel with
  | O => None
  | S fuel =>
    let '((m, err), w) := spliceFile w (sl_n l) in
    let l := {| sl_remain := sl_remain l; sl_written := sl_written l;
                sl_err := err; sl_n := sl_n l; sl_m := m |} in
    match err with
    | Some _ => Some (l, w)
    | None =>
      if m <? sl_n l then
        bump fuel {| sl_remain := sl_remain l; sl_written := sl_written l;
                     sl_err := sl_err l; sl_n := sub64 (sl_n l) m;
                     sl_m := sl_m l |} w
      else Some (l, w)
    end
  end.

(** The closure handed to [sc.Read]: its [for] loop, returning [done]. *)
Fixpoint readClosure (fuel : nat) (env : SpliceEnv) (l : splice_locals)
    (w : splice_world) : option (bool * splice_locals * splice_world) :=
  match fuel with
  | O => None
  | S fuel =>
    let n := maxSpliceSize in
    let n := if n >? sl_remain l then sl_remain l else n in
    let '((n, err), w) := spliceSock w n in
    let l := {| sl_remain := sub64 (sl_remain l) n;
                sl_written := add64 (sl_written l) n;
                sl_err := err; sl_n := n; sl_m := sl_m l |} in
    if is_EAGAIN err then
      Some (false,
            {| sl_remain := sl_remain l; sl_written := sl_written l;
               sl_err := None; sl_n := sl_n l; sl_m := sl_m l |}, w)
    else
      match err with
      | Some _ => Some (true, l, w)
      | None =>
        let written_to_file :=
          match fscWriteErr env with
          | Some e => Some (Some (ErrNet e), l, w)
          | None =>
            match bump fuel l w with
            | None => None
            | Some (l, w) => Some (None, l, w)
            end
          end in
        match written_to_file with
        | None => None
        | Some (werr, l, w) =>
          let l :=
            match sl_err l with
            | None => {| sl_remain := sl_remain l;
                         sl_written := sl_written l; sl_err := werr;
                         sl_n := sl_n l; sl_m := sl_m l |}
            | Some _ => l
            end in
          match sl_err l with
          | Some _ => Some (true, l, w)
          | None =>
            if sl_remain l <=? 0 then Some (true, l, w)
            else readClosure fuel env l w
          end
        end
      end
  end.

(** [sc.Read]: the closure runs, and runs again after each wait for
    readiness, until it reports completion; the wait fails on a
    [SockNetErr] and never ends when the socket has no further event. *)
Fixpoint scRead (fuel : nat) (env : SpliceEnv) (l : splice_locals)
    (w : splice_world)
  : option (outcome (option error) * splice_locals * splice_world) :=
  match fuel with
  | O => None
  | S fuel =>
    match sock w with
    | SockNetErr code :: q =>
      Some (Returns (Some (ErrNet code)), l,
            {| sock := q; pipe := pipe w; fileq := fileq w; dst := dst w |})
    | _ =>
      match readClosure (S fuel) env l w with
      | None => None
      | Some (true, l, w) => Some (Returns None, l, w)
      | Some (false, l, w) =>
        match sock w with
        | [] => Some (Parks, l, w)
        | _ :: _ => scRead fuel env l w
        end
      end
    end
  end.

(** [spliceToFile]: the triple [(written, err, handled)], the locals at
    the end (they show how far a parked call got) and the world, whose
    temporary pipe is destroyed on return. *)
Definition spliceToFile (fuel : nat) (env : SpliceEnv) (w : splice_world)
    (remain : Z)
  : option (outcome (Z * option error * bool) * splice_locals *
            splice_world) :=
  let l0 := {| sl_remain := remain; sl_written := 0; sl_err := None;
               sl_n := maxSpliceSize; sl_m := 0 |} in
  if negb (connIsTCP env) then Some (Returns (0, None, false), l0, w)
  else
    match scErr env, fscErr env, pipeErr env with
    | None, None, None =>
      match scRead fuel env l0 w with
      | None => None
      | Some (Parks, l, w) => Some (Parks, l, w)
      | Some (Panics, l, w) => Some (Panics, l, w)
      | Some (Returns rerr, l, w) =>
        let err := match sl_err l with None => rerr | Some e => Some e end in
        Some (Returns (sl_written l, err, true), l,
              {| sock := sock w; pipe := []; fileq := fileq w;
                 dst := dst w |})
      end
    | _, _, _ => Some (Returns (0, None, false), l0, w)
    end.

(** ** Vocabulary of the specification *)

(** The three cipher families, their profiles, and the encoder of each
    family. *)
Inductive family : Type :=
| AES_GCM_128
| AES_GCM_256
| CHACHA20_POLY1305.

Definition KEY_SIZE (f : family) : Z :=
  match f with
  | AES_GCM_128 => kTLS_CIPHER_AES_GCM_128_KEY_SIZE
  | AES_GCM_256 => kTLS_CIPHER_AES_GCM_256_KEY_SIZE
  | CHACHA20_POLY1305 => kTLS_CIPHER_CHACHA20_POLY1305_KEY_SIZE
  end.

Definition IV_SIZE (f : family) : Z :=
  match f with
  | AES_GCM_128 => kTLS_CIPHER_AES_GCM_128_IV_SIZE
  | AES_GCM_256 => kTLS_CIPHER_AES_GCM_256_IV_SIZE
  | CHACHA20_POLY1305 => kTLS_CIPHER_CHACHA20_POLY1305_IV_SIZE
  end.

Definition SALT_SIZE (f : family) : Z :=
  match f with
  | AES_GCM_128 => kTLS_CIPHER_AES_GCM_128_SALT_SIZE
  | AES_GCM_256 => kTLS_CIPHER_AES_GCM_256_SALT_SIZE
  | CHACHA20_POLY1305 => kTLS_CIPHER_CHACHA20_POLY1305_SALT_SIZE
  end.

Definition REC_SEQ_SIZE (f : family) : Z :=
  match f with
  | AES_GCM_128 => kTLS_CIPHER_AES_GCM_128_REC_SEQ_SIZE
  | AES_GCM_256 => kTLS_CIPHER_AES_GCM_256_REC_SEQ_SIZE
  | CHACHA20_POLY1305 => kTLS_CIPHER_CHACHA20_POLY1305_REC_SEQ_SIZE
  end.

(** The closed-form size 2+2+IV_SIZE+KEY_SIZE+SALT_SIZE+REC_SEQ_SIZE. *)
Definition closedFormSize (f : family) : Z :=
  2 + 2 + IV_SIZE f + KEY_SIZE f + SALT_SIZE f + REC_SEQ_SIZE f.

Definition enable (f : family) : enableFunc_t :=
  match f with
  | AES_GCM_128 => ktlsEnableAES128GCM
  | AES_GCM_256 => ktlsEnableAES256GCM
  | CHACHA20_POLY1305 => ktlsEnableCHACHA20POLY1305
  end.

(** The configuration blob each encoder hands to the kernel. *)
Definition wireBlob (f : family) (ver : Z) (key_ iv_ seq : list byte)
  : list byte :=
  match f with
  | AES_GCM_128 =>
    cast_bytes kTLSCryptoInfoSize_AES_GCM_128
      (cryptoInfoAES128GCM ver key_ iv_ seq)
  | AES_GCM_256 =>
    cast_bytes kTLSCryptoInfoSize_AES_GCM_256
      (cryptoInfoAES256GCM ver key_ iv_ seq)
  | CHACHA20_POLY1305 =>
    cast_bytes kTLSCryptoInfoSize_CHACHA20_POLY1305
      (cryptoInfoCHACHA20POLY1305 ver key_ iv_ seq)
  end.

(** The IV length each encoder asks for, read off its length checks. *)
Definition requiredIVLen (f : family) (ver : Z) : Z :=
  match f with
  | CHACHA20_POLY1305 => IV_SIZE f
  | _ => if ver =? VersionTLS12 then SALT_SIZE f else SALT_SIZE f + IV_SIZE f
  end.

(** The two socket configuration calls of the encoders. *)
Definition ulpBind : syscall := SetsockoptString SOL_TCP TCP_ULP tls_ulp_name.

Definition cipherConfig (opt : Z) (blob : list byte) : syscall :=
  SetsockoptString SOL_TLS opt blob.

(** The bytes of a blob that hold the salt field: it follows the two
    tags, the IV and the key. *)
Definition blobSalt (f : family) (blob : list byte) : list byte :=
  firstn (Z.to_nat (SALT_SIZE f))
    (skipn (Z.to_nat (2 + 2 + IV_SIZE f + KEY_SIZE f)) blob).

(** An encoder accepts an IV when, given a key and a sequence number of
    the right lengths, it does not answer with the IV length error. *)
Definition ivAccepted (f : family) (ver : Z) (iv_ : list byte) : Prop :=
  forall c opt skip key_ seq log,
    len key_ = KEY_SIZE f -> len seq = REC_SEQ_SIZE f ->
    forall desired actual,
      fst (enable f c ver opt skip key_ iv_ seq log) <>
      Some (ErrWrongIVLength desired actual).

(** The IV-length sentence of the specification, for every family:
    version 1.2 accepts exactly salt-size bytes, version 1.3 exactly
    salt-size + IV-size bytes. *)
Definition ivLengthsBySaltAndIV : Prop :=
  forall f iv_,
    (ivAccepted f VersionTLS12 iv_ <-> len iv_ = SALT_SIZE f) /\
    (ivAccepted f VersionTLS13 iv_ <-> len iv_ = SALT_SIZE f + IV_SIZE f).

(** Kernel versions, compared on major then minor. *)
Definition version_le (M m major minor : Z) : Prop :=
  M < major \/ (M = major /\ m <= minor).

Definition version_lt (M m major minor : Z) : Prop :=
  M < major \/ (M = major /\ m < minor).

(** The capability flags of the matrix. *)
Inductive capability : Type :=
| CapSupport | CapTX | CapRX | CapAESGCM128 | CapAESGCM256
| CapCHACHA20POLY1305 | CapTLS13TX | CapTLS13RX | CapZEROCOPY | CapNOPAD.

Definition granted (caps : Caps) (cap : capability) : bool :=
  match cap with
  | CapSupport => kTLSSupport caps
  | CapTX => kTLSSupportTX caps
  | CapRX => kTLSSupportRX caps
  | CapAESGCM128 => kTLSSupportAESGCM128 caps
  | CapAESGCM256 => kTLSSupportAESGCM256 caps
  | CapCHACHA20POLY1305 => kTLSSupportCHACHA20POLY1305 caps
  | CapTLS13TX => kTLSSupportTLS13TX caps
  | CapTLS13RX => kTLSSupportTLS13RX caps
  | CapZEROCOPY => kTLSSupportZEROCOPY caps
  | CapNOPAD => kTLSSupportNOPAD caps
  end.

(** The identifiers named by the [case] clauses of [enableKernelTLS], in
    the order of the source. *)
Definition caseLabels : list Z :=
  [ TLS_ECDHE_RSA_WITH_AES_128_GCM_SHA256;
    TLS_ECDHE_ECDSA_WITH_AES_128_GCM_SHA256;
    TLS_RSA_WITH_AES_128_GCM_SHA256;
    TLS_ECDHE_RSA_WITH_AES_256_GCM_SHA384;
    TLS_ECDHE_ECDSA_WITH_AES_256_GCM_SHA384;
    TLS_RSA_WITH_AES_256_GCM_SHA384;
    TLS_ECDHE_RSA_WITH_CHACHA20_POLY1305_SHA256;
    TLS_ECDHE_ECDSA_WITH_CHACHA20_POLY1305_SHA256;
    TLS_AES_128_GCM_SHA256;
    TLS_AES_256_GCM_SHA384;
    TLS_CHACHA20_POLY1305_SHA256 ].

(** An identifier is recognized when the switch selects a clause for
    it. *)
Definition recognized (cipherSuiteID : Z) : Prop :=
  switchCipherSuite cipherSuiteID <> None.

(** "The mapping recognizes exactly [k] distinct identifiers". *)
Definition recognizesExactly (k : nat) : Prop :=
  exists ids : list Z,
    NoDup ids /\ length ids = k /\ forall id, In id ids <-> recognized id.


(** The salt sentence of the specification: for IVs accepted at the two
    protocol versions that agree on their salt prefix, the salt bytes of
    the two blobs are the same, and are that prefix. *)
Definition saltPrefixIdentical : Prop :=
  forall f key_ iv12 iv13 seq,
    len iv12 = requiredIVLen f VersionTLS12 ->
    len iv13 = requiredIVLen f VersionTLS13 ->
    firstn (Z.to_nat (SALT_SIZE f)) iv12 =
    firstn (Z.to_nat (SALT_SIZE f)) iv13 ->
    blobSalt f (wireBlob f VersionTLS12 key_ iv12 seq) =
    firstn (Z.to_nat (SALT_SIZE f)) iv12 /\
    blobSalt f (wireBlob f VersionTLS13 key_ iv13 seq) =
    firstn (Z.to_nat (SALT_SIZE f)) iv12.


(** The destination once [writeToFile] has made room: extended with
    zeros to [size] bytes when it was shorter, as it was otherwise. *)
Definition extended (data : list byte) (size : Z) : list byte :=
  if size >? len data then truncate data size else data.

(** ** Sample environments and inputs *)

Definition zeros (n : nat) : list byte := repeat x00 n.

(** A socket on which every call succeeds. *)
Definition acceptingSocket : TCPConn :=
  {| syscallConnErr := None; controlErr := None;
     kernel := fun _ _ => None |}.

(** A socket that already carries a ULP: binding again is refused with
    EEXIST, every other option is accepted. *)
Definition boundSocket : TCPConn :=
  {| syscallConnErr := None; controlErr := None;
     kernel := fun _ call =>
       match call with
       | SetsockoptString level _ _ =>
         if level =? SOL_TCP then Some EEXIST else None
       | SetsockoptInt _ _ _ => None
       end |}.

(** A socket of a kernel whose TLS module cannot be attached: the bind
    fails with ENOENT and the TLS options with ENOPROTOOPT. *)
Definition noTLSSocket : TCPConn :=
  {| syscallConnErr := None; controlErr := None;
     kernel := fun _ call =>
       match call with
       | SetsockoptString level _ _ =>
         if level =? SOL_TCP then Some ENOENT else Some ENOPROTOOPT
       | SetsockoptInt _ _ _ => Some ENOPROTOOPT
       end |}.

(** A connection over [acceptingSocket] and the state before
    activation. *)
Definition sampleConn : Conn :=
  {| conn := IsTCPConn acceptingSocket; out_seq := zeros 8;
     in_seq := zeros 8 |}.

Definition freshOffload : offload :=
  {| sys := []; clientCipher := SoftwareCipher;
     serverCipher := SoftwareCipher |}.

(** A file system on which every call succeeds, one on which [f.Stat]
    fails (EIO), and an empty file at offset 0. *)
Definition okFiles : FileEnv :=
  {| seekErr := None; statErr := None; truncateErr := None;
     mmapErr := None |}.


Definition emptyFile : File := {| fdata := []; fpos := 0 |}.

(** A transfer whose set-up succeeds, and the world before it: an empty
    pipe and an empty destination at offset 0. *)
Definition okSplice : SpliceEnv :=
  {| connIsTCP := true; scErr := None; fscErr := None; pipeErr := None;
     fscWriteErr := None |}.

Definition freshWorld (s : list sock_ev) (fq : list file_ev) : splice_world :=
  {| sock := s; pipe := []; fileq := fq; dst := emptyFile |}.

(** ** Further vocabulary *)

(** The cipher-type tag of each family. *)
Definition cipherTypeOf (f : family) : Z :=
  match f with
  | AES_GCM_128 => kTLS_CIPHER_AES_GCM_128
  | AES_GCM_256 => kTLS_CIPHER_AES_GCM_256
  | CHACHA20_POLY1305 => kTLS_CIPHER_CHACHA20_POLY1305
  end.

(** The ULP bind among the calls of a log. *)
Definition is_ulpBind (call : syscall) : bool :=
  match call with
  | SetsockoptString level opt _ => (level =? SOL_TCP) && (opt =? TCP_ULP)
  | SetsockoptInt _ _ _ => false
  end.

Definition count_binds (log : syslog) : nat :=
  length (filter is_ulpBind log).

(** The two best-effort options. *)
Definition zerocopyOpt : syscall := SetsockoptInt SOL_TLS TLS_TX_ZEROCOPY_RO 1.
Definition noPadOpt : syscall := SetsockoptInt SOL_TLS TLS_RX_EXPECT_NO_PAD 1.

(** Calls that an encoder makes are [SetsockoptString] calls. *)
Definition encoderCalls (new : syslog) : Prop :=
  Forall (fun call => exists level opt v, call = SetsockoptString level opt v)
    new.

(** What the orchestration relies on in the encoder it is given: it only
    appends [SetsockoptString] calls to the log, and among them at most
    one ULP bind, none when told to skip it. *)
Definition encoderLike (ef : enableFunc_t) : Prop :=
  forall c ver opt skip key_ iv_ seq log,
    exists new,
      snd (ef c ver opt skip key_ iv_ seq log) = log ++ new /\
      encoderCalls new /\
      (count_binds new <= if skip then 0 else 1)%nat.

(** The TLS 1.3 clauses of the switch. *)
Definition isTLS13Suite (cipherSuiteID : Z) : bool :=
  match switchCipherSuite cipherSuiteID with
  | Some CaseAES128_TLS13 | Some CaseAES256_TLS13
  | Some CaseCHACHA20_TLS13 => true
  | _ => false
  end.

(** A TLS 1.3 activation on a kernel that grants everything. *)
Definition sampleActivation : option error * offload :=
  enableKernelTLS (probe 6 8) sampleConn TLS_AES_128_GCM_SHA256
    (zeros 16) (zeros 16) (zeros 12) (zeros 12) freshOffload.

(** The calls an activation adds to the log, in order: those of the
    transmit encoder, the zero-copy option, those of the receive encoder,
    the no-pad option; with the conditions under which the two options
    are attempted ([tls13] tells whether the protocol version is 1.3). *)
Definition activationShape (caps : Caps) (tls13 : Prop) (st : offload)
    (err : option error) (st' : offload) : Prop :=
  exists tx zc rx np,
    sys st' = sys st ++ tx ++ zc ++ rx ++ np /\
    encoderCalls tx /\ encoderCalls rx /\
    (count_binds tx + count_binds rx <= 1)%nat /\
    (zc = [] \/
     (zc = [zerocopyOpt] /\ kTLSSupportZEROCOPY caps = true /\
      clientCipher st' = kTLSCipher)) /\
    (np = [] \/
     (np = [noPadOpt] /\ tls13 /\ kTLSSupportNOPAD caps = true /\
      serverCipher st' = kTLSCipher /\ err = None)).

(** The cipher family and the protocol version each clause of the switch
    passes on. *)
Definition caseFamily (sc : suiteCase) : family :=
  match sc with
  | CaseAES128_TLS12 | CaseAES128_TLS13 => AES_GCM_128
  | CaseAES256_TLS12 | CaseAES256_TLS13 => AES_GCM_256
  | CaseCHACHA20_TLS12 | CaseCHACHA20_TLS13 => CHACHA20_POLY1305
  end.

Definition caseVersion (sc : suiteCase) : Z :=
  match sc with
  | CaseAES128_TLS12 | CaseAES256_TLS12 | CaseCHACHA20_TLS12 => VersionTLS12
  | CaseAES128_TLS13 | CaseAES256_TLS13 | CaseCHACHA20_TLS13 => VersionTLS13
  end.

(** Two sockets that differ at most in how their kernels answer the
    integer options. *)
Definition agreeOnEncoderCalls (t t' : TCPConn) : Prop :=
  syscallConnErr t = syscallConnErr t' /\
  controlErr t = controlErr t' /\
  forall log level opt v,
    kernel t log (SetsockoptString level opt v) =
    kernel t' log (SetsockoptString level opt v).

(** A socket that accepts everything but the two best-effort options. *)
Definition noOptionsSocket : TCPConn :=
  {| syscallConnErr := None; controlErr := None;
     kernel := fun _ call =>
       match call with
       | SetsockoptString _ _ _ => None
       | SetsockoptInt _ _ _ => Some ENOPROTOOPT
       end |}.

(** ** Record-type write path ([ktls_linux.go]) *)

(** [errnoErr]: nil for 0; the boxed values for EAGAIN, EINVAL and ENOENT
    are the same errors as the plain errno. *)
Definition errnoErr (e : Z) : option error :=
  if e =? 0 then None else Some (Errno e).

(** What the descriptor has in store for the successive attempts of
    [rwc.Write]: the raw answer [(r0, e1)] of the sendmsg system call, or
    an error of [rwc.Write] itself raised without running the closure. *)
Inductive tx_event : Type :=
| TxSyscall (r0 e1 : Z)
| TxNetErr (code : Z).

(** The would-block answer of sendmsg. *)
Definition TxBlock : tx_event := TxSyscall (-1) EAGAIN.

(** The message header handed to sendmsg: the control message and the
    bytes the single iovec covers. *)
Record Msghdr : Type := {
  Control : Cmsghdr;
  Iov : list byte
}.

(** Local variables of [ktlsSendCtrlMessage] that its closure assigns. *)
Record sm_locals : Type := {
  sm_n : Z;
  sm_err : option error
}.

(** [sendmsg] of this file: [n = int(r0)], and [err = errnoErr(e1)] when
    [e1 != 0]. *)
Definition sendmsg (r0 e1 : Z) : sm_locals :=
  {| sm_n := r0; sm_err := if negb (e1 =? 0) then errnoErr e1 else None |}.

(** [rwc.Write] with the closure of [ktlsSendCtrlMessage]; [sent] lists
    the headers handed to sendmsg so far. *)
Fixpoint rwcWrite (q : list tx_event) (msg : Msghdr) (l : sm_locals)
    (sent : list Msghdr)
  : option (option error * sm_locals) * list tx_event * list Msghdr :=
  match q with
  | [] => (None, [], sent)
  | TxNetErr code :: q' => (Some (Some (ErrNet code), l), q', sent)
  | TxSyscall r0 e1 :: q' =>
    let l := sendmsg r0 e1 in
    let sent := sent ++ [msg] in
    if is_EAGAIN (sm_err l) then rwcWrite q' msg l sent
    else (Some (None, l), q', sent)
  end.

(** [ktlsSendCtrlMessage]: the pair [(int, error)], the events not
    consumed and the headers handed to sendmsg. *)
Definition ktlsSendCtrlMessage (syscallConn : option Z) (typ : Z)
    (b : list byte) (q : list tx_event)
  : outcome (Z * option error) * list tx_event * list Msghdr :=
  match b with
  | [] => (Panics, q, [])           (* iov.Base = &b[0] *)
  | _ :: _ =>
    let msg :=
      {| Control := {| Level := SOL_TLS; Type_ := TLS_SET_RECORD_TYPE;
                       Data := byte_of_Z typ |};
         Iov := b |} in
    match syscallConn with
    | Some err => (Returns (0, Some (ErrNet err)), q, [])
    | None =>
      match rwcWrite q msg {| sm_n := 0; sm_err := None |} [] with
      | (None, q', sent) => (Parks, q', sent)
      | (Some (err0, l), q', sent) =>
        let err := match err0 with Some e => Some e | None => sm_err l end in
        (Returns (sm_n l, err), q', sent)
      end
    end
  end.

(** The header every attempt of [ktlsSendCtrlMessage] carries. *)
Definition ctrlMessage (typ : Z) (b : list byte) : Msghdr :=
  {| Control := {| Level := SOL_TLS; Type_ := TLS_SET_RECORD_TYPE;
                   Data := byte_of_Z typ |};
     Iov := b |}.

(** ** The release string of [init] ([ktls_linux.go]) *)

(** The bytes ['.'], ['-'] and ['+']. *)
Definition dot : byte := x2e.
Definition minus : byte := x2d.
Definition plus : byte := x2b.

(** [strings.Index(s, c)] for a one-byte [c]: the index of its first
    occurrence, -1 when there is none. *)
Fixpoint Index (s : list byte) (c : byte) : Z :=
  match s with
  | [] => -1
  | x :: s' =>
    if Byte.eqb x c then 0
    else let i := Index s' c in if i =? -1 then -1 else i + 1
  end.

(** The slice expression [s[:i]], which panics out of range. *)
Definition slice_to (s : list byte) (i : Z) : outcome (list byte) :=
  if (0 <=? i) && (i <=? len s) then Returns (firstn (Z.to_nat i) s)
  else Panics.

Definition isASCII (s : list byte) : bool :=
  forallb (fun x => Z_of_byte x <? 128) s.

Definition inCutset (cutset : list byte) (x : byte) : bool :=
  existsb (Byte.eqb x) cutset.

Fixpoint trimLeftASCII (s cutset : list byte) : list byte :=
  match s with
  | [] => []
  | x :: s' => if inCutset cutset x then trimLeftASCII s' cutset else s
  end.

(** [strings.TrimLeft(s, cutset)] for a cutset of ASCII bytes: the
    leading bytes of [s] that occur in the cutset are removed.  A cutset
    with a byte above 0x7f makes the library work on code points, which is
    not modelled: [None]. *)
Definition TrimLeft (s cutset : list byte) : option (list byte) :=
  if isASCII cutset then Some (trimLeftASCII s cutset) else None.

(** The value of a string of decimal digits, [None] when a byte is not a
    digit. *)
Fixpoint digits (s : list byte) (acc : Z) : option Z :=
  match s with
  | [] => Some acc
  | x :: s' =>
    let ch := Z_of_byte x - 48 in
    if (0 <=? ch) && (ch <=? 9) then digits s' (acc * 10 + ch) else None
  end.

(** [strconv.Atoi] on a 64-bit platform: an optional sign, at least one
    decimal digit, a value in the range of [int]; [None] is a non-nil
    error. *)
Definition Atoi (s : list byte) : option Z :=
  match s with
  | [] => None
  | x :: s' =>
    let neg := Byte.eqb x minus in
    let body := if neg || Byte.eqb x plus then s' else s in
    match body with
    | [] => None
    | _ :: _ =>
      match digits body 0 with
      | None => None
      | Some n =>
        let v := if neg then - n else n in
        if (min_int64 <=? v) && (v <=? max_int64) then Some v else None
      end
    end
  end.

(** [release := string(buf[:])], cut at its first NUL byte. *)
Definition releaseOf (buf : list byte) : list byte :=
  let i := Index buf x00 in
  if negb (i =? -1) then firstn (Z.to_nat i) buf else buf.

(** The two numbers [init] reads off the release string: the results of
    the two calls of [strconv.Atoi], or the panic of a slice expression.
    [None]: the string is outside the modelled domain of [TrimLeft]. *)
Definition parseRelease (release : list byte)
  : option (outcome (option Z * option Z)) :=
  match slice_to release (Index release dot) with
  | Returns majorRelease =>
    match TrimLeft release (majorRelease ++ [dot]) with
    | None => None
    | Some minorRelease =>
      match slice_to minorRelease (Index minorRelease dot) with
      | Returns minorRelease =>
        Some (Returns (Atoi majorRelease, Atoi minorRelease))
      | _ => Some Panics
      end
    end
  | _ => Some Panics
  end.

(** [init] from what the machine answers: whether [/sys/module/tls]
    exists, the build-time switch, and the [Release] field that
    [unix.Uname] fills ([None] when the call fails). *)
Definition initMachine (stat_ok enabled : bool)
    (uname : option (list byte)) : option (outcome Caps) :=
  let env ok major minor :=
    {| statOK := stat_ok; kTLSEnabled := enabled; unameOK := ok;
       majorRelease := major; minorRelease := minor |} in
  match uname with
  | None => Some (Returns (init (env false None None)))
  | Some buf =>
    if negb stat_ok || negb (true && enabled) then
      Some (Returns (init (env true None None)))
    else
      match parseRelease (releaseOf buf) with
      | None => None
      | Some (Returns (major, minor)) =>
        Some (Returns (init (env true major minor)))
      | Some _ => Some Panics
      end
  end.

(** How often the byte [c] occurs in [s]. *)
Definition countByte (c : byte) (s : list byte) : nat :=
  length (filter (fun x => Byte.eqb x c) s).

(** The release string ["5.15.0-91-generic"] in its 65-byte field, and
    ["6.6.8-arch1-1"]. *)
Definition release_5_15 : list byte :=
  [x35; x2e; x31; x35; x2e; x30; x2d; x39; x31; x2d; x67; x65; x6e; x65;
   x72; x69; x63] ++ repeat x00 48.

Definition release_6_6 : list byte :=
  [x36; x2e; x36; x2e; x38; x2d; x61; x72; x63; x68; x31; x2d; x31] ++
  repeat x00 52.

(** * Properties *)

(** ** Go primitives *)

Lemma go_copy_length {A : Type} (dst src : list A) :
  length (go_copy dst src) = length dst.
Proof.
  unfold go_copy.
  rewrite length_app, length_firstn, length_skipn. lia.
Qed.

Lemma go_copy_exact {A : Type} (dst src : list A) :
  length src = length dst -> go_copy dst src = src.
Proof.
  intros H. unfold go_copy.
  rewrite firstn_all2 by lia.
  rewrite skipn_all2 by lia.
  apply app_nil_r.
Qed.

Lemma zero_array_length (n : Z) : length (zero_array n) = Z.to_nat n.
Proof. unfold zero_array. apply repeat_length. Qed.

Lemma len_nonneg {A : Type} (s : list A) : 0 <= len s.
Proof. unfold len. lia. Qed.

Lemma len_app {A : Type} (s t : list A) : len (s ++ t) = len s + len t.
Proof. unfold len. rewrite length_app. lia. Qed.

Lemma wrap64_small (z : Z) :
  min_int64 <= z <= max_int64 -> wrap64 z = z.
Proof.
  unfold wrap64, min_int64, max_int64. intros H.
  rewrite Z.mod_small by lia. lia.
Qed.

Lemma add64_small (a b : Z) :
  min_int64 <= a + b <= max_int64 -> add64 a b = a + b.
Proof. apply wrap64_small. Qed.

Lemma sub64_small (a b : Z) :
  min_int64 <= a - b <= max_int64 -> sub64 a b = a - b.
Proof. apply wrap64_small. Qed.

(** ** Cipher wire encoders *)

(** None of the three structs has padding: [unsafe.Sizeof] agrees with
    the closed-form constant, so the size assertion never fires. *)
Lemma Sizeof_closedForm :
  Sizeof kTLS_CIPHER_AES_GCM_128_IV_SIZE kTLS_CIPHER_AES_GCM_128_KEY_SIZE
    kTLS_CIPHER_AES_GCM_128_SALT_SIZE kTLS_CIPHER_AES_GCM_128_REC_SEQ_SIZE
  = kTLSCryptoInfoSize_AES_GCM_128 /\
  Sizeof kTLS_CIPHER_AES_GCM_256_IV_SIZE kTLS_CIPHER_AES_GCM_256_KEY_SIZE
    kTLS_CIPHER_AES_GCM_256_SALT_SIZE kTLS_CIPHER_AES_GCM_256_REC_SEQ_SIZE
  = kTLSCryptoInfoSize_AES_GCM_256 /\
  Sizeof kTLS_CIPHER_CHACHA20_POLY1305_IV_SIZE
    kTLS_CIPHER_CHACHA20_POLY1305_KEY_SIZE
    kTLS_CIPHER_CHACHA20_POLY1305_SALT_SIZE
    kTLS_CIPHER_CHACHA20_POLY1305_REC_SEQ_SIZE
  = kTLSCryptoInfoSize_CHACHA20_POLY1305.
Proof. repeat split; reflexivity. Qed.

(** The fields of the struct the encoders build, whatever the lengths of
    the slices copied into it. *)
Lemma fields_bytes_length (ci : kTLSCryptoInfoCipher) :
  len (fields_bytes ci) =
  2 + 2 + len (iv ci) + len (key ci) + len (salt ci) + len (recSeq ci).
Proof.
  unfold fields_bytes. rewrite !len_app. unfold le16, len. simpl length. lia.
Qed.

Lemma cryptoInfo_field_lengths (f : family) (ver : Z)
    (key_ iv_ seq : list byte) :
  let ci :=
    match f with
    | AES_GCM_128 => cryptoInfoAES128GCM ver key_ iv_ seq
    | AES_GCM_256 => cryptoInfoAES256GCM ver key_ iv_ seq
    | CHACHA20_POLY1305 => cryptoInfoCHACHA20POLY1305 ver key_ iv_ seq
    end in
  len (iv ci) = IV_SIZE f /\ len (key ci) = KEY_SIZE f /\
  len (salt ci) = SALT_SIZE f /\ len (recSeq ci) = REC_SEQ_SIZE f.
Proof.
  destruct f; cbn -[go_copy zero_array firstn skipn]; unfold len;
    rewrite ?go_copy_length, ?zero_array_length; repeat split; reflexivity.
Qed.

Lemma wireBlob_fields (f : family) (ver : Z) (key_ iv_ seq : list byte) :
  wireBlob f ver key_ iv_ seq =
  fields_bytes
    match f with
    | AES_GCM_128 => cryptoInfoAES128GCM ver key_ iv_ seq
    | AES_GCM_256 => cryptoInfoAES256GCM ver key_ iv_ seq
    | CHACHA20_POLY1305 => cryptoInfoCHACHA20POLY1305 ver key_ iv_ seq
    end.
Proof.
  pose proof (cryptoInfo_field_lengths f ver key_ iv_ seq) as H.
  cbv zeta in H. destruct H as (Hiv & Hkey & Hsalt & Hseq).
  assert (Hlen : forall ci size,
             len (fields_bytes ci) = size -> size mod 2 = 0 ->
             cast_bytes size ci = fields_bytes ci).
  { intros ci size Hl Hm. unfold cast_bytes, struct_bytes.
    rewrite Hl. unfold align_up.
    replace ((size + 2 - 1) / 2 * 2 - size) with 0.
    - unfold zero_array. simpl. rewrite app_nil_r.
      apply firstn_all2. unfold len in Hl. lia.
    - pose proof (Z.div_mod size 2 ltac:(lia)) as Hd.
      replace (size + 2 - 1) with (size / 2 * 2 + 1) by lia.
      rewrite Z.div_add_l by lia. change (1 / 2) with 0. lia. }
  destruct f; unfold wireBlob; apply Hlen;
    try reflexivity; rewrite fields_bytes_length, Hiv, Hkey, Hsalt, Hseq;
    reflexivity.
Qed.

Lemma wireBlob_length (f : family) (ver : Z) (key_ iv_ seq : list byte) :
  len (wireBlob f ver key_ iv_ seq) = closedFormSize f.
Proof.
  rewrite wireBlob_fields, fields_bytes_length.
  pose proof (cryptoInfo_field_lengths f ver key_ iv_ seq) as H.
  cbv zeta in H. destruct H as (Hiv & Hkey & Hsalt & Hseq).
  rewrite Hiv, Hkey, Hsalt, Hseq. reflexivity.
Qed.

(** The encoders on inputs of the required lengths, on a socket that
    lets the configuration through: the bind (unless skipped) and then
    the cipher configuration are issued, and the result is the kernel's
    answer to the latter. *)
Lemma enable_accepts (f : family) (c : TCPConn) (ver opt : Z) (skip : bool)
    (key_ iv_ seq : list byte) (log : syslog) :
  len key_ = KEY_SIZE f ->
  len iv_ = requiredIVLen f ver ->
  len seq = REC_SEQ_SIZE f ->
  syscallConnErr c = None ->
  controlErr c = None ->
  (skip = true \/ kernel c log ulpBind = None) ->
  let log1 := if skip then log else log ++ [ulpBind] in
  let call := cipherConfig opt (wireBlob f ver key_ iv_ seq) in
  enable f c ver opt skip key_ iv_ seq log =
  (option_map Errno (kernel c log1 call), log1 ++ [call]).
Proof.
  intros Hkey Hiv Hseq Hsc Hctl Hbind log1 call. subst log1 call.
  destruct f; cbn [enable KEY_SIZE REC_SEQ_SIZE requiredIVLen SALT_SIZE
                   IV_SIZE wireBlob] in *;
    [ unfold ktlsEnableAES128GCM | unfold ktlsEnableAES256GCM
    | unfold ktlsEnableCHACHA20POLY1305 ];
    rewrite Hkey, Z.eqb_refl; cbn [negb];
    try (destruct (ver =? VersionTLS12));
    rewrite Hiv, Hseq, !Z.eqb_refl; cbn [negb];
    rewrite Hsc, Hctl;
    (destruct skip; cbn [negb];
     [ reflexivity
     | destruct Hbind as [Hb | Hb]; [ discriminate | ];
       unfold setsockopt; fold ulpBind; try rewrite Hb; reflexivity ]).
Qed.

(** A key of any other length is refused with the key length error, and
    no system call is made. *)
Lemma enable_rejects_key (f : family) (c : TCPConn) (ver opt : Z)
    (skip : bool) (key_ iv_ seq : list byte) (log : syslog) :
  len key_ <> KEY_SIZE f ->
  enable f c ver opt skip key_ iv_ seq log =
  (Some (ErrWrongKeyLength (KEY_SIZE f) (len key_)), log).
Proof.
  intros Hkey. apply Z.eqb_neq in Hkey.
  destruct f; cbn [enable KEY_SIZE] in *;
    [ unfold ktlsEnableAES128GCM | unfold ktlsEnableAES256GCM
    | unfold ktlsEnableCHACHA20POLY1305 ];
    rewrite Hkey; reflexivity.
Qed.

Lemma enable_rejects_iv (f : family) (c : TCPConn) (ver opt : Z)
    (skip : bool) (key_ iv_ seq : list byte) (log : syslog) :
  len key_ = KEY_SIZE f ->
  len iv_ <> requiredIVLen f ver ->
  enable f c ver opt skip key_ iv_ seq log =
  (Some (ErrWrongIVLength (requiredIVLen f ver) (len iv_)), log).
Proof.
  intros Hkey Hiv. apply Z.eqb_neq in Hiv.
  destruct f; cbn [enable KEY_SIZE requiredIVLen SALT_SIZE IV_SIZE] in *;
    [ unfold ktlsEnableAES128GCM | unfold ktlsEnableAES256GCM
    | unfold ktlsEnableCHACHA20POLY1305 ];
    rewrite Hkey, Z.eqb_refl; cbn [negb];
    try (destruct (ver =? VersionTLS12));
    rewrite Hiv; reflexivity.
Qed.

Lemma enable_rejects_seq (f : family) (c : TCPConn) (ver opt : Z)
    (skip : bool) (key_ iv_ seq : list byte) (log : syslog) :
  len key_ = KEY_SIZE f ->
  len iv_ = requiredIVLen f ver ->
  len seq <> REC_SEQ_SIZE f ->
  enable f c ver opt skip key_ iv_ seq log =
  (Some (ErrWrongSeqLength (REC_SEQ_SIZE f) (len seq)), log).
Proof.
  intros Hkey Hiv Hseq. apply Z.eqb_neq in Hseq.
  destruct f; cbn [enable KEY_SIZE requiredIVLen SALT_SIZE IV_SIZE
                   REC_SEQ_SIZE] in *;
    [ unfold ktlsEnableAES128GCM | unfold ktlsEnableAES256GCM
    | unfold ktlsEnableCHACHA20POLY1305 ];
    rewrite Hkey, Z.eqb_refl; cbn [negb];
    try (destruct (ver =? VersionTLS12));
    rewrite Hiv, Z.eqb_refl; cbn [negb]; rewrite Hseq; reflexivity.
Qed.

(** C1.  For each of the three cipher families, the encoder called with a
    key, an IV and a sequence number of exactly the required lengths
    builds a configuration blob of exactly the closed-form size
    2+2+IV_SIZE+KEY_SIZE+SALT_SIZE+REC_SEQ_SIZE and, on a socket that lets
    the configuration through, hands that blob to the kernel; a key, an
    IV or a sequence number of any other length (one byte shorter or
    longer in particular) is refused with the key, IV or sequence length
    error, and the system-call log is left as it was: neither the ULP
    bind nor the cipher setsockopt is attempted. *)
Theorem enable_exact_lengths_or_length_error :
  forall (f : family) (c : TCPConn) (ver opt : Z) (skip : bool)
         (key_ iv_ seq : list byte) (log : syslog),
    (len key_ = KEY_SIZE f -> len iv_ = requiredIVLen f ver ->
     len seq = REC_SEQ_SIZE f ->
     len (wireBlob f ver key_ iv_ seq) = closedFormSize f /\
     (syscallConnErr c = None -> controlErr c = None ->
      (skip = true \/ kernel c log ulpBind = None) ->
      exists res,
        enable f c ver opt skip key_ iv_ seq log =
        (res, (if skip then log else log ++ [ulpBind]) ++
              [cipherConfig opt (wireBlob f ver key_ iv_ seq)]))) /\
    (len key_ <> KEY_SIZE f ->
     enable f c ver opt skip key_ iv_ seq log =
     (Some (ErrWrongKeyLength (KEY_SIZE f) (len key_)), log)) /\
    (len key_ = KEY_SIZE f -> len iv_ <> requiredIVLen f ver ->
     enable f c ver opt skip key_ iv_ seq log =
     (Some (ErrWrongIVLength (requiredIVLen f ver) (len iv_)), log)) /\
    (len key_ = KEY_SIZE f -> len iv_ = requiredIVLen f ver ->
     len seq <> REC_SEQ_SIZE f ->
     enable f c ver opt skip key_ iv_ seq log =
     (Some (ErrWrongSeqLength (REC_SEQ_SIZE f) (len seq)), log)).
Proof.
  intros f c ver opt skip key_ iv_ seq log.
  split; [ | split; [ | split ] ].
  - intros Hkey Hiv Hseq. split.
    + apply wireBlob_length.
    + intros Hsc Hctl Hbind. eexists.
      apply enable_accepts; assumption.
  - apply enable_rejects_key.
  - apply enable_rejects_iv.
  - apply enable_rejects_seq.
Qed.

Lemma enable_exact_lengths_or_length_error_witness :
  (len (wireBlob AES_GCM_128 VersionTLS13 (zeros 16) (zeros 12) (zeros 8))
   = 40 /\
   exists res,
     ktlsEnableAES128GCM acceptingSocket VersionTLS13 TLS_TX false
       (zeros 16) (zeros 12) (zeros 8) [] =
     (res, [ulpBind;
            cipherConfig TLS_TX
              (wireBlob AES_GCM_128 VersionTLS13 (zeros 16) (zeros 12)
                 (zeros 8))])) /\
  ktlsEnableAES256GCM acceptingSocket VersionTLS12 TLS_TX false
    (zeros 31) (zeros 4) (zeros 8) [] =
  (Some (ErrWrongKeyLength 32 31), []) /\
  ktlsEnableCHACHA20POLY1305 acceptingSocket VersionTLS12 TLS_RX false
    (zeros 32) (zeros 13) (zeros 8) [] =
  (Some (ErrWrongIVLength 12 13), []) /\
  ktlsEnableAES128GCM acceptingSocket VersionTLS12 TLS_RX true
    (zeros 16) (zeros 4) (zeros 7) [] =
  (Some (ErrWrongSeqLength 8 7), []).
Proof.
  split; [ | split; [ | split ] ].
  - destruct (enable_exact_lengths_or_length_error AES_GCM_128
                acceptingSocket VersionTLS13 TLS_TX false
                (zeros 16) (zeros 12) (zeros 8) []) as (Hacc & _).
    destruct (Hacc eq_refl eq_refl eq_refl) as (Hlen & Hcall).
    split; [ rewrite Hlen; reflexivity | ].
    apply Hcall; [ reflexivity | reflexivity | right; reflexivity ].
  - destruct (enable_exact_lengths_or_length_error AES_GCM_256
                acceptingSocket VersionTLS12 TLS_TX false
                (zeros 31) (zeros 4) (zeros 8) []) as (_ & Hkey & _).
    apply Hkey. discriminate.
  - destruct (enable_exact_lengths_or_length_error CHACHA20_POLY1305
                acceptingSocket VersionTLS12 TLS_RX false
                (zeros 32) (zeros 13) (zeros 8) []) as (_ & _ & Hiv & _).
    apply Hiv; [ reflexivity | discriminate ].
  - destruct (enable_exact_lengths_or_length_error AES_GCM_128
                acceptingSocket VersionTLS12 TLS_RX true
                (zeros 16) (zeros 4) (zeros 7) []) as (_ & _ & _ & Hseq).
    apply Hseq; [ reflexivity | reflexivity | discriminate ].
Defined.

(** *** IV lengths and the salt prefix *)

Lemma zeros_len (n : Z) : 0 <= n -> len (zeros (Z.to_nat n)) = n.
Proof. intros H. unfold len, zeros. rewrite repeat_length. lia. Qed.

(** An IV is accepted exactly when it has the length the checks of the
    encoder ask for. *)
Lemma ivAccepted_iff (f : family) (ver : Z) (iv_ : list byte) :
  ivAccepted f ver iv_ <-> len iv_ = requiredIVLen f ver.
Proof.
  split.
  - intros Hacc.
    destruct (Z.eq_dec (len iv_) (requiredIVLen f ver)) as [E | NE]; auto.
    exfalso.
    assert (Hk : len (zeros (Z.to_nat (KEY_SIZE f))) = KEY_SIZE f)
      by (apply zeros_len; destruct f; discriminate).
    assert (Hs : len (zeros (Z.to_nat (REC_SEQ_SIZE f))) = REC_SEQ_SIZE f)
      by (apply zeros_len; destruct f; discriminate).
    apply (Hacc acceptingSocket TLS_TX false _ _ [] Hk Hs
             (requiredIVLen f ver) (len iv_)).
    rewrite enable_rejects_iv by assumption. reflexivity.
  - intros Hiv c opt skip key_ seq log Hkey Hseq desired actual.
    destruct (Z.eq_dec (len seq) (REC_SEQ_SIZE f)) as [E | NE].
    2:{ rewrite enable_rejects_seq by assumption. discriminate. }
    clear Hseq.
    destruct f; cbn [enable KEY_SIZE REC_SEQ_SIZE requiredIVLen SALT_SIZE
                     IV_SIZE] in *;
      [ unfold ktlsEnableAES128GCM | unfold ktlsEnableAES256GCM
      | unfold ktlsEnableCHACHA20POLY1305 ];
      rewrite Hkey, Z.eqb_refl; cbn [negb];
      try (destruct (ver =? VersionTLS12));
      rewrite Hiv, E, !Z.eqb_refl; cbn [negb];
      (destruct (syscallConnErr c); [ discriminate | ]);
      (destruct (controlErr c); [ discriminate | ]);
      destruct skip; cbn [negb]; unfold setsockopt;
      repeat match goal with
             | |- context [kernel ?c ?l ?x] => destruct (kernel c l x)
             end; cbn; discriminate.
Qed.

Lemma firstn_app_exact {A : Type} (n : nat) (a b : list A) :
  length a = n -> firstn n (a ++ b) = a.
Proof.
  intros <-. rewrite firstn_app, Nat.sub_diag, firstn_all. simpl.
  apply app_nil_r.
Qed.

Lemma skipn_app_exact {A : Type} (n : nat) (a b : list A) :
  length a = n -> skipn n (a ++ b) = b.
Proof.
  intros <-. rewrite skipn_app, Nat.sub_diag, skipn_all. reflexivity.
Qed.

(** The salt bytes of a blob are the salt field of the struct. *)
Lemma blobSalt_wireBlob (f : family) (ver : Z) (key_ iv_ seq : list byte) :
  blobSalt f (wireBlob f ver key_ iv_ seq) =
  salt match f with
       | AES_GCM_128 => cryptoInfoAES128GCM ver key_ iv_ seq
       | AES_GCM_256 => cryptoInfoAES256GCM ver key_ iv_ seq
       | CHACHA20_POLY1305 => cryptoInfoCHACHA20POLY1305 ver key_ iv_ seq
       end.
Proof.
  rewrite wireBlob_fields.
  pose proof (cryptoInfo_field_lengths f ver key_ iv_ seq) as H.
  cbv zeta in H. destruct H as (Hiv & Hkey & Hsalt & Hseq).
  set (ci := match f with
             | AES_GCM_128 => _ | AES_GCM_256 => _ | CHACHA20_POLY1305 => _
             end) in *.
  unfold blobSalt, fields_bytes.
  replace (le16 (version (info ci)) ++ le16 (cipherType (info ci)) ++
           iv ci ++ key ci ++ salt ci ++ recSeq ci)
    with ((le16 (version (info ci)) ++ le16 (cipherType (info ci)) ++
           iv ci ++ key ci) ++ salt ci ++ recSeq ci)
    by (rewrite <- !app_assoc; reflexivity).
  rewrite skipn_app_exact.
  - apply firstn_app_exact. unfold len in Hsalt. lia.
  - rewrite !length_app. unfold le16. simpl length.
    unfold len in Hiv, Hkey.
    assert (0 <= IV_SIZE f /\ 0 <= KEY_SIZE f) by (destruct f; split; discriminate).
    lia.
Qed.

(** With an IV of the required length, the salt bytes of the blob are the
    first SALT_SIZE bytes of the IV. *)
Lemma blobSalt_is_iv_prefix (f : family) (ver : Z)
    (key_ iv_ seq : list byte) :
  len iv_ = requiredIVLen f ver ->
  blobSalt f (wireBlob f ver key_ iv_ seq) =
  firstn (Z.to_nat (SALT_SIZE f)) iv_.
Proof.
  intros Hiv. rewrite blobSalt_wireBlob.
  assert (Hge : SALT_SIZE f <= len iv_).
  { rewrite Hiv. destruct f; cbn; try destruct (ver =? VersionTLS12);
      discriminate. }
  destruct f; cbn [SALT_SIZE] in *.
  - cbn -[go_copy zero_array firstn skipn Z.to_nat].
    apply go_copy_exact.
    rewrite zero_array_length, length_firstn. unfold len in Hge. lia.
  - cbn -[go_copy zero_array firstn skipn Z.to_nat].
    apply go_copy_exact.
    rewrite zero_array_length, length_firstn. unfold len in Hge. lia.
  - reflexivity.
Qed.

Lemma saltPrefixIdentical_holds : saltPrefixIdentical.
Proof.
  intros f key_ iv12 iv13 seq H12 H13 Hpre.
  rewrite !blobSalt_is_iv_prefix by assumption.
  split; [ reflexivity | symmetry; exact Hpre ].
Qed.

(** C4, as amended.  For AES-GCM-128 and AES-GCM-256 the encoder accepts
    at version 1.2 an IV of exactly salt-size bytes and at version 1.3
    an IV of exactly salt-size + IV-size bytes, so the two lengths differ
    by the IV-size field; for ChaCha20-Poly1305 the encoder accepts an IV
    of exactly IV-size bytes at both versions.  For every family, when
    the two accepted IVs agree on their first salt-size bytes, the salt
    bytes written into the two blobs are the same, namely that prefix. *)
Theorem iv_lengths_per_version_and_salt_prefix :
  forall (f : family) (iv_ : list byte),
    (f <> CHACHA20_POLY1305 ->
     (ivAccepted f VersionTLS12 iv_ <-> len iv_ = SALT_SIZE f) /\
     (ivAccepted f VersionTLS13 iv_ <-> len iv_ = SALT_SIZE f + IV_SIZE f)) /\
    (forall ver,
       ivAccepted CHACHA20_POLY1305 ver iv_ <->
       len iv_ = IV_SIZE CHACHA20_POLY1305) /\
    (forall key_ iv13 seq,
       len iv_ = requiredIVLen f VersionTLS12 ->
       len iv13 = requiredIVLen f VersionTLS13 ->
       firstn (Z.to_nat (SALT_SIZE f)) iv_ =
       firstn (Z.to_nat (SALT_SIZE f)) iv13 ->
       blobSalt f (wireBlob f VersionTLS12 key_ iv_ seq) =
       firstn (Z.to_nat (SALT_SIZE f)) iv_ /\
       blobSalt f (wireBlob f VersionTLS13 key_ iv13 seq) =
       firstn (Z.to_nat (SALT_SIZE f)) iv_).
Proof.
  intros f iv_. split; [ | split ].
  - intros Hf. rewrite !ivAccepted_iff.
    destruct f; try congruence; cbn; split; reflexivity.
  - intros ver. rewrite ivAccepted_iff. reflexivity.
  - intros key_ iv13 seq. apply saltPrefixIdentical_holds.
Qed.

Lemma iv_lengths_per_version_and_salt_prefix_witness :
  (ivAccepted AES_GCM_128 VersionTLS12 [x01; x02; x03; x04] <->
   len [x01; x02; x03; x04] = 4) /\
  blobSalt AES_GCM_128
    (wireBlob AES_GCM_128 VersionTLS13 (zeros 16)
       ([x01; x02; x03; x04] ++ zeros 8) (zeros 8)) =
  [x01; x02; x03; x04].
Proof.
  destruct (iv_lengths_per_version_and_salt_prefix AES_GCM_128
              [x01; x02; x03; x04]) as (Haes & _ & Hsalt).
  split.
  - apply Haes. discriminate.
  - apply (Hsalt (zeros 16) ([x01; x02; x03; x04] ++ zeros 8) (zeros 8));
      reflexivity.
Defined.

(** C4, as stated, fails for ChaCha20-Poly1305: its salt size is 0, yet
    at version 1.2 the encoder refuses the empty IV and asks for 12
    bytes. *)
Lemma iv_lengths_as_stated_fail_for_chacha20 :
  ~ (ivLengthsBySaltAndIV /\ saltPrefixIdentical).
Proof.
  intros [H _].
  destruct (H CHACHA20_POLY1305 []) as [[_ H12] _].
  specialize (H12 eq_refl).
  apply ivAccepted_iff in H12. discriminate.
Qed.

(** *** A failing ULP bind *)

(** [ktlsEnableAES256GCM] and [ktlsEnableCHACHA20POLY1305] return from
    the closure when the bind fails: the bind failure is the result and
    the cipher configuration is not attempted. *)
Lemma ktlsEnableAES256GCM_returns_bind_failure (c : TCPConn) (ver opt : Z)
    (key_ iv_ seq : list byte) (log : syslog) (e : Z) :
  len key_ = KEY_SIZE AES_GCM_256 ->
  len iv_ = requiredIVLen AES_GCM_256 ver ->
  len seq = REC_SEQ_SIZE AES_GCM_256 ->
  syscallConnErr c = None -> controlErr c = None ->
  kernel c log ulpBind = Some e ->
  ktlsEnableAES256GCM c ver opt false key_ iv_ seq log =
  (Some (Errno e), log ++ [ulpBind]).
Proof.
  intros Hkey Hiv Hseq Hsc Hctl Hb.
  cbn [KEY_SIZE REC_SEQ_SIZE requiredIVLen SALT_SIZE IV_SIZE] in *.
  unfold ktlsEnableAES256GCM.
  rewrite Hkey, Z.eqb_refl; cbn [negb].
  destruct (ver =? VersionTLS12);
    rewrite Hiv, Hseq, !Z.eqb_refl; cbn [negb]; rewrite Hsc, Hctl;
    unfold setsockopt; fold ulpBind; rewrite Hb; reflexivity.
Qed.

Lemma ktlsEnableCHACHA20POLY1305_returns_bind_failure (c : TCPConn)
    (ver opt : Z) (key_ iv_ seq : list byte) (log : syslog) (e : Z) :
  len key_ = KEY_SIZE CHACHA20_POLY1305 ->
  len iv_ = requiredIVLen CHACHA20_POLY1305 ver ->
  len seq = REC_SEQ_SIZE CHACHA20_POLY1305 ->
  syscallConnErr c = None -> controlErr c = None ->
  kernel c log ulpBind = Some e ->
  ktlsEnableCHACHA20POLY1305 c ver opt false key_ iv_ seq log =
  (Some (Errno e), log ++ [ulpBind]).
Proof.
  intros Hkey Hiv Hseq Hsc Hctl Hb.
  cbn [KEY_SIZE REC_SEQ_SIZE requiredIVLen SALT_SIZE IV_SIZE] in *.
  unfold ktlsEnableCHACHA20POLY1305.
  rewrite Hkey, Hiv, Hseq, !Z.eqb_refl; cbn [negb]; rewrite Hsc, Hctl.
  unfold setsockopt; fold ulpBind; rewrite Hb; reflexivity.
Qed.

(** [ktlsEnableAES128GCM] only logs the failed bind: it goes on to the
    cipher configuration, and its result is the kernel's answer to that
    second call, whatever the bind answered. *)
Lemma ktlsEnableAES128GCM_goes_on_after_bind_failure (c : TCPConn)
    (ver opt : Z) (key_ iv_ seq : list byte) (log : syslog) (e : Z) :
  len key_ = KEY_SIZE AES_GCM_128 ->
  len iv_ = requiredIVLen AES_GCM_128 ver ->
  len seq = REC_SEQ_SIZE AES_GCM_128 ->
  syscallConnErr c = None -> controlErr c = None ->
  kernel c log ulpBind = Some e ->
  let call := cipherConfig opt (wireBlob AES_GCM_128 ver key_ iv_ seq) in
  ktlsEnableAES128GCM c ver opt false key_ iv_ seq log =
  (option_map Errno (kernel c (log ++ [ulpBind]) call),
   log ++ [ulpBind] ++ [call]).
Proof.
  intros Hkey Hiv Hseq Hsc Hctl Hb call. subst call.
  cbn [KEY_SIZE REC_SEQ_SIZE requiredIVLen SALT_SIZE IV_SIZE] in *.
  unfold ktlsEnableAES128GCM.
  rewrite Hkey, Z.eqb_refl; cbn [negb].
  destruct (ver =? VersionTLS12);
    rewrite Hiv, Hseq, !Z.eqb_refl; cbn [negb]; rewrite Hsc, Hctl;
    unfold setsockopt; cbn [snd]; rewrite <- app_assoc; reflexivity.
Qed.

(** C5 (the code departs from the claim).  [ktlsEnableAES128GCM], called
    with [skip = false] on a socket whose ULP bind fails: on a socket
    that refuses the bind with EEXIST and accepts the cipher
    configuration the encoder returns nil, having issued both calls; on a
    socket that refuses the bind with ENOENT and the cipher configuration
    with ENOPROTOOPT it returns ENOPROTOOPT, not the bind failure.  The
    two sibling encoders return the bind failure on the same sockets and
    inputs of their own lengths. *)
Theorem ktlsEnableAES128GCM_bind_failure_not_returned :
  ktlsEnableAES128GCM boundSocket VersionTLS12 TLS_TX false
    (zeros 16) (zeros 4) (zeros 8) [] =
  (None,
   [ulpBind;
    cipherConfig TLS_TX
      (wireBlob AES_GCM_128 VersionTLS12 (zeros 16) (zeros 4) (zeros 8))]) /\
  ktlsEnableAES128GCM noTLSSocket VersionTLS12 TLS_TX false
    (zeros 16) (zeros 4) (zeros 8) [] =
  (Some (Errno ENOPROTOOPT),
   [ulpBind;
    cipherConfig TLS_TX
      (wireBlob AES_GCM_128 VersionTLS12 (zeros 16) (zeros 4) (zeros 8))]) /\
  ktlsEnableAES256GCM boundSocket VersionTLS12 TLS_TX false
    (zeros 32) (zeros 4) (zeros 8) [] =
  (Some (Errno EEXIST), [ulpBind]) /\
  ktlsEnableCHACHA20POLY1305 boundSocket VersionTLS12 TLS_TX false
    (zeros 32) (zeros 12) (zeros 8) [] =
  (Some (Errno EEXIST), [ulpBind]).
Proof. repeat split. Qed.

(** ** Offload activation *)

Lemma recognized_iff (cipherSuiteID : Z) :
  recognized cipherSuiteID <-> In cipherSuiteID caseLabels.
Proof.
  unfold recognized, switchCipherSuite, caseLabels. split.
  - intros H.
    repeat match type of H with
           | context [cipherSuiteID =? ?x] =>
             destruct (Z.eqb_spec cipherSuiteID x) as [E | _];
               [ rewrite E; simpl; tauto | ]
           end.
    cbn in H. congruence.
  - intros H. simpl in H.
    repeat (destruct H as [H | H]; [ rewrite <- H; discriminate | ]).
    contradiction.
Qed.

Lemma caseLabels_NoDup : NoDup caseLabels.
Proof.
  unfold caseLabels.
  repeat (constructor;
          [ simpl; intros H;
            repeat (destruct H as [H | H]; [ discriminate | ]);
            exact H | ]).
  constructor.
Qed.

(** Any enumeration without repetition of the recognized identifiers has
    11 entries. *)
Lemma recognizesExactly_11_only (k : nat) : recognizesExactly k -> k = 11%nat.
Proof.
  intros (ids & Hnd & Hlen & Hiff).
  assert (H1 : (length caseLabels <= length ids)%nat).
  { apply NoDup_incl_length; [ apply caseLabels_NoDup | ].
    intros id Hin. apply Hiff, recognized_iff, Hin. }
  assert (H2 : (length ids <= length caseLabels)%nat).
  { apply NoDup_incl_length; [ exact Hnd | ].
    intros id Hin. apply recognized_iff, Hiff, Hin. }
  change (length caseLabels) with 11%nat in *. lia.
Qed.

(** C8, as amended.  The switch of [enableKernelTLS] recognizes exactly
    11 distinct cipher-suite identifiers (eight TLS 1.2 suites: three
    AES-128-GCM, three AES-256-GCM, two ChaCha20-Poly1305, and three
    TLS 1.3 suites), and for every identifier outside them the activation
    returns nil and leaves the state as it was: no system call is issued
    and neither cipher is replaced. *)
Theorem enableKernelTLS_recognizes_11_suites :
  recognizesExactly 11 /\
  forall cipherSuiteID,
    ~ recognized cipherSuiteID ->
    forall caps c inKey outKey inIV outIV st,
      enableKernelTLS caps c cipherSuiteID inKey outKey inIV outIV st =
      (None, st).
Proof.
  split.
  - exists caseLabels. split; [ apply caseLabels_NoDup | ].
    split; [ reflexivity | ].
    intros id. symmetry. apply recognized_iff.
  - intros id Hn caps c inKey outKey inIV outIV st.
    unfold enableKernelTLS. unfold recognized in Hn.
    destruct (switchCipherSuite id) eqn:E.
    + exfalso. apply Hn. discriminate.
    + destruct (kTLSSupport caps); reflexivity.
Qed.

(** C8, as stated, fails: the recognized identifiers cannot be
    enumerated by 9 distinct values. *)
Lemma enableKernelTLS_not_9_suites : ~ recognizesExactly 9.
Proof.
  intros H. apply recognizesExactly_11_only in H. discriminate.
Qed.

(** ** Capability probe *)

Ltac bool_to_prop :=
  repeat first
    [ rewrite orb_true_iff | rewrite andb_true_iff | rewrite Z.eqb_eq
    | rewrite Z.geb_le | rewrite Z.gtb_lt ].

(** C3.  The probe grants TX and AES-128-GCM exactly from version 4.13
    on, RX from 4.17 on, AES-256-GCM and TLS 1.3 TX from 5.1 on,
    ChaCha20-Poly1305 from 5.11 on, zero-copy from 5.19 on (versions
    compared on major, then minor, bounds included), and TLS 1.3 RX and
    no-pad exactly when the major version is at least 6. *)
Theorem probe_threshold_table :
  forall major minor : Z,
    let caps := probe major minor in
    (kTLSSupportTX caps = true <-> version_le 4 13 major minor) /\
    (kTLSSupportAESGCM128 caps = true <-> version_le 4 13 major minor) /\
    (kTLSSupportRX caps = true <-> version_le 4 17 major minor) /\
    (kTLSSupportAESGCM256 caps = true <-> version_le 5 1 major minor) /\
    (kTLSSupportTLS13TX caps = true <-> version_le 5 1 major minor) /\
    (kTLSSupportCHACHA20POLY1305 caps = true <->
     version_le 5 11 major minor) /\
    (kTLSSupportZEROCOPY caps = true <-> version_le 5 19 major minor) /\
    (kTLSSupportTLS13RX caps = true <-> 6 <= major) /\
    (kTLSSupportNOPAD caps = true <-> 6 <= major).
Proof.
  intros major minor caps. subst caps.
  unfold probe, init, grantCaps, version_le. cbn.
  repeat split; bool_to_prop; lia.
Qed.

(** C9.  Grants are monotonic in the probed version: every capability
    flag granted at a version is granted at every later version (ordered
    by major, then minor). *)
Theorem probe_monotonic :
  forall (major1 minor1 major2 minor2 : Z) (cap : capability),
    version_lt major1 minor1 major2 minor2 ->
    granted (probe major1 minor1) cap = true ->
    granted (probe major2 minor2) cap = true.
Proof.
  intros major1 minor1 major2 minor2 cap Hlt.
  unfold probe, init, grantCaps, version_lt in *.
  destruct cap; cbn; bool_to_prop; lia.
Qed.

Lemma probe_monotonic_witness :
  granted (probe 5 4) CapAESGCM256 = true.
Proof.
  apply (probe_monotonic 5 1 5 4 CapAESGCM256).
  - right. split; [ reflexivity | lia ].
  - reflexivity.
Defined.

Lemma enableKernelTLS_recognizes_11_suites_witness :
  enableKernelTLS (probe 6 8) sampleConn 0x002f
    (zeros 16) (zeros 16) (zeros 4) (zeros 4) freshOffload =
  (None, freshOffload).
Proof.
  apply (proj2 enableKernelTLS_recognizes_11_suites 0x002f).
  intros H. apply H. reflexivity.
Defined.

(** ** Record-type read path *)

(** What [rwc.Read] leaves behind: the buffer keeps its length, and when
    neither [rwc.Read] nor recvmsg failed the byte count is positive and
    within the buffer. *)
Lemma rwcRead_inv (q : list rx_event) :
  forall l err0 l' q',
    rwcRead q l = (Some (err0, l'), q') ->
    length (rr_b l') = length (rr_b l) /\
    (err0 = None -> rr_err l' = None -> 0 < rr_n l' <= len (rr_b l')).
Proof.
  induction q as [ | ev q IH ]; intros l err0 l' q' H.
  - discriminate.
  - destruct ev as [ | e | | level typ data payload | code ].
    + (* RxBlock *)
      cbn in H. apply IH in H. exact H.
    + (* RxErrno *)
      cbn -[Z.eqb] in H.
      destruct (e =? EAGAIN).
      * apply IH in H. exact H.
      * inversion H; subst. cbn. split; [ reflexivity | discriminate ].
    + (* RxEOF *)
      cbn in H. inversion H; subst. cbn. split; [ reflexivity | discriminate ].
    + (* RxRecord *)
      cbn -[go_copy firstn Z.eqb] in H.
      set (got := firstn (length (rr_b l)) payload) in *.
      assert (Hgot : (length got <= length (rr_b l))%nat).
      { subst got. rewrite length_firstn. lia. }
      destruct (len got =? 0) eqn:E0; inversion H; subst; cbn [rr_b rr_n rr_err].
      * rewrite go_copy_length. split; [ reflexivity | discriminate ].
      * rewrite go_copy_length. split; [ reflexivity | ].
        intros _ _. apply Z.eqb_neq in E0. unfold len in *.
        rewrite go_copy_length. lia.
    + (* RxNetErr *)
      cbn in H. inversion H; subst. split; [ reflexivity | discriminate ].
Qed.

(** A tagged read that returns without error delivered between 1 and
    [len b] bytes into a buffer of unchanged length. *)
Lemma ktlsReadRecord_payload_bounds (syscallConn : option Z)
    (q : list rx_event) (b : list byte) (typ n : Z) (b' : list byte)
    (q' : list rx_event) :
  ktlsReadRecord syscallConn q b = (Returns (typ, n, None), b', q') ->
  0 < n <= len b' /\ length b' = length b.
Proof.
  unfold ktlsReadRecord.
  destruct b as [ | b0 bs ]; [ discriminate | ].
  destruct syscallConn; [ discriminate | ].
  set (l0 := {| rr_n := 0; rr_err := None; rr_cmsg := zero_cmsg;
                rr_b := b0 :: bs |}).
  destruct (rwcRead q l0) as [[[err0 l] | ] q1] eqn:Hr; [ | discriminate ].
  apply rwcRead_inv in Hr. destruct Hr as [Hlen Hn].
  destruct err0 as [ e | ]; [ discriminate | ].
  destruct (rr_err l) as [ e | ] eqn:He; [ discriminate | ].
  specialize (Hn eq_refl eq_refl).
  destruct (rr_n l <? 0) eqn:E1; [ discriminate | ].
  destruct (rr_n l =? 0) eqn:E2; [ apply Z.eqb_eq in E2; lia | ].
  destruct (Level (rr_cmsg l) =? SOL_TLS); [ | discriminate ].
  destruct (Type_ (rr_cmsg l) =? TLS_GET_RECORD_TYPE); [ | discriminate ].
  cbn [negb]. intros H. inversion H; subst.
  split; [ exact Hn | exact Hlen ].
Qed.

Lemma nth_error_firstn_Some {A : Type} (n i : nat) (l : list A) (x : A) :
  nth_error (firstn n l) i = Some x ->
  (i < n)%nat /\ nth_error l i = Some x.
Proof.
  revert i l. induction n as [ | n IH ]; intros i l H.
  - destruct i; discriminate.
  - destruct l as [ | a l ]; [ destruct i; discriminate | ].
    destruct i as [ | i ]; cbn in *.
    + split; [ lia | exact H ].
    + apply IH in H. destruct H. split; [ lia | assumption ].
Qed.

(** C2.  When the tagged read yields a record without error, with [n]
    payload bytes at the start of the buffer: an alert whose second
    payload byte is close-notify makes the read return (0, io.EOF); an
    alert with any other second payload byte makes it return the
    unsupported-alert error; application data makes it return (n, nil)
    with the buffer as the tagged read filled it; any other record type
    makes it return the unsupported-record-type error. *)
Theorem ktlsReadDataFromRecord_classification :
  forall (syscallConn : option Z) (q : list rx_event) (b : list byte)
         (typ n : Z) (b' : list byte) (q' : list rx_event),
    ktlsReadRecord syscallConn q b = (Returns (typ, n, None), b', q') ->
    let payload := firstn (Z.to_nat n) b' in
    (typ = recordTypeAlert ->
     forall b1, nth_error payload 1 = Some b1 ->
       (Z_of_byte b1 = alertCloseNotify ->
        ktlsReadDataFromRecord syscallConn q b =
        (Returns (0, Some ErrEOF), b', q')) /\
       (Z_of_byte b1 <> alertCloseNotify ->
        exists b0,
          nth_error payload 0 = Some b0 /\
          ktlsReadDataFromRecord syscallConn q b =
          (Returns (0, Some (ErrUnsupportedAlert b0)), b', q'))) /\
    (typ = recordTypeApplicationData ->
     ktlsReadDataFromRecord syscallConn q b = (Returns (n, None), b', q')) /\
    (typ <> recordTypeAlert -> typ <> recordTypeApplicationData ->
     ktlsReadDataFromRecord syscallConn q b =
     (Returns (0, Some (ErrUnsupportedRecordType typ)), b', q')).
Proof.
  intros syscallConn q b typ n b' q' Hrec payload.
  unfold ktlsReadDataFromRecord. rewrite Hrec.
  split; [ | split ].
  - intros -> b1 Hb1. subst payload.
    apply nth_error_firstn_Some in Hb1. destruct Hb1 as [Hn Hb1].
    rewrite Z.eqb_refl.
    assert (E : (n <? 2) = false) by (apply Z.ltb_ge; lia).
    rewrite E. unfold index. rewrite Hb1.
    split.
    + intros Hc. rewrite Hc, Z.eqb_refl. reflexivity.
    + intros Hc. apply Z.eqb_neq in Hc. rewrite Hc.
      destruct b' as [ | b0 b' ]; [ discriminate | ].
      exists b0. split; [ | reflexivity ].
      destruct (Z.to_nat n) as [ | k ]; [ lia | reflexivity ].
  - intros ->. reflexivity.
  - intros Ha Hd. apply Z.eqb_neq in Ha, Hd. rewrite Ha, Hd. reflexivity.
Qed.

Lemma ktlsReadDataFromRecord_classification_witness :
  ktlsReadDataFromRecord None
    [RxBlock; RxRecord SOL_TLS TLS_GET_RECORD_TYPE x15 [x01; x00]]
    (zeros 16) =
  (Returns (0, Some ErrEOF), [x01; x00] ++ zeros 14, []) /\
  ktlsReadDataFromRecord None
    [RxRecord SOL_TLS TLS_GET_RECORD_TYPE x17 [x68; x69]] (zeros 4) =
  (Returns (2, None), [x68; x69; x00; x00], []).
Proof.
  split.
  - pose proof (ktlsReadDataFromRecord_classification None
                  [RxBlock; RxRecord SOL_TLS TLS_GET_RECORD_TYPE x15 [x01; x00]]
                  (zeros 16) recordTypeAlert 2 ([x01; x00] ++ zeros 14) []
                  eq_refl) as H.
    cbv zeta in H. destruct H as (Halert & _).
    destruct (Halert eq_refl x00 eq_refl) as (Hclose & _).
    apply Hclose. reflexivity.
  - pose proof (ktlsReadDataFromRecord_classification None
                  [RxRecord SOL_TLS TLS_GET_RECORD_TYPE x17 [x68; x69]]
                  (zeros 4) recordTypeApplicationData 2
                  [x68; x69; x00; x00] [] eq_refl) as H.
    cbv zeta in H. destruct H as (_ & Hdata & _).
    apply Hdata. reflexivity.
Defined.

(** C10.  When the tagged read yields an alert with fewer than 2 payload
    bytes, the read returns the "alert payload too short" error, whatever
    the buffer holds and however short it is: its second byte is not
    looked at.  The index expressions of the read never leave the
    buffer: the read returns whenever the tagged read returned, and an
    alert of 2 or more payload bytes comes with a buffer that has the two
    bytes the check and the error message read. *)
Theorem ktlsReadDataFromRecord_short_alert :
  forall (syscallConn : option Z) (q : list rx_event) (b : list byte)
         (typ n : Z) (err : option error) (b' : list byte)
         (q' : list rx_event),
    ktlsReadRecord syscallConn q b = (Returns (typ, n, err), b', q') ->
    (typ = recordTypeAlert -> err = None -> n < 2 ->
     ktlsReadDataFromRecord syscallConn q b =
     (Returns (0, Some ErrAlertTooShort), b', q')) /\
    (exists r, ktlsReadDataFromRecord syscallConn q b = (Returns r, b', q')) /\
    (typ = recordTypeAlert -> err = None -> 2 <= n ->
     exists b0 b1, nth_error b' 0 = Some b0 /\ nth_error b' 1 = Some b1).
Proof.
  intros syscallConn q b typ n err b' q' Hrec.
  assert (Hidx : err = None -> 2 <= n ->
                 exists b0 b1 rest, b' = b0 :: b1 :: rest).
  { intros -> Hn. apply ktlsReadRecord_payload_bounds in Hrec.
    destruct Hrec as [[_ Hle] _]. unfold len in Hle.
    destruct b' as [ | b0 [ | b1 rest ] ]; cbn in Hle; try lia.
    exists b0, b1, rest. reflexivity. }
  unfold ktlsReadDataFromRecord. rewrite Hrec.
  split; [ | split ].
  - intros -> -> Hn. rewrite Z.eqb_refl.
    apply Z.ltb_lt in Hn. rewrite Hn. reflexivity.
  - destruct err as [ e | ]; [ eexists; reflexivity | ].
    destruct (typ =? recordTypeAlert).
    + destruct (n <? 2) eqn:E; [ eexists; reflexivity | ].
      apply Z.ltb_ge in E.
      destruct (Hidx eq_refl E) as (b0 & b1 & rest & ->).
      cbn. destruct (Z_of_byte b1 =? alertCloseNotify);
        eexists; reflexivity.
    + destruct (typ =? recordTypeApplicationData); eexists; reflexivity.
  - intros _ He Hn. destruct (Hidx He Hn) as (b0 & b1 & rest & ->).
    exists b0, b1. split; reflexivity.
Qed.

Lemma ktlsReadDataFromRecord_short_alert_witness :
  ktlsReadDataFromRecord None
    [RxRecord SOL_TLS TLS_GET_RECORD_TYPE x15 [x02]] [x07] =
  (Returns (0, Some ErrAlertTooShort), [x02], []).
Proof.
  destruct (ktlsReadDataFromRecord_short_alert None
              [RxRecord SOL_TLS TLS_GET_RECORD_TYPE x15 [x02]] [x07]
              recordTypeAlert 1 None [x02] [] eq_refl) as (Hshort & _).
  apply Hshort; [ reflexivity | reflexivity | lia ].
Defined.

(** ** Mapped-buffer transfer *)

Lemma write_at_inbounds (data : list byte) (pos : nat) (bs : list byte) :
  (pos + length bs <= length data)%nat ->
  write_at data pos bs = firstn pos data ++ bs ++ skipn (pos + length bs) data.
Proof.
  intros H. unfold write_at.
  replace (pos - length data)%nat with 0%nat by lia. reflexivity.
Qed.

Lemma write_at_length (data : list byte) (pos : nat) (bs : list byte) :
  (pos + length bs <= length data)%nat ->
  length (write_at data pos bs) = length data.
Proof.
  intros H. rewrite write_at_inbounds by assumption.
  rewrite !length_app, length_firstn, length_skipn. lia.
Qed.

Lemma write_at_nil (data : list byte) (pos : nat) :
  (pos <= length data)%nat -> write_at data pos [] = data.
Proof.
  intros H. rewrite write_at_inbounds by (simpl; lia).
  simpl. rewrite Nat.add_0_r. apply firstn_skipn.
Qed.

Lemma write_at_app (data : list byte) (pos : nat) (a b : list byte) :
  write_at (write_at data pos a) (pos + length a) b =
  write_at data pos (a ++ b).
Proof.
  unfold write_at.
  set (X := firstn pos data ++ repeat x00 (pos - length data)).
  assert (HX : length X = pos).
  { subst X. rewrite length_app, length_firstn, repeat_length. lia. }
  replace (firstn pos data ++ repeat x00 (pos - length data) ++ a ++
           skipn (pos + length a) data)
    with ((X ++ a) ++ skipn (pos + length a) data)
    by (subst X; rewrite <- !app_assoc; reflexivity).
  assert (HXa : length (X ++ a) = (pos + length a)%nat)
    by (rewrite length_app; lia).
  rewrite firstn_app_exact by exact HXa.
  replace (pos + length a -
           length ((X ++ a) ++ skipn (pos + length a) data))%nat
    with 0%nat by (rewrite length_app; lia).
  replace (pos + length a + length b)%nat
    with (length (X ++ a) + length b)%nat by lia.
  rewrite skipn_app, (skipn_all2 (X ++ a)) by lia.
  replace (length (X ++ a) + length b - length (X ++ a))%nat
    with (length b) by lia.
  rewrite skipn_skipn. subst X.
  rewrite <- !app_assoc. cbn [app repeat].
  do 4 f_equal. f_equal. rewrite length_app. lia.
Qed.


Lemma truncate_length (data : list byte) (size : Z) :
  0 <= size -> len (truncate data size) = size.
Proof.
  intros H. unfold truncate, len.
  rewrite length_app, length_firstn, repeat_length. lia.
Qed.

Lemma extended_length (data : list byte) (size : Z) :
  0 <= size -> len (extended data size) = Z.max size (len data).
Proof.
  intros H. unfold extended.
  destruct (Z.gtb_spec size (len data)).
  - rewrite truncate_length by assumption. lia.
  - lia.
Qed.





(** A read may deliver the last outstanding bytes together with an
    error: the count returned then is [remain] itself. *)
Example writeToFile_last_read_with_error :
  writeToFile okFiles [([x61], Some ErrEOF)] emptyFile 1 =
  (Returns (1, Some ErrEOF, true), {| fdata := [x61]; fpos := 0 |}).
Proof. reflexivity. Qed.

(** ** Splice bridge *)

(** More fuel does not change a result. *)
Lemma bump_fuel_mono (fuel : nat) :
  forall l w r k, bump fuel l w = Some r -> bump (fuel + k) l w = Some r.
Proof.
  induction fuel as [ | fuel IH ]; intros l w r k H; [ discriminate | ].
  cbn [Nat.add bump] in *.
  destruct (spliceFile w (sl_n l)) as [[m err] w1].
  destruct err; [ exact H | ].
  cbn [sl_remain sl_written sl_err sl_n sl_m] in *.
  destruct (m <? sl_n l); [ apply IH; exact H | exact H ].
Qed.

Lemma readClosure_fuel_mono (env : SpliceEnv) (fuel : nat) :
  forall l w r k,
    readClosure fuel env l w = Some r ->
    readClosure (fuel + k) env l w = Some r.
Proof.
  induction fuel as [ | fuel IH ]; intros l w r k H; [ discriminate | ].
  cbn [Nat.add readClosure] in *.
  destruct (spliceSock w _) as [[n err] w1].
  destruct (is_EAGAIN err); [ exact H | ].
  destruct err; [ exact H | ].
  destruct (fscWriteErr env).
  - cbn [sl_err] in *. exact H.
  - destruct (bump fuel _ w1) as [[l2 w2] | ] eqn:Eb; [ | discriminate ].
    rewrite (bump_fuel_mono _ _ _ _ k Eb).
    destruct (sl_err l2) eqn:E2; cbn [sl_err sl_remain] in *;
      [ rewrite E2 in *; exact H | ].
    destruct (sl_remain l2 <=? 0); [ exact H | apply IH; exact H ].
Qed.

Lemma scRead_fuel_mono (env : SpliceEnv) (fuel : nat) :
  forall l w r k,
    scRead fuel env l w = Some r -> scRead (fuel + k) env l w = Some r.
Proof.
  induction fuel as [ | fuel IH ]; intros l w r k H; [ discriminate | ].
  cbn [Nat.add scRead] in *.
  assert (Hrc : forall x,
             readClosure (S fuel) env l w = Some x ->
             readClosure (S (fuel + k)) env l w = Some x).
  { intros x Hx. apply (readClosure_fuel_mono env (S fuel) l w x k Hx). }
  destruct (sock w) as [ | ev q ] eqn:Es.
  - destruct (readClosure (S fuel) env l w) as [[[done l1] w1] | ] eqn:Ec;
      [ | discriminate ].
    rewrite (Hrc _ eq_refl).
    destruct done; [ exact H | ].
    destruct (sock w1); [ exact H | apply IH; exact H ].
  - destruct ev; try exact H;
      (destruct (readClosure (S fuel) env l w) as [[[done l1] w1] | ] eqn:Ec;
       [ | discriminate ];
       rewrite (Hrc _ eq_refl);
       destruct done; [ exact H | ];
       destruct (sock w1); [ exact H | apply IH; exact H ]).
Qed.

Lemma spliceToFile_fuel_mono (env : SpliceEnv) (fuel : nat) :
  forall w remain r k,
    spliceToFile fuel env w remain = Some r ->
    spliceToFile (fuel + k) env w remain = Some r.
Proof.
  intros w remain r k H. unfold spliceToFile in *.
  destruct (connIsTCP env); cbn [negb] in *; [ | exact H ].
  destruct (scErr env), (fscErr env), (pipeErr env); try exact H.
  destruct (scRead fuel env _ w) as [ x | ] eqn:E; [ | discriminate ].
  rewrite (scRead_fuel_mono env fuel _ _ _ k E). exact H.
Qed.

(** One would-block answer of the socket-to-pipe splice: the -1 it
    returns is subtracted from [remain] and added to [written] before the
    error is looked at, so the closure suspends with [remain] one higher
    and [written] one lower than before. *)
Lemma readClosure_would_block (fuel : nat) (env : SpliceEnv)
    (l : splice_locals) (w : splice_world) (q : list sock_ev) :
  sock w = SockBlock :: q ->
  min_int64 <= sl_remain l < max_int64 ->
  min_int64 < sl_written l <= max_int64 ->
  readClosure (S fuel) env l w =
  Some (false,
        {| sl_remain := sl_remain l + 1; sl_written := sl_written l - 1;
           sl_err := None; sl_n := -1; sl_m := sl_m l |},
        {| sock := q; pipe := pipe w; fileq := fileq w; dst := dst w |}).
Proof.
  intros Hs Hr Hw. cbn [readClosure]. unfold spliceSock. rewrite Hs.
  cbn [is_EAGAIN sl_remain sl_written sl_err sl_n sl_m].
  rewrite sub64_small, add64_small by lia.
  replace (sl_remain l - -1) with (sl_remain l + 1) by lia.
  replace (sl_written l + -1) with (sl_written l - 1) by lia.
  reflexivity.
Qed.

(** The pipe-to-file closure drains the chunk it is given: with the [n]
    bytes of the chunk in the pipe and a destination that never fails,
    however short its splices, the closure ends with the pipe empty and
    the whole chunk written at the file offset, in order and once. *)
Lemma bump_drains_chunk (fq : list file_ev) :
  Forall (fun ev => exists k, ev = FileShort k) fq ->
  forall (l : splice_locals) (w : splice_world),
    fileq w = fq ->
    sl_n l = len (pipe w) ->
    0 <= fpos (dst w) ->
    (Z.to_nat (fpos (dst w)) <= length (fdata (dst w)))%nat ->
    len (pipe w) <= max_int64 ->
    exists l' w',
      bump (S (length fq)) l w = Some (l', w') /\
      sl_err l' = None /\
      sl_remain l' = sl_remain l /\ sl_written l' = sl_written l /\
      pipe w' = [] /\ sock w' = sock w /\
      fdata (dst w') =
      write_at (fdata (dst w)) (Z.to_nat (fpos (dst w))) (pipe w) /\
      fpos (dst w') = fpos (dst w) + len (pipe w) /\
      Forall (fun ev => exists k, ev = FileShort k) (fileq w').
Proof.
  assert (Hmi : max_int64 = 9223372036854775807) by reflexivity.
  assert (Hmn : min_int64 = -9223372036854775808) by reflexivity.
  (* the last splice of a chunk: everything left in the pipe is moved *)
  assert (Hlast : forall fuel (l : splice_locals) (w : splice_world) bound q,
             spliceFile w (sl_n l) =
             (let k := Nat.min bound (splice_len (sl_n l) (length (pipe w))) in
              match pipe w with
              | [] => ((0, None),
                       {| sock := sock w; pipe := pipe w; fileq := q;
                          dst := dst w |})
              | _ :: _ =>
                ((len (firstn k (pipe w)), None),
                 {| sock := sock w; pipe := skipn k (pipe w); fileq := q;
                    dst := {| fdata := write_at (fdata (dst w))
                                         (Z.to_nat (fpos (dst w)))
                                         (firstn k (pipe w));
                              fpos := fpos (dst w) +
                                      len (firstn k (pipe w)) |} |})
              end) ->
             sl_n l = len (pipe w) ->
             (length (pipe w) <= bound)%nat ->
             (Z.to_nat (fpos (dst w)) <= length (fdata (dst w)))%nat ->
             Forall (fun ev => exists k, ev = FileShort k) q ->
             exists l' w',
               bump (S fuel) l w = Some (l', w') /\
               sl_err l' = None /\
               sl_remain l' = sl_remain l /\ sl_written l' = sl_written l /\
               pipe w' = [] /\ sock w' = sock w /\
               fdata (dst w') =
               write_at (fdata (dst w)) (Z.to_nat (fpos (dst w))) (pipe w) /\
               fpos (dst w') = fpos (dst w) + len (pipe w) /\
               Forall (fun ev => exists k, ev = FileShort k) (fileq w')).
  { intros fuel l w bound q Hsf Hn Hbound Hpos HFq.
    cbn [bump]. rewrite Hsf. cbv zeta.
    destruct (pipe w) as [ | p0 ps ] eqn:Hp.
    - cbn [sl_remain sl_written sl_err sl_n sl_m].
      rewrite Hn. cbn.
      do 2 eexists. split; [ reflexivity | ]. cbn.
      rewrite write_at_nil by exact Hpos.
      repeat split; try lia; exact HFq.
    - rewrite <- Hp in *.
      assert (Hk : Nat.min bound (splice_len (sl_n l) (length (pipe w)))
                   = length (pipe w)).
      { unfold splice_len. rewrite Hn.
        assert (E : (len (pipe w) <? 0) = false)
          by (apply Z.ltb_ge; apply len_nonneg).
        rewrite E. unfold len. lia. }
      rewrite Hk, firstn_all, skipn_all.
      cbn [sl_remain sl_written sl_err sl_n sl_m].
      rewrite Hn, Z.ltb_irrefl.
      do 2 eexists. split; [ reflexivity | ]. cbn.
      repeat split; exact HFq. }
  intros Hfq. induction Hfq as [ | ev fq (k0 & ->) Hfq IH ];
    intros l w Hq Hn Hpos0 Hpos Hmax.
  - apply (Hlast 0%nat l w (length (pipe w)) []); auto.
    unfold spliceFile. rewrite Hq. cbn [tl].
    destruct (pipe w) eqn:Hp; [ | reflexivity ].
    rewrite Hn. reflexivity.
  - destruct (Nat.le_gt_cases (length (pipe w)) k0) as [Hle | Hgt].
    + apply (Hlast _ l w k0 fq); auto.
      unfold spliceFile. rewrite Hq. cbn [tl].
      destruct (pipe w) eqn:Hp; [ | reflexivity ].
      rewrite Hn. reflexivity.
    + (* a short splice: [k0] bytes move, the rest is asked for again *)
      destruct (pipe w) as [ | p0 ps ] eqn:Hp; [ cbn in Hgt; lia | ].
      rewrite <- Hp in *.
      assert (Hk : Nat.min k0 (splice_len (sl_n l) (length (pipe w))) = k0).
      { unfold splice_len. rewrite Hn.
        assert (E : (len (pipe w) <? 0) = false)
          by (apply Z.ltb_ge; apply len_nonneg).
        rewrite E. unfold len. lia. }
      assert (Hmoved : length (firstn k0 (pipe w)) = k0)
        by (rewrite length_firstn; lia).
      cbn [length bump]. unfold spliceFile. rewrite Hq, Hp.
      rewrite <- Hp. cbn [tl]. rewrite Hk.
      cbn [sl_remain sl_written sl_err sl_n sl_m].
      assert (Elt : (len (firstn k0 (pipe w)) <? sl_n l) = true).
      { apply Z.ltb_lt. rewrite Hn. unfold len. lia. }
      rewrite Elt.
      set (l1 := {| sl_remain := sl_remain l; sl_written := sl_written l;
                    sl_err := None;
                    sl_n := sub64 (sl_n l) (len (firstn k0 (pipe w)));
                    sl_m := len (firstn k0 (pipe w)) |}).
      set (w1 := {| sock := sock w; pipe := skipn k0 (pipe w); fileq := fq;
                    dst := {| fdata := write_at (fdata (dst w))
                                         (Z.to_nat (fpos (dst w)))
                                         (firstn k0 (pipe w));
                              fpos := fpos (dst w) +
                                      len (firstn k0 (pipe w)) |} |}).
      assert (Hlen1 : len (skipn k0 (pipe w)) = len (pipe w) - Z.of_nat k0).
      { unfold len. rewrite length_skipn. lia. }
      destruct (IH l1 w1) as (l' & w' & Hb & He & Hr & Hw & Hpipe & Hsock &
                              Hdata & Hfpos & HFq').
      * reflexivity.
      * subst l1 w1. cbn [sl_n pipe]. rewrite Hn.
        rewrite sub64_small; unfold len in *; rewrite ?Hmoved; lia.
      * subst w1. cbn [dst fpos]. unfold len. lia.
      * subst w1. cbn [dst fpos fdata]. unfold write_at.
        rewrite !length_app, length_firstn, repeat_length, Hmoved.
        unfold len. rewrite Hmoved. lia.
      * subst w1. cbn [pipe]. rewrite Hlen1. lia.
      * exists l', w'. split; [ exact Hb | ].
        subst l1 w1. cbn [sl_remain sl_written pipe sock dst fdata fpos] in *.
        repeat split; auto.
        -- rewrite Hdata.
           replace (Z.to_nat (fpos (dst w) + len (firstn k0 (pipe w))))
             with (Z.to_nat (fpos (dst w)) + length (firstn k0 (pipe w)))%nat
             by (unfold len; lia).
           rewrite write_at_app, firstn_skipn. reflexivity.
        -- rewrite Hfpos, Hlen1. unfold len. rewrite Hmoved. lia.
Qed.

(** C6 (the code departs from the claim).  A stream of one byte, moved
    with [remain = 1].  Delivered at once, the call returns
    (1, nil, true) and the file holds the byte.  Delivered after one
    would-block answer, the byte reaches the file, but the call does not
    return: it has counted the two -1 of the would-block answers, holds
    [written = -1] and [remain = 2], and waits for more.  If a deadline
    then ends the wait it returns the count -1 with the byte in the file;
    if the socket has a further byte, one that follows the stream, it
    moves that byte to the file too and then returns the count 1. *)
Theorem spliceToFile_would_block_miscounts :
  forall fuel : nat,
    spliceToFile (4 + fuel) okSplice (freshWorld [SockData [x61]] []) 1 =
    Some (Returns (1, None, true),
          {| sl_remain := 0; sl_written := 1; sl_err := None; sl_n := 1;
             sl_m := 1 |},
          {| sock := []; pipe := []; fileq := [];
             dst := {| fdata := [x61]; fpos := 1 |} |}) /\
    spliceToFile (4 + fuel) okSplice
      (freshWorld [SockBlock; SockData [x61]] []) 1 =
    Some (Parks,
          {| sl_remain := 2; sl_written := -1; sl_err := None; sl_n := -1;
             sl_m := 1 |},
          {| sock := []; pipe := []; fileq := [];
             dst := {| fdata := [x61]; fpos := 1 |} |}) /\
    spliceToFile (4 + fuel) okSplice
      (freshWorld [SockBlock; SockData [x61]; SockNetErr 1] []) 1 =
    Some (Returns (-1, Some (ErrNet 1), true),
          {| sl_remain := 2; sl_written := -1; sl_err := None; sl_n := -1;
             sl_m := 1 |},
          {| sock := []; pipe := []; fileq := [];
             dst := {| fdata := [x61]; fpos := 1 |} |}) /\
    spliceToFile (4 + fuel) okSplice
      (freshWorld [SockBlock; SockData [x61]; SockData [x62]] []) 1 =
    Some (Returns (1, None, true),
          {| sl_remain := 0; sl_written := 1; sl_err := None; sl_n := 1;
             sl_m := 1 |},
          {| sock := []; pipe := []; fileq := [];
             dst := {| fdata := [x61; x62]; fpos := 2 |} |}).
Proof.
  intros fuel.
  repeat split; apply spliceToFile_fuel_mono; reflexivity.
Qed.

Lemma spliceSock_data (w : splice_world) (n : Z) (c : list byte)
    (q : list sock_ev) :
  sock w = SockData c :: q -> 0 <= n ->
  spliceSock w n =
  ((len (firstn (Z.to_nat n) c), None),
   {| sock := match skipn (Z.to_nat n) c with
              | [] => q
              | _ :: _ => SockData (skipn (Z.to_nat n) c) :: q
              end;
      pipe := pipe w ++ firstn (Z.to_nat n) c;
      fileq := fileq w; dst := dst w |}).
Proof.
  intros Hs Hn. unfold spliceSock, splice_len. rewrite Hs.
  assert (E : (n <? 0) = false) by (apply Z.ltb_ge; exact Hn).
  rewrite E. reflexivity.
Qed.

Lemma concat_nonempty_nil (chunks : list (list byte)) :
  Forall (fun c => c <> []) chunks -> concat chunks = [] -> chunks = [].
Proof.
  intros H Hc. destruct H as [ | c cs Hne _ ]; [ reflexivity | ].
  cbn in Hc. apply app_eq_nil in Hc. destruct Hc as [Hc _]. contradiction.
Qed.

(** Without would-block answers the closure moves the whole stream:
    whatever the chunks in which the socket delivers it (none of them
    empty, [remain] bytes in all) and however short the splices into the
    file, the closure completes with [written] raised by [remain],
    [remain] at 0, and the stream written at the file offset. *)
Lemma readClosure_uninterrupted (env : SpliceEnv) :
  fscWriteErr env = None ->
  forall (k : nat) (chunks : list (list byte)) (l : splice_locals)
         (w : splice_world),
    (length (concat chunks) <= k)%nat ->
    sock w = map SockData chunks ->
    Forall (fun c => c <> []) chunks ->
    pipe w = [] ->
    Forall (fun ev => exists j, ev = FileShort j) (fileq w) ->
    sl_remain l = len (concat chunks) ->
    0 < sl_remain l ->
    0 <= sl_written l ->
    sl_written l + sl_remain l <= max_int64 ->
    0 <= fpos (dst w) ->
    (Z.to_nat (fpos (dst w)) <= length (fdata (dst w)))%nat ->
    exists fuel l' w',
      readClosure fuel env l w = Some (true, l', w') /\
      sl_err l' = None /\
      sl_written l' = sl_written l + sl_remain l /\
      sl_remain l' = 0 /\
      pipe w' = [] /\ sock w' = [] /\
      fdata (dst w') =
      write_at (fdata (dst w)) (Z.to_nat (fpos (dst w))) (concat chunks) /\
      fpos (dst w') = fpos (dst w) + len (concat chunks).
Proof.
  intros Hwe.
  assert (Hmi : max_int64 = 9223372036854775807) by reflexivity.
  assert (Hmn : min_int64 = -9223372036854775808) by reflexivity.
  assert (Hms : maxSpliceSize = 4194304) by reflexivity.
  induction k as [ | k IH ];
    intros chunks l w Hk Hsock Hne Hpipe Hfq Hrem Hpos Hwr Hmax Hfpos Hfin.
  { unfold len in Hrem. lia. }
  destruct chunks as [ | c cs ]; [ cbn in Hrem; lia | ].
  inversion Hne as [ | c' cs' Hc Hcs ]; subst c' cs'.
  cbn [map concat] in *.
  set (n0 := if maxSpliceSize >? sl_remain l then sl_remain l
             else maxSpliceSize).
  assert (Hn0 : 1 <= n0 <= sl_remain l).
  { subst n0. destruct (Z.gtb_spec maxSpliceSize (sl_remain l)); lia. }
  set (moved := firstn (Z.to_nat n0) c).
  set (rest := skipn (Z.to_nat n0) c).
  assert (Hsplit : c = moved ++ rest)
    by (subst moved rest; symmetry; apply firstn_skipn).
  assert (Hmoved : 1 <= len moved <= n0).
  { subst moved. unfold len. rewrite length_firstn.
    destruct c; [ contradiction | cbn [length]; lia ]. }
  set (chunks' := match rest with [] => cs | _ :: _ => rest :: cs end).
  assert (Hconcat : concat chunks' = rest ++ concat cs).
  { subst chunks'. destruct rest; reflexivity. }
  assert (Hne' : Forall (fun c => c <> []) chunks').
  { subst chunks'. destruct rest eqn:Er; [ exact Hcs | ].
    constructor; [ discriminate | exact Hcs ]. }
  assert (Hall : c ++ concat cs = moved ++ concat chunks').
  { rewrite Hconcat, app_assoc. f_equal. exact Hsplit. }
  assert (Hlen : len (c ++ concat cs) = len moved + len (concat chunks')).
  { rewrite Hall, len_app. reflexivity. }
  set (w1 := {| sock := map SockData chunks'; pipe := moved;
                fileq := fileq w; dst := dst w |}).
  assert (Hss : spliceSock w n0 = ((len moved, None), w1)).
  { rewrite (spliceSock_data w n0 c (map SockData cs)) by (auto; lia).
    subst w1 moved chunks'. fold rest. rewrite Hpipe.
    destruct rest; reflexivity. }
  set (l1 := {| sl_remain := sl_remain l - len moved;
                sl_written := sl_written l + len moved;
                sl_err := None; sl_n := len moved; sl_m := sl_m l |}).
  destruct (bump_drains_chunk (fileq w) Hfq l1 w1)
    as (l2 & w2 & Hb & He2 & Hr2 & Hw2 & Hp2 & Hs2 & Hd2 & Hf2 & Hq2);
    try reflexivity; try assumption.
  { subst w1. cbn [pipe]. lia. }
  subst w1 l1. cbn [sl_remain sl_written pipe sock dst fileq] in *.
  (* what one turn of the loop computes, for any fuel that lets the
     pipe-to-file closure finish *)
  assert (Hturn : forall f,
             readClosure (S (S (length (fileq w)) + f)) env l w =
             if sl_remain l2 <=? 0
             then Some (true,
                        {| sl_remain := sl_remain l2;
                           sl_written := sl_written l2; sl_err := None;
                           sl_n := sl_n l2; sl_m := sl_m l2 |}, w2)
             else readClosure (S (length (fileq w)) + f) env
                    {| sl_remain := sl_remain l2;
                       sl_written := sl_written l2; sl_err := None;
                       sl_n := sl_n l2; sl_m := sl_m l2 |} w2).
  { intros f. cbn [readClosure]. fold n0. rewrite Hss.
    cbn [is_EAGAIN]. rewrite Hwe.
    rewrite sub64_small, add64_small by lia.
    rewrite (bump_fuel_mono _ _ _ _ f Hb).
    rewrite He2. cbn [sl_err sl_remain]. reflexivity. }
  destruct (Z.leb_spec (sl_remain l2) 0) as [Hdone | Hmore].
  - (* the stream is exhausted *)
    assert (Hnil : concat chunks' = []).
    { apply length_zero_iff_nil. unfold len in *. lia. }
    assert (Hc' : chunks' = []) by (apply concat_nonempty_nil; assumption).
    exists (S (S (length (fileq w)) + 0)). do 2 eexists.
    split; [ rewrite Hturn; reflexivity | ].
    cbn [sl_err sl_written sl_remain].
    rewrite Hs2, Hd2, Hf2, Hc'.
    rewrite Hall, Hnil, app_nil_r.
    repeat split; try assumption; try reflexivity; unfold len in *; lia.
  - destruct (IH chunks'
                {| sl_remain := sl_remain l2; sl_written := sl_written l2;
                   sl_err := None; sl_n := sl_n l2; sl_m := sl_m l2 |} w2)
      as (fuel' & l' & w' & Hrc & He' & Hw' & Hr' & Hp' & Hs' & Hd' & Hf');
      cbn [sl_remain sl_written]; try assumption; try lia.
    + unfold len in *. lia.
    + unfold len in *. rewrite Hf2.
      rewrite Hd2. unfold write_at.
      rewrite !length_app, length_firstn, repeat_length. lia.
    + exists (S (S (length (fileq w)) + fuel')), l', w'.
      split.
      { rewrite Hturn. rewrite Nat.add_comm.
        apply readClosure_fuel_mono. exact Hrc. }
      cbn [sl_remain sl_written] in *.
      rewrite Hd', Hf', Hd2, Hf2.
      replace (Z.to_nat (fpos (dst w) + len moved))
        with (Z.to_nat (fpos (dst w)) + length moved)%nat
        by (unfold len; lia).
      rewrite write_at_app.
      rewrite <- Hall.
      repeat split; try assumption; lia.
Qed.

(** X18.  A transfer that meets no would-block answer is not affected by
    the chunk boundaries: the stream of [N > 0] bytes, delivered in any
    non-empty chunks and moved with [remain = N], ends up in the file at
    its offset, and the call returns (N, nil, true). *)
Theorem spliceToFile_uninterrupted (env : SpliceEnv)
    (chunks : list (list byte)) (fq : list file_ev) (f : File) :
  connIsTCP env = true -> scErr env = None -> fscErr env = None ->
  pipeErr env = None -> fscWriteErr env = None ->
  Forall (fun c => c <> []) chunks ->
  Forall (fun ev => exists j, ev = FileShort j) fq ->
  0 < len (concat chunks) <= max_int64 ->
  0 <= fpos f ->
  (Z.to_nat (fpos f) <= length (fdata f))%nat ->
  exists fuel l' w',
    spliceToFile fuel env
      {| sock := map SockData chunks; pipe := []; fileq := fq; dst := f |}
      (len (concat chunks)) =
    Some (Returns (len (concat chunks), None, true), l', w') /\
    sock w' = [] /\
    fdata (dst w') =
    write_at (fdata f) (Z.to_nat (fpos f)) (concat chunks) /\
    fpos (dst w') = fpos f + len (concat chunks).
Proof.
  intros Htcp Hsc Hfsc Hpipe Hwe Hne Hfq Hlen Hpos Hfin.
  set (w := {| sock := map SockData chunks; pipe := []; fileq := fq;
               dst := f |}).
  set (l0 := {| sl_remain := len (concat chunks); sl_written := 0;
                sl_err := None; sl_n := maxSpliceSize; sl_m := 0 |}).
  destruct (readClosure_uninterrupted env Hwe (length (concat chunks))
              chunks l0 w)
    as (fuel & l' & w' & Hrc & He & Hw & Hr & Hp & Hs & Hd & Hf);
    subst w l0; cbn [sl_remain sl_written sock pipe fileq dst];
    try assumption; try reflexivity; try lia.
  exists (S fuel), l'. eexists.
  unfold spliceToFile. rewrite Htcp, Hsc, Hfsc, Hpipe. cbn [negb].
  assert (Hrc' : readClosure (S fuel) env
                   {| sl_remain := len (concat chunks); sl_written := 0;
                      sl_err := None; sl_n := maxSpliceSize; sl_m := 0 |}
                   {| sock := map SockData chunks; pipe := []; fileq := fq;
                      dst := f |} = Some (true, l', w')).
  { replace (S fuel) with (fuel + 1)%nat by lia.
    apply readClosure_fuel_mono. exact Hrc. }
  cbn [scRead sock].
  destruct chunks as [ | c cs ]; [ cbn in Hlen; lia | ].
  cbn [map]. cbn [map] in Hrc'. rewrite Hrc'.
  rewrite He. cbn [sl_written sl_remain] in Hw. rewrite Hw.
  split; [ reflexivity | ].
  cbn [dst sock fdata fpos].
  split; [ exact Hs | ]. split; [ exact Hd | exact Hf ].
Qed.

(** * Further properties of the code *)

Ltac unfold_sizes :=
  unfold kTLS_CIPHER_AES_GCM_128_IV_SIZE, kTLS_CIPHER_AES_GCM_128_KEY_SIZE,
    kTLS_CIPHER_AES_GCM_128_SALT_SIZE, kTLS_CIPHER_AES_GCM_128_REC_SEQ_SIZE,
    kTLS_CIPHER_AES_GCM_256_IV_SIZE, kTLS_CIPHER_AES_GCM_256_KEY_SIZE,
    kTLS_CIPHER_AES_GCM_256_SALT_SIZE, kTLS_CIPHER_AES_GCM_256_REC_SEQ_SIZE,
    kTLS_CIPHER_CHACHA20_POLY1305_IV_SIZE,
    kTLS_CIPHER_CHACHA20_POLY1305_KEY_SIZE,
    kTLS_CIPHER_CHACHA20_POLY1305_SALT_SIZE,
    kTLS_CIPHER_CHACHA20_POLY1305_REC_SEQ_SIZE in *.

(** ** The wire blob, field by field *)

Lemma go_copy_zero_array (n : Z) (src : list byte) :
  len src = n -> go_copy (zero_array n) src = src.
Proof.
  intros H. apply go_copy_exact. rewrite zero_array_length.
  unfold len in H. lia.
Qed.

(** X1.  For inputs of the lengths an encoder accepts, the blob handed to
    the kernel is, in this order and with nothing in between: the version
    tag and the cipher-type tag (two bytes each, low byte first), the IV
    field, the key, the salt and the record sequence number.  The salt is
    the first SALT_SIZE bytes of the IV passed in.  The IV field is the
    rest of that IV when there is a rest (every version but 1.2, and
    ChaCha20-Poly1305 at every version), and IV_SIZE zero bytes for the
    AES families at version 1.2. *)
Theorem wireBlob_layout :
  forall (f : family) (ver : Z) (key_ iv_ seq : list byte),
    len key_ = KEY_SIZE f ->
    len iv_ = requiredIVLen f ver ->
    len seq = REC_SEQ_SIZE f ->
    wireBlob f ver key_ iv_ seq =
    le16 ver ++ le16 (cipherTypeOf f) ++
    (if len iv_ =? SALT_SIZE f + IV_SIZE f
     then skipn (Z.to_nat (SALT_SIZE f)) iv_
     else zeros (Z.to_nat (IV_SIZE f))) ++
    key_ ++ firstn (Z.to_nat (SALT_SIZE f)) iv_ ++ seq.
Proof.
  intros f ver key_ iv_ seq Hkey Hiv Hseq.
  rewrite wireBlob_fields. unfold fields_bytes.
  destruct f; cbn [KEY_SIZE IV_SIZE SALT_SIZE REC_SEQ_SIZE requiredIVLen
                   cipherTypeOf] in *;
    [ unfold cryptoInfoAES128GCM | unfold cryptoInfoAES256GCM
    | unfold cryptoInfoCHACHA20POLY1305 ];
    unfold new_cryptoInfo, set_key, set_salt, set_iv, set_recSeq;
    cbn [info version cipherType iv key salt recSeq];
    rewrite (go_copy_zero_array _ key_ Hkey),
      (go_copy_zero_array _ seq Hseq);
    do 2 f_equal;
    [ destruct (ver =? VersionTLS12) | destruct (ver =? VersionTLS12) | ];
    rewrite Hiv; unfold_sizes; cbn [Z.eqb Pos.eqb Z.add Pos.add];
    unfold len in Hiv.
  - (* AES-128 at 1.2 *)
    rewrite skipn_all2 by lia.
    f_equal. f_equal. f_equal.
    apply go_copy_zero_array. unfold len. rewrite length_firstn. lia.
  - (* AES-128 otherwise *)
    f_equal; [ | f_equal; f_equal ]; apply go_copy_zero_array; unfold len;
      rewrite ?length_skipn, ?length_firstn; lia.
  - rewrite skipn_all2 by lia.
    f_equal. f_equal. f_equal.
    apply go_copy_zero_array. unfold len. rewrite length_firstn. lia.
  - f_equal; [ | f_equal; f_equal ]; apply go_copy_zero_array; unfold len;
      rewrite ?length_skipn, ?length_firstn; lia.
  - (* ChaCha20-Poly1305 *)
    rewrite go_copy_zero_array by (unfold len; lia). reflexivity.
Qed.

Lemma wireBlob_layout_witness :
  wireBlob AES_GCM_128 VersionTLS13 (zeros 16)
    ([x01; x02; x03; x04] ++ repeat x09 8) (repeat x07 8) =
  [x04; x03; x33; x00] ++ repeat x09 8 ++ zeros 16 ++ [x01; x02; x03; x04] ++
  repeat x07 8.
Proof.
  exact (wireBlob_layout AES_GCM_128 VersionTLS13 (zeros 16)
           ([x01; x02; x03; x04] ++ repeat x09 8) (repeat x07 8)
           eq_refl eq_refl eq_refl).
Defined.

(** ** What the encoders do to the socket *)

(** The three encoders, case by case, on a goal that mentions
    [enable f ...]: the lengths are checked, then the connection is asked
    for its descriptor, then the closure runs. *)
Ltac encoder_cases f ver :=
  pose proof Sizeof_closedForm as (?S1 & ?S2 & ?S3);
  destruct f; cbn [enable KEY_SIZE IV_SIZE SALT_SIZE REC_SEQ_SIZE
                   requiredIVLen wireBlob];
  [ unfold ktlsEnableAES128GCM; rewrite ?S1
  | unfold ktlsEnableAES256GCM; rewrite ?S2
  | unfold ktlsEnableCHACHA20POLY1305; rewrite ?S3 ];
  rewrite ?Z.eqb_refl; cbn [negb];
  try destruct (ver =? VersionTLS12);
  repeat match goal with
         | |- context [negb (len ?a =? ?b)] =>
           destruct (Z.eqb_spec (len a) b); cbn [negb]
         | |- context [match syscallConnErr ?c with _ => _ end] =>
           destruct (syscallConnErr c)
         | |- context [match controlErr ?c with _ => _ end] =>
           destruct (controlErr c)
         | |- context [negb ?s] => is_var s; destruct s; cbn [negb]
         end;
  unfold setsockopt, ulpBind, cipherConfig; cbn [fst snd];
  repeat match goal with
         | |- context [kernel ?c ?l ?x] =>
           let E := fresh "E" in
           destruct (kernel c l x) eqn:E; cbn [option_map fst snd]
         end.

(** X2.  An encoder returns nil only when the kernel accepted the cipher
    configuration: the lengths were the required ones, the last system
    call is the cipher setsockopt with the blob of these inputs, the
    kernel answered it with success, and the only call made before it is
    the ULP bind, made when [skip] is false. *)
Theorem enable_nil_means_configured :
  forall (f : family) (c : TCPConn) (ver opt : Z) (skip : bool)
         (key_ iv_ seq : list byte) (log log' : syslog),
    enable f c ver opt skip key_ iv_ seq log = (None, log') ->
    len key_ = KEY_SIZE f /\ len iv_ = requiredIVLen f ver /\
    len seq = REC_SEQ_SIZE f /\
    let mid := if skip then log else log ++ [ulpBind] in
    let call := cipherConfig opt (wireBlob f ver key_ iv_ seq) in
    log' = mid ++ [call] /\ kernel c mid call = None.
Proof.
  intros f c ver opt skip key_ iv_ seq log log'. cbv zeta.
  encoder_cases f ver; intros H; try discriminate;
    inversion H; subst;
    repeat split; try assumption; try reflexivity.
Qed.

Lemma enable_nil_means_configured_witness :
  len (zeros 32) = KEY_SIZE CHACHA20_POLY1305 /\
  len (zeros 12) = requiredIVLen CHACHA20_POLY1305 VersionTLS13 /\
  len (zeros 8) = REC_SEQ_SIZE CHACHA20_POLY1305 /\
  [ulpBind;
   cipherConfig TLS_TX
     (wireBlob CHACHA20_POLY1305 VersionTLS13 (zeros 32) (zeros 12)
        (zeros 8))] =
  ([] ++ [ulpBind]) ++
  [cipherConfig TLS_TX
     (wireBlob CHACHA20_POLY1305 VersionTLS13 (zeros 32) (zeros 12)
        (zeros 8))] /\
  kernel acceptingSocket ([] ++ [ulpBind])
    (cipherConfig TLS_TX
       (wireBlob CHACHA20_POLY1305 VersionTLS13 (zeros 32) (zeros 12)
          (zeros 8))) = None.
Proof.
  exact (enable_nil_means_configured CHACHA20_POLY1305 acceptingSocket
           VersionTLS13 TLS_TX false (zeros 32) (zeros 12) (zeros 8) [] _
           eq_refl).
Defined.

(** The same cases on a goal that mentions the log an encoder leaves,
    [skip] being known. *)
Ltac encoder_log_cases f ver :=
  unfold cipherConfig, ulpBind;
  pose proof Sizeof_closedForm as (?S1 & ?S2 & ?S3);
  destruct f; cbn [enable wireBlob];
  [ unfold ktlsEnableAES128GCM; rewrite ?S1
  | unfold ktlsEnableAES256GCM; rewrite ?S2
  | unfold ktlsEnableCHACHA20POLY1305; rewrite ?S3 ];
  rewrite ?Z.eqb_refl; cbn [negb];
  try destruct (ver =? VersionTLS12);
  repeat match goal with
         | |- context [negb (len ?a =? ?b)] =>
           destruct (len a =? b); cbn [negb]
         | |- context [match syscallConnErr ?c with _ => _ end] =>
           destruct (syscallConnErr c)
         | |- context [match controlErr ?c with _ => _ end] =>
           destruct (controlErr c)
         end;
  unfold setsockopt; cbn [fst snd];
  repeat match goal with
         | |- context [kernel ?c ?l ?x] =>
           destruct (kernel c l x); cbn [option_map fst snd]
         end;
  rewrite <- ?app_assoc; cbn [app].

(** X3.  The system calls of one encoder call, whatever its inputs and
    whatever the socket answers: with [skip] set, nothing or the cipher
    configuration alone; with [skip] clear, nothing, or the ULP bind
    alone, or the ULP bind followed by the cipher configuration.  The
    cipher configuration is never issued before the bind, never twice,
    and never without the bind unless the caller asked to skip it. *)
Theorem enable_footprint :
  forall (f : family) (c : TCPConn) (ver opt : Z) (skip : bool)
         (key_ iv_ seq : list byte) (log : syslog),
    let call := cipherConfig opt (wireBlob f ver key_ iv_ seq) in
    let log' := snd (enable f c ver opt skip key_ iv_ seq log) in
    (skip = true /\ (log' = log \/ log' = log ++ [call])) \/
    (skip = false /\
     (log' = log \/ log' = log ++ [ulpBind] \/
      log' = log ++ [ulpBind; call])).
Proof.
  intros f c ver opt skip key_ iv_ seq log. cbv zeta.
  destruct skip; [ left | right ]; (split; [ reflexivity | ]);
    encoder_log_cases f ver; auto.
Qed.

(** ** Offload activation: what it changes *)

(** Case analysis on the innermost scrutinee of the goal, flags first. *)
Ltac break_flags :=
  repeat match goal with
         | |- context [negb (?p ?caps)] =>
           is_var caps; destruct (p caps) eqn:?; cbn [negb orb andb]
         end.

Ltac break_match :=
  repeat match goal with
         | |- context [match ?x with _ => _ end] =>
           lazymatch x with
           | context [match _ with _ => _ end] => fail
           | _ => destruct x eqn:?
           end
         end.

(** X4.  An activation replaces a cipher only by the kernel placeholder,
    and only under the capabilities that gate it: the transmit cipher
    only when offload and TX are supported and the transport is a TCP
    connection; the receive cipher only when, in addition, RX is
    supported and the activation returns nil.  An activation that returns
    an error has not replaced the receive cipher. *)
Theorem enableKernelTLS_ciphers :
  forall (caps : Caps) (c : Conn) (cipherSuiteID : Z)
         (inKey outKey inIV outIV : list byte) (st st' : offload)
         (err : option error),
    enableKernelTLS caps c cipherSuiteID inKey outKey inIV outIV st =
    (err, st') ->
    (clientCipher st' = clientCipher st \/
     (clientCipher st' = kTLSCipher /\ kTLSSupport caps = true /\
      kTLSSupportTX caps = true /\ exists t, conn c = IsTCPConn t)) /\
    (serverCipher st' = serverCipher st \/
     (serverCipher st' = kTLSCipher /\ err = None /\
      kTLSSupport caps = true /\ kTLSSupportTX caps = true /\
      kTLSSupportRX caps = true /\ exists t, conn c = IsTCPConn t)).
Proof.
  intros caps c cipherSuiteID inKey outKey inIV outIV st st' err.
  unfold enableKernelTLS, ktlsEnableAES, ktlsEnableCHACHA20, enableTX,
    enableRX.
  break_flags; break_match; intros H; inversion H; subst;
    cbn [clientCipher serverCipher with_sys with_clientCipher
         with_serverCipher];
    split; eauto 10.
Qed.

Lemma enableKernelTLS_ciphers_witness :
  (clientCipher (snd sampleActivation) = clientCipher freshOffload \/
   (clientCipher (snd sampleActivation) = kTLSCipher /\
    kTLSSupport (probe 6 8) = true /\ kTLSSupportTX (probe 6 8) = true /\
    exists t, conn sampleConn = IsTCPConn t)) /\
  (serverCipher (snd sampleActivation) = serverCipher freshOffload \/
   (serverCipher (snd sampleActivation) = kTLSCipher /\
    fst sampleActivation = None /\
    kTLSSupport (probe 6 8) = true /\ kTLSSupportTX (probe 6 8) = true /\
    kTLSSupportRX (probe 6 8) = true /\
    exists t, conn sampleConn = IsTCPConn t)).
Proof.
  exact (enableKernelTLS_ciphers (probe 6 8) sampleConn
           TLS_AES_128_GCM_SHA256 (zeros 16) (zeros 16) (zeros 12) (zeros 12)
           freshOffload (snd sampleActivation) (fst sampleActivation)
           (surjective_pairing sampleActivation)).
Defined.

(** X5.  On a transport that is not a TCP connection an activation does
    nothing, whatever the capabilities, the suite and the keys: it returns
    nil, issues no system call and replaces no cipher. *)
Theorem enableKernelTLS_not_TCP :
  forall (caps : Caps) (c : Conn) (cipherSuiteID : Z)
         (inKey outKey inIV outIV : list byte) (st : offload),
    conn c = OtherConn ->
    enableKernelTLS caps c cipherSuiteID inKey outKey inIV outIV st =
    (None, st).
Proof.
  intros caps c cipherSuiteID inKey outKey inIV outIV st Hc.
  unfold enableKernelTLS, ktlsEnableAES, ktlsEnableCHACHA20, enableTX,
    enableRX.
  rewrite Hc. break_flags; break_match; reflexivity.
Qed.

Lemma enableKernelTLS_not_TCP_witness :
  enableKernelTLS (probe 6 8)
    {| conn := OtherConn; out_seq := zeros 8; in_seq := zeros 8 |}
    TLS_CHACHA20_POLY1305_SHA256 (zeros 32) (zeros 32) (zeros 12) (zeros 12)
    freshOffload = (None, freshOffload).
Proof.
  apply enableKernelTLS_not_TCP. reflexivity.
Defined.

(** *** The system calls of an activation *)

Lemma count_binds_app (a b : syslog) :
  count_binds (a ++ b) = (count_binds a + count_binds b)%nat.
Proof. unfold count_binds. rewrite filter_app, length_app. reflexivity. Qed.

Lemma encoderCalls_app (a b : syslog) :
  encoderCalls a -> encoderCalls b -> encoderCalls (a ++ b).
Proof. unfold encoderCalls. intros Ha Hb. apply Forall_app. split; assumption. Qed.

(** The three encoders are as the orchestration expects. *)
Lemma enable_encoderLike (f : family) : encoderLike (enable f).
Proof.
  intros c ver opt skip key_ iv_ seq log.
  destruct skip; encoder_log_cases f ver;
    first
      [ exists []; rewrite app_nil_r;
        split; [ reflexivity | split; [ constructor | cbn; lia ] ]
      | eexists; split; [ reflexivity | ];
        split; [ repeat constructor; eauto | cbn; lia ] ].
Qed.

Lemma zerocopy_calls (caps : Caps) (t : TCPConn) (log : syslog) :
  snd (ktlsEnableTxZerocopySendfile caps t log) = log \/
  (kTLSSupportZEROCOPY caps = true /\
   snd (ktlsEnableTxZerocopySendfile caps t log) = log ++ [zerocopyOpt]).
Proof.
  unfold ktlsEnableTxZerocopySendfile.
  destruct (kTLSSupportZEROCOPY caps); cbn [negb]; [ | left; reflexivity ].
  destruct (syscallConnErr t); [ left; reflexivity | ].
  destruct (controlErr t); [ left; reflexivity | ].
  right. split; reflexivity.
Qed.

Lemma noPad_calls (caps : Caps) (t : TCPConn) (log : syslog) :
  snd (ktlsEnableRxExpectNoPad caps t log) = log \/
  (kTLSSupportNOPAD caps = true /\
   snd (ktlsEnableRxExpectNoPad caps t log) = log ++ [noPadOpt]).
Proof.
  unfold ktlsEnableRxExpectNoPad.
  destruct (kTLSSupportNOPAD caps); cbn [negb]; [ | left; reflexivity ].
  destruct (syscallConnErr t); [ left; reflexivity | ].
  destruct (controlErr t); [ left; reflexivity | ].
  right. split; reflexivity.
Qed.

(** The transmit half: encoder calls, then at most the zero-copy option,
    which is attempted only once the transmit cipher has been replaced. *)
Lemma enableTX_shape (caps : Caps) (c : Conn) (ver : Z) (ef : enableFunc_t)
    (ulp : bool) (outKey outIV : list byte) (st : offload) :
  encoderLike ef ->
  match enableTX caps c ver ef ulp outKey outIV st with
  | inl (_, st') =>
    exists tx,
      sys st' = sys st ++ tx /\ encoderCalls tx /\
      (count_binds tx <= if ulp then 0 else 1)%nat /\
      clientCipher st' = clientCipher st /\
      serverCipher st' = serverCipher st
  | inr (u, st') =>
    exists tx zc,
      sys st' = sys st ++ tx ++ zc /\ encoderCalls tx /\
      (count_binds tx <= if ulp then 0 else 1)%nat /\
      (u = true \/ (u = ulp /\ tx = [] /\ zc = [])) /\
      (zc = [] \/
       (zc = [zerocopyOpt] /\ kTLSSupportZEROCOPY caps = true /\
        clientCipher st' = kTLSCipher)) /\
      serverCipher st' = serverCipher st
  end.
Proof.
  intros Hef. unfold enableTX.
  destruct (conn c) as [ t | ].
  - destruct (Hef t ver TLS_TX ulp outKey outIV (out_seq c) (sys st))
      as (tx & Hlog & Htx & Hcount).
    destruct (ef t ver TLS_TX ulp outKey outIV (out_seq c) (sys st))
      as [[e | ] log1]; cbn [snd] in Hlog; subst log1.
    + exists tx. cbn. auto.
    + cbn [with_sys with_clientCipher sys clientCipher serverCipher].
      destruct (zerocopy_calls caps t (sys st ++ tx)) as [Hz | [Hcap Hz]];
        rewrite Hz.
      * exists tx, []. rewrite !app_nil_r. repeat split; auto.
      * exists tx, [zerocopyOpt]. rewrite <- app_assoc.
        repeat split; auto.
  - exists [], []. rewrite !app_nil_r.
    repeat split; auto; [ constructor | cbn; destruct ulp; lia ].
Qed.

(** The receive half: encoder calls, then at most the no-pad option,
    which is attempted only at version 1.3 and only once the receive
    cipher has been replaced. *)
Lemma enableRX_shape (caps : Caps) (c : Conn) (ver : Z) (ef : enableFunc_t)
    (ulp : bool) (inKey inIV : list byte) (st : offload) :
  encoderLike ef ->
  forall err st',
    enableRX caps c ver ef ulp inKey inIV st = (err, st') ->
    exists rx np,
      sys st' = sys st ++ rx ++ np /\ encoderCalls rx /\
      (count_binds rx <= if ulp then 0 else 1)%nat /\
      (np = [] \/
       (np = [noPadOpt] /\ ver = VersionTLS13 /\
        kTLSSupportNOPAD caps = true /\ serverCipher st' = kTLSCipher /\
        err = None)) /\
      clientCipher st' = clientCipher st.
Proof.
  intros Hef err st'. unfold enableRX.
  destruct (conn c) as [ t | ].
  - destruct (Hef t ver TLS_RX ulp inKey inIV (in_seq c) (sys st))
      as (rx & Hlog & Hrx & Hcount).
    destruct (ef t ver TLS_RX ulp inKey inIV (in_seq c) (sys st))
      as [[e | ] log1]; cbn [snd] in Hlog; subst log1;
      intros H; inversion H; subst; clear H.
    + exists rx, []. rewrite app_nil_r. cbn. repeat split; auto.
    + cbn [with_sys with_serverCipher sys clientCipher serverCipher].
      destruct (Z.eqb_spec ver VersionTLS13) as [Hv | Hv].
      * cbn [with_sys sys clientCipher serverCipher].
        destruct (noPad_calls caps t (sys st ++ rx)) as [Hz | [Hcap Hz]];
          rewrite Hz.
        -- exists rx, []. rewrite !app_nil_r. repeat split; auto.
        -- exists rx, [noPadOpt]. rewrite <- app_assoc.
           repeat split; auto. right. repeat split; auto.
      * exists rx, []. rewrite !app_nil_r. cbn. repeat split; auto.
  - intros H; inversion H; subst.
    exists [], []. rewrite !app_nil_r.
    repeat split; auto; [ constructor | cbn; destruct ulp; lia ].
Qed.

Lemma activationShape_nil (caps : Caps) (tls13 : Prop) (st : offload)
    (err : option error) :
  activationShape caps tls13 st err st.
Proof.
  exists [], [], [], []. rewrite !app_nil_r.
  repeat split; auto; try constructor.
Qed.

(** An activation made of a transmit half that passed or was left out,
    followed by a receive half. *)
Lemma activationShape_tx_rx (caps : Caps) (c : Conn) (ver : Z)
    (ef : enableFunc_t) (st st1 st' : offload) (u : bool)
    (tx zc : syslog) (inKey inIV : list byte) (err : option error) :
  encoderLike ef ->
  sys st1 = sys st ++ tx ++ zc ->
  encoderCalls tx ->
  (count_binds tx <= 1)%nat ->
  (u = true \/ (u = false /\ tx = [] /\ zc = [])) ->
  (zc = [] \/
   (zc = [zerocopyOpt] /\ kTLSSupportZEROCOPY caps = true /\
    clientCipher st1 = kTLSCipher)) ->
  enableRX caps c ver ef u inKey inIV st1 = (err, st') ->
  activationShape caps (ver = VersionTLS13) st err st'.
Proof.
  intros Hef Hsys Htx Hcount Hu Hzc Hrx.
  apply (enableRX_shape caps c ver ef u inKey inIV st1 Hef) in Hrx.
  destruct Hrx as (rx & np & Hsys' & Hrxc & Hrcount & Hnp & Hcli).
  exists tx, zc, rx, np.
  split; [ rewrite Hsys', Hsys, <- !app_assoc; reflexivity | ].
  split; [ exact Htx | ]. split; [ exact Hrxc | ].
  split.
  { destruct Hu as [-> | (-> & -> & _)]; cbn in *; lia. }
  split; [ | exact Hnp ].
  destruct Hzc as [Hz | (Hz & Hcap & Hc)]; [ left; exact Hz | ].
  right. repeat split; auto. congruence.
Qed.

Lemma activationShape_tx_only (caps : Caps) (tls13 : Prop)
    (st st1 : offload) (tx zc : syslog) (err : option error) :
  sys st1 = sys st ++ tx ++ zc ->
  encoderCalls tx ->
  (count_binds tx <= 1)%nat ->
  (zc = [] \/
   (zc = [zerocopyOpt] /\ kTLSSupportZEROCOPY caps = true /\
    clientCipher st1 = kTLSCipher)) ->
  activationShape caps tls13 st err st1.
Proof.
  intros Hsys Htx Hcount Hzc.
  exists tx, zc, [], []. rewrite !app_nil_r.
  repeat split; auto; [ constructor | cbn; lia ].
Qed.

Lemma ktlsEnableAES_shape (caps : Caps) (c : Conn) (ver : Z)
    (ef : enableFunc_t) (keyLen : Z) (inKey outKey inIV outIV : list byte)
    (st st' : offload) (err : option error) :
  encoderLike ef ->
  ktlsEnableAES caps c ver ef keyLen inKey outKey inIV outIV st =
  (err, st') ->
  activationShape caps (ver = VersionTLS13) st err st'.
Proof.
  intros Hef. unfold ktlsEnableAES.
  destruct (kTLSSupportTX caps); cbn [negb].
  2:{ intros H; inversion H; subst. apply activationShape_nil. }
  destruct (len outKey =? keyLen).
  - pose proof (enableTX_shape caps c ver ef false outKey outIV st Hef) as Ht.
    destruct (enableTX caps c ver ef false outKey outIV st)
      as [[e st1] | [u st1]].
    + destruct Ht as (tx & Hsys & Htx & Hcount & _ & _).
      intros H; inversion H; subst.
      apply (activationShape_tx_only caps _ st st' tx []);
        rewrite ?app_nil_r; auto.
    + destruct Ht as (tx & zc & Hsys & Htx & Hcount & Hu & Hzc & _).
      destruct (negb (kTLSSupportRX caps) ||
                (ver =? VersionTLS13) && negb (kTLSSupportTLS13RX caps)).
      * intros H; inversion H; subst.
        apply (activationShape_tx_only caps _ st st' tx zc); auto.
      * destruct (len inKey =? keyLen).
        -- apply (activationShape_tx_rx caps c ver ef st st1 st' u tx zc);
             auto.
        -- intros H; inversion H; subst.
           apply (activationShape_tx_only caps _ st st' tx zc); auto.
  - destruct (negb (kTLSSupportRX caps) ||
              (ver =? VersionTLS13) && negb (kTLSSupportTLS13RX caps)).
    + intros H; inversion H; subst. apply activationShape_nil.
    + destruct (len inKey =? keyLen).
      * apply (activationShape_tx_rx caps c ver ef st st st' false [] []);
          auto;
          first [ cbn; rewrite app_nil_r; reflexivity | apply Forall_nil
                | cbn; lia ].
      * intros H; inversion H; subst. apply activationShape_nil.
Qed.

Lemma ktlsEnableCHACHA20_shape (caps : Caps) (c : Conn) (ver : Z)
    (inKey outKey inIV outIV : list byte) (st st' : offload)
    (err : option error) :
  ktlsEnableCHACHA20 caps c ver inKey outKey inIV outIV st = (err, st') ->
  activationShape caps (ver = VersionTLS13) st err st'.
Proof.
  pose proof (enable_encoderLike CHACHA20_POLY1305) as Hef.
  cbn [enable] in Hef.
  unfold ktlsEnableCHACHA20.
  destruct (kTLSSupportTX caps); cbn [negb].
  2:{ intros H; inversion H; subst. apply activationShape_nil. }
  pose proof (enableTX_shape caps c ver ktlsEnableCHACHA20POLY1305 false
                outKey outIV st Hef) as Ht.
  destruct (enableTX caps c ver ktlsEnableCHACHA20POLY1305 false outKey
              outIV st) as [[e st1] | [u st1]].
  - destruct Ht as (tx & Hsys & Htx & Hcount & _ & _).
    intros H; inversion H; subst.
    apply (activationShape_tx_only caps _ st st' tx []);
      rewrite ?app_nil_r; auto.
  - destruct Ht as (tx & zc & Hsys & Htx & Hcount & Hu & Hzc & _).
    destruct (negb (kTLSSupportRX caps) ||
              (ver =? VersionTLS13) && negb (kTLSSupportTLS13RX caps)).
    + intros H; inversion H; subst.
      apply (activationShape_tx_only caps _ st st' tx zc); auto.
    + apply (activationShape_tx_rx caps c ver ktlsEnableCHACHA20POLY1305
               st st1 st' u tx zc); auto.
Qed.

Lemma activationShape_weaken (caps : Caps) (P Q : Prop) (st st' : offload)
    (err : option error) :
  (P -> Q) ->
  activationShape caps P st err st' -> activationShape caps Q st err st'.
Proof.
  intros HPQ (tx & zc & rx & np & H1 & H2 & H3 & H4 & H5 & H6).
  exists tx, zc, rx, np. repeat split; auto.
  destruct H6 as [H6 | (Ha & Hb & Hc & Hd & He)]; [ left; exact H6 | ].
  right. repeat split; auto.
Qed.

Lemma enableKernelTLS_shape (caps : Caps) (c : Conn) (cipherSuiteID : Z)
    (inKey outKey inIV outIV : list byte) (st st' : offload)
    (err : option error) :
  enableKernelTLS caps c cipherSuiteID inKey outKey inIV outIV st =
  (err, st') ->
  activationShape caps (isTLS13Suite cipherSuiteID = true) st err st'.
Proof.
  pose proof (enable_encoderLike AES_GCM_128) as H128.
  pose proof (enable_encoderLike AES_GCM_256) as H256.
  cbn [enable] in H128, H256.
  unfold enableKernelTLS, isTLS13Suite.
  destruct (kTLSSupport caps); cbn [negb].
  2:{ intros H; inversion H; subst. apply activationShape_nil. }
  destruct (switchCipherSuite cipherSuiteID) as [ [ | | | | | ] | ];
    break_flags;
    try (intros H; inversion H; subst; apply activationShape_nil);
    intros H;
    first [ apply ktlsEnableAES_shape in H; [ | assumption ]
          | apply ktlsEnableCHACHA20_shape in H ];
    (eapply activationShape_weaken; [ | exact H ]);
    intros Hv; try reflexivity; discriminate.
Qed.

(** X6.  Whatever the capabilities, the suite, the keys and the answers
    of the socket, one activation only appends to the system-call log and
    issues the ULP bind at most once: the receive side skips the bind when
    the transmit side has been configured, and binds itself otherwise. *)
Theorem enableKernelTLS_binds_once :
  forall (caps : Caps) (c : Conn) (cipherSuiteID : Z)
         (inKey outKey inIV outIV : list byte) (st : offload),
  exists new,
    sys (snd (enableKernelTLS caps c cipherSuiteID inKey outKey inIV outIV
                st)) = sys st ++ new /\
    (count_binds new <= 1)%nat.
Proof.
  intros caps c cipherSuiteID inKey outKey inIV outIV st.
  destruct (enableKernelTLS_shape caps c cipherSuiteID inKey outKey inIV
              outIV st _ _ (surjective_pairing _))
    as (tx & zc & rx & np & Hsys & _ & _ & Hcount & Hzc & Hnp).
  exists (tx ++ zc ++ rx ++ np). split; [ exact Hsys | ].
  rewrite !count_binds_app.
  assert (Hz : count_binds zc = 0%nat)
    by (destruct Hzc as [-> | (-> & _)]; reflexivity).
  assert (Hn : count_binds np = 0%nat)
    by (destruct Hnp as [-> | (-> & _)]; reflexivity).
  lia.
Qed.

Lemma encoderCalls_not_int (new : syslog) (level opt v : Z) :
  encoderCalls new -> ~ In (SetsockoptInt level opt v) new.
Proof.
  intros H Hin. unfold encoderCalls in H. rewrite Forall_forall in H.
  destruct (H _ Hin) as (l & o & b & E). discriminate.
Qed.

(** X7.  The two best-effort options are attempted only behind a
    configured direction: the zero-copy option appears among the calls of
    an activation only if the kernel supports it and the transmit cipher
    has been replaced; the no-pad option only if the suite is a TLS 1.3
    suite, the kernel supports it, the receive cipher has been replaced
    and the activation returns nil. *)
Theorem enableKernelTLS_options_after_configuration :
  forall (caps : Caps) (c : Conn) (cipherSuiteID : Z)
         (inKey outKey inIV outIV : list byte) (st st' : offload)
         (err : option error) (new : syslog),
    enableKernelTLS caps c cipherSuiteID inKey outKey inIV outIV st =
    (err, st') ->
    sys st' = sys st ++ new ->
    (In zerocopyOpt new ->
     kTLSSupportZEROCOPY caps = true /\ clientCipher st' = kTLSCipher) /\
    (In noPadOpt new ->
     isTLS13Suite cipherSuiteID = true /\ kTLSSupportNOPAD caps = true /\
     serverCipher st' = kTLSCipher /\ err = None).
Proof.
  intros caps c cipherSuiteID inKey outKey inIV outIV st st' err new H Hnew.
  apply enableKernelTLS_shape in H.
  destruct H as (tx & zc & rx & np & Hsys & Htx & Hrx & _ & Hzc & Hnp).
  rewrite Hsys in Hnew. apply app_inv_head in Hnew. subst new.
  split; intros Hin; rewrite !in_app_iff in Hin.
  - destruct Hin as [Hin | [Hin | [Hin | Hin]]].
    + exfalso. revert Hin. apply encoderCalls_not_int, Htx.
    + destruct Hzc as [-> | (_ & Hcap & Hc)]; [ contradiction | auto ].
    + exfalso. revert Hin. apply encoderCalls_not_int, Hrx.
    + destruct Hnp as [-> | (-> & _)]; [ contradiction | ].
      destruct Hin as [Hin | []]. discriminate.
  - destruct Hin as [Hin | [Hin | [Hin | Hin]]].
    + exfalso. revert Hin. apply encoderCalls_not_int, Htx.
    + destruct Hzc as [-> | (-> & _)]; [ contradiction | ].
      destruct Hin as [Hin | []]. discriminate.
    + exfalso. revert Hin. apply encoderCalls_not_int, Hrx.
    + destruct Hnp as [-> | (_ & H13 & Hcap & Hs & He)];
        [ contradiction | auto ].
Qed.

Lemma enableKernelTLS_options_after_configuration_witness :
  (In zerocopyOpt
     [ulpBind;
      cipherConfig TLS_TX
        (wireBlob AES_GCM_128 VersionTLS13 (zeros 16) (zeros 12) (zeros 8));
      zerocopyOpt;
      cipherConfig TLS_RX
        (wireBlob AES_GCM_128 VersionTLS13 (zeros 16) (zeros 12) (zeros 8));
      noPadOpt] ->
   kTLSSupportZEROCOPY (probe 6 8) = true /\
   clientCipher (snd sampleActivation) = kTLSCipher) /\
  (In noPadOpt
     [ulpBind;
      cipherConfig TLS_TX
        (wireBlob AES_GCM_128 VersionTLS13 (zeros 16) (zeros 12) (zeros 8));
      zerocopyOpt;
      cipherConfig TLS_RX
        (wireBlob AES_GCM_128 VersionTLS13 (zeros 16) (zeros 12) (zeros 8));
      noPadOpt] ->
   isTLS13Suite TLS_AES_128_GCM_SHA256 = true /\
   kTLSSupportNOPAD (probe 6 8) = true /\
   serverCipher (snd sampleActivation) = kTLSCipher /\
   fst sampleActivation = None).
Proof.
  exact (enableKernelTLS_options_after_configuration (probe 6 8) sampleConn
           TLS_AES_128_GCM_SHA256 (zeros 16) (zeros 16) (zeros 12) (zeros 12)
           freshOffload (snd sampleActivation) (fst sampleActivation) _
           (surjective_pairing sampleActivation) eq_refl).
Defined.

(** X8.  The whole activation when nothing stands in its way: on a TCP
    connection whose socket accepts every call, with every capability
    granted, a recognized suite, and keys, IVs and sequence numbers of
    the lengths its family asks for, the activation returns nil, both
    ciphers are replaced, and the calls issued are, in this order: the ULP
    bind, the transmit configuration built from the out-key, out-IV and
    out-sequence, the zero-copy option, the receive configuration built
    from the in-key, in-IV and in-sequence (without a second bind), and,
    for a TLS 1.3 suite only, the no-pad option. *)
Theorem enableKernelTLS_full_offload :
  forall (caps : Caps) (c : Conn) (t : TCPConn) (cipherSuiteID : Z)
         (sc : suiteCase) (inKey outKey inIV outIV : list byte)
         (st : offload),
    (forall cap, granted caps cap = true) ->
    conn c = IsTCPConn t ->
    syscallConnErr t = None -> controlErr t = None ->
    (forall log call, kernel t log call = None) ->
    switchCipherSuite cipherSuiteID = Some sc ->
    let f := caseFamily sc in
    let ver := caseVersion sc in
    len outKey = KEY_SIZE f -> len inKey = KEY_SIZE f ->
    len outIV = requiredIVLen f ver -> len inIV = requiredIVLen f ver ->
    len (out_seq c) = REC_SEQ_SIZE f -> len (in_seq c) = REC_SEQ_SIZE f ->
    enableKernelTLS caps c cipherSuiteID inKey outKey inIV outIV st =
    (None,
     {| sys := sys st ++
               [ulpBind;
                cipherConfig TLS_TX (wireBlob f ver outKey outIV (out_seq c));
                zerocopyOpt;
                cipherConfig TLS_RX (wireBlob f ver inKey inIV (in_seq c))] ++
               (if ver =? VersionTLS13 then [noPadOpt] else []);
        clientCipher := kTLSCipher;
        serverCipher := kTLSCipher |}).
Proof.
  intros caps c t cipherSuiteID sc inKey outKey inIV outIV st Hcaps Hc Hsc
    Hctl Hk Hsw f ver HoK HiK HoI HiI HoS HiS.
  pose proof (Hcaps CapSupport) as C0. pose proof (Hcaps CapTX) as C1.
  pose proof (Hcaps CapRX) as C2. pose proof (Hcaps CapAESGCM128) as C3.
  pose proof (Hcaps CapAESGCM256) as C4.
  pose proof (Hcaps CapCHACHA20POLY1305) as C5.
  pose proof (Hcaps CapTLS13TX) as C6. pose proof (Hcaps CapTLS13RX) as C7.
  pose proof (Hcaps CapZEROCOPY) as C8. pose proof (Hcaps CapNOPAD) as C9.
  cbn [granted] in *.
  assert (Htx : forall log,
             enable f t ver TLS_TX false outKey outIV (out_seq c) log =
             (None, log ++ [ulpBind] ++
                    [cipherConfig TLS_TX
                       (wireBlob f ver outKey outIV (out_seq c))])).
  { intros log.
    rewrite (enable_accepts f t ver TLS_TX false) by auto.
    rewrite Hk, <- app_assoc. reflexivity. }
  assert (Hrx : forall log,
             enable f t ver TLS_RX true inKey inIV (in_seq c) log =
             (None, log ++
                    [cipherConfig TLS_RX
                       (wireBlob f ver inKey inIV (in_seq c))])).
  { intros log.
    rewrite (enable_accepts f t ver TLS_RX true) by auto.
    rewrite Hk. reflexivity. }
  assert (Hzc : forall log,
             snd (ktlsEnableTxZerocopySendfile caps t log) =
             log ++ [zerocopyOpt]).
  { intros log. unfold ktlsEnableTxZerocopySendfile.
    rewrite C8, Hsc, Hctl. reflexivity. }
  assert (Hnp : forall log,
             snd (ktlsEnableRxExpectNoPad caps t log) = log ++ [noPadOpt]).
  { intros log. unfold ktlsEnableRxExpectNoPad.
    rewrite C9, Hsc, Hctl. reflexivity. }
  unfold enableKernelTLS. rewrite C0, Hsw. cbn [negb].
  subst f ver.
  destruct sc; cbn [caseFamily caseVersion enable KEY_SIZE] in *;
    rewrite ?C3, ?C4, ?C5, ?C6; cbn [negb orb];
    unfold ktlsEnableAES, ktlsEnableCHACHA20, enableTX, enableRX;
    rewrite C1, C2, ?C7, Hc; cbn [negb orb andb];
    rewrite ?HoK, ?HiK; unfold_sizes; cbn [Z.eqb Pos.eqb];
    rewrite Htx; cbn [with_sys with_clientCipher sys clientCipher
                      serverCipher];
    rewrite Hzc; cbn [with_sys sys clientCipher serverCipher];
    rewrite Hrx; cbn [with_sys with_serverCipher sys clientCipher
                      serverCipher Z.eqb Pos.eqb VersionTLS12 VersionTLS13];
    rewrite ?Hnp; cbn [with_sys sys clientCipher serverCipher];
    rewrite <- ?app_assoc; reflexivity.
Qed.

Lemma enableKernelTLS_full_offload_witness :
  sampleActivation =
  (None,
   {| sys := [] ++
             [ulpBind;
              cipherConfig TLS_TX
                (wireBlob AES_GCM_128 VersionTLS13 (zeros 16) (zeros 12)
                   (zeros 8));
              zerocopyOpt;
              cipherConfig TLS_RX
                (wireBlob AES_GCM_128 VersionTLS13 (zeros 16) (zeros 12)
                   (zeros 8))] ++ [noPadOpt];
      clientCipher := kTLSCipher;
      serverCipher := kTLSCipher |}).
Proof.
  apply (enableKernelTLS_full_offload (probe 6 8) sampleConn acceptingSocket
           TLS_AES_128_GCM_SHA256 CaseAES128_TLS13);
    try reflexivity.
  intros cap. destruct cap; reflexivity.
Defined.

(** *** The best-effort options do not count *)

Lemma enable_agree (f : family) (t t' : TCPConn) (ver opt : Z) (skip : bool)
    (key_ iv_ seq : list byte) (log : syslog) :
  agreeOnEncoderCalls t t' ->
  enable f t ver opt skip key_ iv_ seq log =
  enable f t' ver opt skip key_ iv_ seq log.
Proof.
  intros (Hsc & Hctl & Hk).
  destruct f; cbn [enable];
    [ unfold ktlsEnableAES128GCM | unfold ktlsEnableAES256GCM
    | unfold ktlsEnableCHACHA20POLY1305 ];
    rewrite Hsc, Hctl; unfold setsockopt;
    destruct skip; cbn [negb]; cbv beta iota zeta; rewrite !Hk; reflexivity.
Qed.

Lemma options_agree (caps : Caps) (t t' : TCPConn) (log : syslog) :
  agreeOnEncoderCalls t t' ->
  snd (ktlsEnableTxZerocopySendfile caps t log) =
  snd (ktlsEnableTxZerocopySendfile caps t' log) /\
  snd (ktlsEnableRxExpectNoPad caps t log) =
  snd (ktlsEnableRxExpectNoPad caps t' log).
Proof.
  intros (Hsc & Hctl & _).
  unfold ktlsEnableTxZerocopySendfile, ktlsEnableRxExpectNoPad.
  rewrite Hsc, Hctl.
  destruct (kTLSSupportZEROCOPY caps), (kTLSSupportNOPAD caps),
    (syscallConnErr t'), (controlErr t'); split; reflexivity.
Qed.

Lemma enableTX_agree (caps : Caps) (c c' : Conn) (t t' : TCPConn) (ver : Z)
    (f : family) (u : bool) (outKey outIV : list byte) (st : offload) :
  conn c = IsTCPConn t -> conn c' = IsTCPConn t' ->
  out_seq c = out_seq c' ->
  agreeOnEncoderCalls t t' ->
  enableTX caps c ver (enable f) u outKey outIV st =
  enableTX caps c' ver (enable f) u outKey outIV st.
Proof.
  intros Hc Hc' Ho Hag. unfold enableTX. rewrite Hc, Hc', Ho.
  rewrite (enable_agree f t t') by exact Hag.
  destruct (enable f t' ver TLS_TX u outKey outIV (out_seq c') (sys st))
    as [[e | ] log1]; [ reflexivity | ].
  cbn [with_sys with_clientCipher sys].
  rewrite (proj1 (options_agree caps t t' log1 Hag)). reflexivity.
Qed.

Lemma enableRX_agree (caps : Caps) (c c' : Conn) (t t' : TCPConn) (ver : Z)
    (f : family) (u : bool) (inKey inIV : list byte) (st : offload) :
  conn c = IsTCPConn t -> conn c' = IsTCPConn t' ->
  in_seq c = in_seq c' ->
  agreeOnEncoderCalls t t' ->
  enableRX caps c ver (enable f) u inKey inIV st =
  enableRX caps c' ver (enable f) u inKey inIV st.
Proof.
  intros Hc Hc' Hi Hag. unfold enableRX. rewrite Hc, Hc', Hi.
  rewrite (enable_agree f t t') by exact Hag.
  destruct (enable f t' ver TLS_RX u inKey inIV (in_seq c') (sys st))
    as [[e | ] log1]; [ reflexivity | ].
  cbn [with_sys with_serverCipher sys].
  destruct (ver =? VersionTLS13); [ | reflexivity ].
  cbn [with_sys sys].
  rewrite (proj2 (options_agree caps t t' log1 Hag)). reflexivity.
Qed.

(** X9.  The answers of the kernel to the zero-copy and no-pad options do
    not count: on two sockets that differ only in how they answer the
    integer options, an activation returns the same result, replaces the
    same ciphers and issues the same calls. *)
Theorem enableKernelTLS_options_best_effort :
  forall (caps : Caps) (c c' : Conn) (t t' : TCPConn) (cipherSuiteID : Z)
         (inKey outKey inIV outIV : list byte) (st : offload),
    conn c = IsTCPConn t -> conn c' = IsTCPConn t' ->
    out_seq c = out_seq c' -> in_seq c = in_seq c' ->
    agreeOnEncoderCalls t t' ->
    enableKernelTLS caps c cipherSuiteID inKey outKey inIV outIV st =
    enableKernelTLS caps c' cipherSuiteID inKey outKey inIV outIV st.
Proof.
  intros caps c c' t t' cipherSuiteID inKey outKey inIV outIV st Hc Hc' Ho Hi
    Hag.
  assert (Htx : forall ver f u k i s,
             enableTX caps c ver (enable f) u k i s =
             enableTX caps c' ver (enable f) u k i s)
    by (intros; apply (enableTX_agree caps c c' t t'); assumption).
  assert (Hrx : forall ver f u k i s,
             enableRX caps c ver (enable f) u k i s =
             enableRX caps c' ver (enable f) u k i s)
    by (intros; apply (enableRX_agree caps c c' t t'); assumption).
  assert (Haes : forall ver f keyLen,
             ktlsEnableAES caps c ver (enable f) keyLen inKey outKey inIV
               outIV st =
             ktlsEnableAES caps c' ver (enable f) keyLen inKey outKey inIV
               outIV st).
  { intros ver f keyLen. unfold ktlsEnableAES.
    rewrite Htx.
    destruct (kTLSSupportTX caps); [ | reflexivity ]. cbn [negb].
    destruct (if len outKey =? keyLen
              then enableTX caps c' ver (enable f) false outKey outIV st
              else inr (false, st)) as [[e s1] | [u s1]]; [ reflexivity | ].
    rewrite Hrx. reflexivity. }
  assert (Hcha : forall ver,
             ktlsEnableCHACHA20 caps c ver inKey outKey inIV outIV st =
             ktlsEnableCHACHA20 caps c' ver inKey outKey inIV outIV st).
  { intros ver. unfold ktlsEnableCHACHA20.
    change ktlsEnableCHACHA20POLY1305 with (enable CHACHA20_POLY1305).
    rewrite Htx.
    destruct (kTLSSupportTX caps); [ | reflexivity ]. cbn [negb].
    destruct (enableTX caps c' ver (enable CHACHA20_POLY1305) false outKey
                outIV st) as [[e s1] | [u s1]]; [ reflexivity | ].
    rewrite Hrx. reflexivity. }
  unfold enableKernelTLS.
  change ktlsEnableAES128GCM with (enable AES_GCM_128).
  change ktlsEnableAES256GCM with (enable AES_GCM_256).
  rewrite !Haes, !Hcha. reflexivity.
Qed.

Lemma enableKernelTLS_options_best_effort_witness :
  enableKernelTLS (probe 6 8) sampleConn TLS_AES_128_GCM_SHA256
    (zeros 16) (zeros 16) (zeros 12) (zeros 12) freshOffload =
  enableKernelTLS (probe 6 8)
    {| conn := IsTCPConn noOptionsSocket; out_seq := zeros 8;
       in_seq := zeros 8 |}
    TLS_AES_128_GCM_SHA256 (zeros 16) (zeros 16) (zeros 12) (zeros 12)
    freshOffload.
Proof.
  apply (enableKernelTLS_options_best_effort (probe 6 8) sampleConn _
           acceptingSocket noOptionsSocket);
    try reflexivity.
  repeat split.
Defined.

(** *** The record read path *)

(** When the closure run ends in an error, the count it leaves is the -1
    of a failed [recvmsg] or 0. *)
Lemma rwcRead_error_count (q : list rx_event) :
  forall l err0 l' q',
    rwcRead q l = (Some (err0, l'), q') ->
    rr_n l = 0 \/ rr_n l = -1 ->
    err0 <> None \/ rr_err l' <> None ->
    rr_n l' = 0 \/ rr_n l' = -1.
Proof.
  induction q as [ | ev q IH ]; intros l err0 l' q' H Hl Herr.
  - discriminate.
  - destruct ev as [ | e | | level typ data payload | code ].
    + cbn in H. apply IH in H; [ exact H | cbn; right; reflexivity | exact Herr ].
    + cbn -[Z.eqb] in H.
      destruct (e =? EAGAIN).
      * apply IH in H; [ exact H | cbn; right; reflexivity | exact Herr ].
      * inversion H; subst. cbn. right. reflexivity.
    + cbn in H. inversion H; subst. cbn. left. reflexivity.
    + cbn -[go_copy firstn Z.eqb] in H.
      destruct (len (firstn (length (rr_b l)) payload) =? 0) eqn:E0;
        inversion H; subst; cbn [rr_n rr_err] in *.
      * left. apply Z.eqb_eq in E0. exact E0.
      * destruct Herr as [Herr | Herr]; exfalso; apply Herr; reflexivity.
    + cbn in H. inversion H; subst. exact Hl.
Qed.

(** A tagged read that returns an error returns the record type 0 and
    the count 0, and leaves the length of the buffer unchanged. *)
Lemma ktlsReadRecord_error_result (syscallConn : option Z)
    (q : list rx_event) (b : list byte) (typ n : Z) (e : error)
    (b' : list byte) (q' : list rx_event) :
  ktlsReadRecord syscallConn q b = (Returns (typ, n, Some e), b', q') ->
  length b' = length b /\ typ = 0 /\ n = 0.
Proof.
  unfold ktlsReadRecord.
  destruct b as [ | b0 bs ]; [ discriminate | ].
  destruct syscallConn as [ code | ].
  { intros H; inversion H; subst. auto. }
  set (l0 := {| rr_n := 0; rr_err := None; rr_cmsg := zero_cmsg;
                rr_b := b0 :: bs |}).
  destruct (rwcRead q l0) as [[[err0 l] | ] q1] eqn:Hr; [ | discriminate ].
  pose proof (rwcRead_inv _ _ _ _ _ Hr) as [Hlen _].
  pose proof (rwcRead_error_count _ _ _ _ _ Hr (or_introl eq_refl)) as Hn.
  cbv zeta.
  destruct (match err0 with Some e0 => Some e0 | None => rr_err l end)
    as [ e1 | ] eqn:He.
  - intros H; inversion H; subst.
    assert (Hc : rr_n l = 0 \/ rr_n l = -1).
    { apply Hn. destruct err0; [ left | right; rewrite He ]; discriminate. }
    split; [ exact Hlen | split; [ reflexivity | ] ].
    destruct Hc as [-> | ->]; reflexivity.
  - destruct (rr_n l <? 0);
      [ intros H; inversion H; subst; auto | ].
    destruct (rr_n l =? 0); [ discriminate | ].
    destruct (negb (Level (rr_cmsg l) =? SOL_TLS));
      [ intros H; inversion H; subst; auto | ].
    destruct (negb (Type_ (rr_cmsg l) =? TLS_GET_RECORD_TYPE));
      [ intros H; inversion H; subst; auto | discriminate ].
Qed.

(** X10.  Whatever the descriptor delivers, a tagged read that returns
    leaves the length of the buffer unchanged; without an error its count
    is between 1 and the length of the buffer, and with an error its
    record type and its count are 0: the -1 of a failed recvmsg never
    reaches the caller. *)
Theorem ktlsReadRecord_count_bounds :
  forall (syscallConn : option Z) (q : list rx_event) (b : list byte)
         (typ n : Z) (err : option error) (b' : list byte)
         (q' : list rx_event),
    ktlsReadRecord syscallConn q b = (Returns (typ, n, err), b', q') ->
    length b' = length b /\
    (err = None -> 0 < n <= len b) /\
    (err <> None -> typ = 0 /\ n = 0).
Proof.
  intros syscallConn q b typ n err b' q' H.
  destruct err as [ e | ].
  - apply ktlsReadRecord_error_result in H. destruct H as (Hlen & Ht & Hn).
    split; [ exact Hlen | split; [ discriminate | auto ] ].
  - apply ktlsReadRecord_payload_bounds in H. destruct H as [Hn Hlen].
    unfold len in *. rewrite Hlen in Hn.
    split; [ exact Hlen | split; [ intros _; exact Hn | intros Hc; contradiction ] ].
Qed.

Lemma ktlsReadRecord_count_bounds_witness :
  length (zeros 4) = length (zeros 4) /\
  (Some (Errno 104) = None -> 0 < 0 <= len (zeros 4)) /\
  (Some (Errno 104) <> None -> 0 = 0 /\ 0 = 0).
Proof.
  apply (ktlsReadRecord_count_bounds None [RxBlock; RxErrno 104; RxEOF]
           (zeros 4) 0 0 (Some (Errno 104)) (zeros 4) [RxEOF]).
  reflexivity.
Defined.

(** X11.  A plain read never reports zero bytes without an error: when it
    returns without error its count is between 1 and the length of the
    buffer, and when it returns an error its count is 0; the length of
    the buffer is unchanged. *)
Theorem ktlsReadDataFromRecord_count_bounds :
  forall (syscallConn : option Z) (q : list rx_event) (b : list byte)
         (n : Z) (err : option error) (b' : list byte) (q' : list rx_event),
    ktlsReadDataFromRecord syscallConn q b = (Returns (n, err), b', q') ->
    length b' = length b /\
    (err = None -> 0 < n <= len b) /\
    (err <> None -> n = 0).
Proof.
  intros syscallConn q b n err b' q'. unfold ktlsReadDataFromRecord.
  destruct (ktlsReadRecord syscallConn q b) as [[[[[typ n1] err1] | | ] b1] q1]
    eqn:Hr; [ | discriminate | discriminate ].
  destruct err1 as [ e | ].
  - apply ktlsReadRecord_error_result in Hr. destruct Hr as (Hlen & _ & ->).
    intros H; inversion H; subst.
    split; [ exact Hlen | split; [ discriminate | reflexivity ] ].
  - apply ktlsReadRecord_payload_bounds in Hr. destruct Hr as [Hok Hlen].
    unfold len in Hok. rewrite Hlen in Hok. fold (len b) in Hok.
    destruct (typ =? recordTypeAlert).
    + destruct (n1 <? 2).
      * intros H; inversion H; subst.
        split; [ exact Hlen | split; [ discriminate | reflexivity ] ].
      * destruct (index b1 1) as [ x | | ]; [ | discriminate | discriminate ].
        destruct (Z_of_byte x =? alertCloseNotify).
        -- intros H; inversion H; subst.
           split; [ exact Hlen | split; [ discriminate | reflexivity ] ].
        -- destruct (index b1 0) as [ y | | ]; [ | discriminate | discriminate ].
           intros H; inversion H; subst.
           split; [ exact Hlen | split; [ discriminate | reflexivity ] ].
    + destruct (typ =? recordTypeApplicationData).
      * intros H; inversion H; subst.
        split; [ exact Hlen | split; [ intros _; exact Hok | ] ].
        intros Hc; contradiction.
      * intros H; inversion H; subst.
        split; [ exact Hlen | split; [ discriminate | reflexivity ] ].
Qed.

Lemma ktlsReadDataFromRecord_count_bounds_witness :
  length (go_copy (zeros 4) [x68; x69]) = length (zeros 4) /\
  (@None error = None -> 0 < 2 <= len (zeros 4)) /\
  (@None error <> None -> 2 = 0).
Proof.
  apply (ktlsReadDataFromRecord_count_bounds None
           [RxRecord SOL_TLS TLS_GET_RECORD_TYPE x17 [x68; x69]]
           (zeros 4) 2 None (go_copy (zeros 4) [x68; x69]) []).
  reflexivity.
Defined.

(** X12.  The two reads panic exactly on an empty buffer: whatever the
    descriptor delivers into a buffer of at least one byte, neither the
    address of its first byte nor the inspection of an alert goes out of
    range. *)
Theorem read_panics_iff_empty_buffer :
  forall (syscallConn : option Z) (q : list rx_event) (b : list byte),
    (fst (fst (ktlsReadRecord syscallConn q b)) = Panics <-> b = []) /\
    (fst (fst (ktlsReadDataFromRecord syscallConn q b)) = Panics <-> b = []).
Proof.
  intros syscallConn q b.
  assert (Hrec : fst (fst (ktlsReadRecord syscallConn q b)) = Panics <->
                 b = []).
  { unfold ktlsReadRecord.
    destruct b as [ | b0 bs ]; [ split; reflexivity | ].
    split; [ | discriminate ].
    destruct syscallConn; [ discriminate | ].
    destruct (rwcRead q _) as [[[err0 l] | ] q1]; [ | discriminate ].
    cbv zeta.
    destruct (match err0 with Some e0 => Some e0 | None => rr_err l end);
      [ discriminate | ].
    destruct (rr_n l <? 0); [ discriminate | ].
    destruct (rr_n l =? 0); [ discriminate | ].
    destruct (negb (Level (rr_cmsg l) =? SOL_TLS)); [ discriminate | ].
    destruct (negb (Type_ (rr_cmsg l) =? TLS_GET_RECORD_TYPE)); discriminate. }
  split; [ exact Hrec | ].
  unfold ktlsReadDataFromRecord.
  destruct (ktlsReadRecord syscallConn q b) as [[[[[typ n1] err1] | | ] b1] q1]
    eqn:Hr.
  - assert (Hb : b <> []).
    { intros Hb. apply Hrec in Hb. discriminate. }
    split; [ | intros Hc; contradiction ].
    destruct err1 as [ e | ]; [ discriminate | ].
    apply ktlsReadRecord_payload_bounds in Hr. destruct Hr as [Hn Hlen].
    destruct (typ =? recordTypeAlert).
    + destruct (n1 <? 2) eqn:E2; [ discriminate | ].
      apply Z.ltb_ge in E2. unfold len in Hn.
      destruct b1 as [ | y0 [ | y1 b1 ] ]; cbn in Hn; try lia.
      cbn. destruct (Z_of_byte y1 =? alertCloseNotify); discriminate.
    + destruct (typ =? recordTypeApplicationData); discriminate.
  - cbn in Hrec |- *. split; [ intros _; apply Hrec | ]; reflexivity.
  - cbn in Hrec |- *. split; [ discriminate | ].
    intros Hb. apply Hrec in Hb. discriminate.
Qed.

(** A closure run that starts with a would-block answer goes on as if
    the answer had not been there. *)
Lemma ktlsReadRecord_would_block_once (q : list rx_event) (b : list byte) :
  b <> [] ->
  ktlsReadRecord None (RxBlock :: q) b = ktlsReadRecord None q b.
Proof.
  intros Hb. unfold ktlsReadRecord.
  destruct b as [ | b0 bs ]; [ contradiction | ].
  destruct q as [ | ev q ]; [ reflexivity | ].
  destruct ev; reflexivity.
Qed.

(** X13.  Would-block answers of the descriptor are invisible: a read
    into a non-empty buffer that first meets any number of them returns
    the same result, leaves the same buffer and the same events as the
    read that does not meet them. *)
Theorem read_retries_would_block :
  forall (k : nat) (q : list rx_event) (b : list byte),
    b <> [] ->
    ktlsReadRecord None (repeat RxBlock k ++ q) b = ktlsReadRecord None q b /\
    ktlsReadDataFromRecord None (repeat RxBlock k ++ q) b =
    ktlsReadDataFromRecord None q b.
Proof.
  intros k q b Hb.
  assert (H : ktlsReadRecord None (repeat RxBlock k ++ q) b =
              ktlsReadRecord None q b).
  { induction k as [ | k IH ]; [ reflexivity | ].
    cbn [repeat app]. rewrite ktlsReadRecord_would_block_once by exact Hb.
    exact IH. }
  split; [ exact H | ].
  unfold ktlsReadDataFromRecord. rewrite H. reflexivity.
Qed.

Lemma read_retries_would_block_witness :
  ktlsReadRecord None
    (repeat RxBlock 3 ++
     [RxRecord SOL_TLS TLS_GET_RECORD_TYPE x17 [x68; x69]]) (zeros 4) =
  ktlsReadRecord None
    [RxRecord SOL_TLS TLS_GET_RECORD_TYPE x17 [x68; x69]] (zeros 4) /\
  ktlsReadDataFromRecord None
    (repeat RxBlock 3 ++
     [RxRecord SOL_TLS TLS_GET_RECORD_TYPE x17 [x68; x69]]) (zeros 4) =
  ktlsReadDataFromRecord None
    [RxRecord SOL_TLS TLS_GET_RECORD_TYPE x17 [x68; x69]] (zeros 4).
Proof.
  apply (read_retries_would_block 3
           [RxRecord SOL_TLS TLS_GET_RECORD_TYPE x17 [x68; x69]] (zeros 4)).
  discriminate.
Defined.

(** *** The record write path *)

Lemma rwcWrite_would_block (msg : Msghdr) (k : nat) :
  forall (q : list tx_event) (l : sm_locals) (sent : list Msghdr),
    rwcWrite (repeat TxBlock k ++ q) msg l sent =
    rwcWrite q msg (match k with O => l | S _ => sendmsg (-1) EAGAIN end)
      (sent ++ repeat msg k).
Proof.
  induction k as [ | k IH ]; intros q l sent.
  - cbn. rewrite app_nil_r. reflexivity.
  - cbn [repeat app]. unfold TxBlock at 1. cbn [rwcWrite].
    change (is_EAGAIN (sm_err (sendmsg (-1) EAGAIN))) with true.
    cbv iota. rewrite IH. rewrite <- app_assoc. cbn [app].
    destruct k; reflexivity.
Qed.

Lemma rwcWrite_headers (msg : Msghdr) (q : list tx_event) :
  forall (l : sm_locals) (sent : list Msghdr),
    Forall (eq msg) sent ->
    Forall (eq msg) (snd (rwcWrite q msg l sent)) /\
    (length (snd (rwcWrite q msg l sent)) <= length sent + length q)%nat.
Proof.
  induction q as [ | ev q IH ]; intros l sent Hs.
  - cbn. split; [ exact Hs | lia ].
  - destruct ev as [ r0 e1 | code ].
    + cbn [rwcWrite].
      assert (Hs' : Forall (eq msg) (sent ++ [msg])).
      { apply Forall_app. split; [ exact Hs | ].
        constructor; [ reflexivity | constructor ]. }
      destruct (is_EAGAIN (sm_err (sendmsg r0 e1))).
      * destruct (IH (sendmsg r0 e1) _ Hs') as [Hf Hl].
        split; [ exact Hf | ].
        rewrite length_app in Hl. cbn [length] in *. lia.
      * cbn [snd]. split; [ exact Hs' | ].
        rewrite length_app. cbn [length]. lia.
    + cbn. split; [ exact Hs | lia ].
Qed.

(** X14.  A control message with a non-empty payload that meets [k]
    would-block answers and then a decisive answer [(r0, e1)] of sendmsg
    returns the raw count [r0] with the error of [e1] (none for 0), so
    the -1 of a failed sendmsg reaches the caller; the [k + 1] attempts
    all carried the same header. *)
Theorem ktlsSendCtrlMessage_retries_would_block :
  forall (typ : Z) (b : list byte) (k : nat) (r0 e1 : Z)
         (q : list tx_event),
    b <> [] -> e1 <> EAGAIN ->
    ktlsSendCtrlMessage None typ b
      (repeat TxBlock k ++ TxSyscall r0 e1 :: q) =
    (Returns (r0, errnoErr e1), q, repeat (ctrlMessage typ b) (S k)).
Proof.
  intros typ b k r0 e1 q Hb He. unfold ktlsSendCtrlMessage.
  destruct b as [ | b0 bs ]; [ contradiction | ].
  fold (ctrlMessage typ (b0 :: bs)). cbv zeta.
  rewrite rwcWrite_would_block. cbn [rwcWrite app].
  assert (Hag : is_EAGAIN (sm_err (sendmsg r0 e1)) = false).
  { unfold sendmsg, errnoErr. cbn [sm_err].
    destruct (e1 =? 0); cbn [negb is_EAGAIN]; [ reflexivity | ].
    apply Z.eqb_neq. exact He. }
  rewrite Hag. cbn [sm_n sm_err sendmsg].
  assert (Herr : (if negb (e1 =? 0) then errnoErr e1 else None) =
                 errnoErr e1).
  { unfold errnoErr. destruct (e1 =? 0); reflexivity. }
  rewrite Herr.
  replace (repeat (ctrlMessage typ (b0 :: bs)) k ++
           [ctrlMessage typ (b0 :: bs)])
    with (repeat (ctrlMessage typ (b0 :: bs)) (S k)).
  - reflexivity.
  - change [ctrlMessage typ (b0 :: bs)]
      with (repeat (ctrlMessage typ (b0 :: bs)) 1).
    rewrite <- repeat_app. f_equal. lia.
Qed.

Lemma ktlsSendCtrlMessage_retries_would_block_witness :
  ktlsSendCtrlMessage None 21 [x01; x00]
    (repeat TxBlock 2 ++ TxSyscall (-1) 32 :: []) =
  (Returns (-1, errnoErr 32), [], repeat (ctrlMessage 21 [x01; x00]) 3).
Proof.
  apply (ktlsSendCtrlMessage_retries_would_block 21 [x01; x00] 2 (-1) 32 []).
  - discriminate.
  - discriminate.
Defined.

(** X15.  When the write of the descriptor itself fails after [k]
    would-block answers (a deadline, a closed descriptor), a control
    message with a non-empty payload returns that error, with the count 0
    when no attempt was made and the -1 of the last would-block answer
    otherwise. *)
Theorem ktlsSendCtrlMessage_write_error :
  forall (typ : Z) (b : list byte) (k : nat) (code : Z) (q : list tx_event),
    b <> [] ->
    ktlsSendCtrlMessage None typ b (repeat TxBlock k ++ TxNetErr code :: q) =
    (Returns (match k with O => 0 | S _ => -1 end, Some (ErrNet code)), q,
     repeat (ctrlMessage typ b) k).
Proof.
  intros typ b k code q Hb. unfold ktlsSendCtrlMessage.
  destruct b as [ | b0 bs ]; [ contradiction | ].
  fold (ctrlMessage typ (b0 :: bs)). cbv zeta.
  rewrite rwcWrite_would_block. cbn [rwcWrite app].
  destruct k; reflexivity.
Qed.

Lemma ktlsSendCtrlMessage_write_error_witness :
  ktlsSendCtrlMessage None 21 [x01; x00]
    (repeat TxBlock 1 ++ TxNetErr 7 :: []) =
  (Returns (-1, Some (ErrNet 7)), [], repeat (ctrlMessage 21 [x01; x00]) 1).
Proof.
  apply (ktlsSendCtrlMessage_write_error 21 [x01; x00] 1 7 []).
  discriminate.
Defined.

(** X16.  Whatever the descriptor answers, a control message panics
    exactly on an empty payload, makes at most one sendmsg attempt per
    answer, and every attempt carries the one header of level SOL_TLS and
    type TLS_SET_RECORD_TYPE with the record type as its data byte and the
    whole payload. *)
Theorem ktlsSendCtrlMessage_headers :
  forall (syscallConn : option Z) (typ : Z) (b : list byte)
         (q : list tx_event),
    let r := ktlsSendCtrlMessage syscallConn typ b q in
    (fst (fst r) = Panics <-> b = []) /\
    Forall (eq (ctrlMessage typ b)) (snd r) /\
    (length (snd r) <= length q)%nat.
Proof.
  intros syscallConn typ b q. cbv zeta. unfold ktlsSendCtrlMessage.
  destruct b as [ | b0 bs ].
  - cbn. repeat split; [ constructor | lia ].
  - fold (ctrlMessage typ (b0 :: bs)).
    destruct syscallConn as [ code | ].
    + cbn. repeat split; [ discriminate | discriminate | constructor | lia ].
    + pose proof (rwcWrite_headers (ctrlMessage typ (b0 :: bs)) q
                    {| sm_n := 0; sm_err := None |} [] (Forall_nil _))
        as [Hf Hl].
      destruct (rwcWrite q (ctrlMessage typ (b0 :: bs))
                  {| sm_n := 0; sm_err := None |} [])
        as [[[[err0 l] | ] q1] sent]; cbn [fst snd length] in *;
        (split; [ split; discriminate | split; [ exact Hf | lia ] ]).
Qed.

(** *** The mapped-buffer transfer stays in its window *)

(** The loop of [writeToFile] never slices out of range and leaves the
    length of the mapped range as it was, whatever the reads deliver and
    however it ends. *)
Lemma readLoop_safe (remain : Z) :
  remain + maxBufferSize <= max_int64 ->
  forall reads bytes start end_,
    len bytes = remain ->
    0 <= start < remain ->
    start < end_ <= start + maxBufferSize ->
    fst (readLoop remain reads bytes start end_) <> Panics /\
    len (snd (readLoop remain reads bytes start end_)) = remain.
Proof.
  intros Hmax reads.
  assert (Hmb : maxBufferSize = 4194304) by reflexivity.
  assert (Hmi : max_int64 = 9223372036854775807) by reflexivity.
  assert (Hmn : min_int64 = -9223372036854775808) by reflexivity.
  induction reads as [ | [data err] reads IH ];
    intros bytes start end_ Hlen Hstart Hend.
  - cbn. split; [ discriminate | exact Hlen ].
  - cbn [readLoop].
    set (end1 := if end_ >? remain then remain else end_) in *.
    assert (Hend1 : start < end1 <= remain /\ end1 <= start + maxBufferSize).
    { subst end1. destruct (Z.gtb_spec end_ remain); lia. }
    assert (Hb : (0 <=? start) && (start <=? end1) && (end1 <=? len bytes)
                 = true).
    { rewrite !andb_true_iff, !Z.leb_le. lia. }
    rewrite Hb. cbn [negb].
    set (got := firstn (Z.to_nat (end1 - start)) data) in *.
    assert (Hgot : 0 <= len got <= end1 - start).
    { subst got. unfold len. rewrite length_firstn. lia. }
    assert (Hfit : (Z.to_nat start + length got <= length bytes)%nat).
    { unfold len in *. lia. }
    assert (Hlen' : len (write_at bytes (Z.to_nat start) got) = remain).
    { unfold len in *. rewrite write_at_length by exact Hfit. exact Hlen. }
    rewrite add64_small by lia.
    destruct err as [ e | ].
    + cbn [fst snd]. split; [ discriminate | exact Hlen' ].
    + destruct (start + len got >=? remain) eqn:Hge.
      * cbn [fst snd]. split; [ discriminate | exact Hlen' ].
      * assert (Hlt : start + len got < remain).
        { destruct (Z.geb_spec (start + len got) remain);
            [ discriminate | lia ]. }
        rewrite add64_small by lia.
        apply IH; [ exact Hlen' | lia | lia ].
Qed.

Lemma extended_firstn (data : list byte) (size : Z) (k : nat) :
  (k <= length data)%nat ->
  firstn k (extended data size) = firstn k data.
Proof.
  intros Hk. unfold extended.
  destruct (Z.gtb_spec size (len data)) as [Hgt | Hle]; [ | reflexivity ].
  unfold truncate. unfold len in Hgt.
  rewrite (firstn_all2 (n := Z.to_nat size) data) by lia.
  rewrite firstn_app.
  replace (k - length data)%nat with 0%nat by lia.
  cbn [firstn]. apply app_nil_r.
Qed.

Lemma extended_skipn (data : list byte) (size : Z) :
  skipn (Z.to_nat size) (extended data size) = skipn (Z.to_nat size) data.
Proof.
  unfold extended.
  destruct (Z.gtb_spec size (len data)) as [Hgt | Hle]; [ | reflexivity ].
  unfold len in Hgt.
  rewrite (skipn_all2 (n := Z.to_nat size) data) by lia.
  apply skipn_all2. unfold truncate.
  rewrite length_app, length_firstn, repeat_length. lia.
Qed.

(** X17.  [writeToFile], called at an offset inside the file, stays in
    its window however it ends (returned, handled or not, or waiting for
    a read): it never slices out of range, it leaves the offset of the
    descriptor where it was, and the bytes of the file before the offset
    and from [offset + remain] on are as they were. *)
Theorem writeToFile_stays_in_window :
  forall (env : FileEnv) (reads : list read_result) (f : File) (remain : Z),
    0 <= fpos f <= len (fdata f) ->
    fpos f + remain + maxBufferSize <= max_int64 ->
    let r := writeToFile env reads f remain in
    fst r <> Panics /\
    fpos (snd r) = fpos f /\
    firstn (Z.to_nat (fpos f)) (fdata (snd r)) =
    firstn (Z.to_nat (fpos f)) (fdata f) /\
    skipn (Z.to_nat (fpos f + remain)) (fdata (snd r)) =
    skipn (Z.to_nat (fpos f + remain)) (fdata f).
Proof.
  intros env reads f remain Hpos Hmax. cbv zeta.
  assert (Hmb : maxBufferSize = 4194304) by reflexivity.
  assert (Hmi : max_int64 = 9223372036854775807) by reflexivity.
  assert (Hmn : min_int64 = -9223372036854775808) by reflexivity.
  pose proof (len_nonneg (fdata f)) as Hlen0.
  assert (Hsame : forall A (o : outcome A),
             o <> Panics ->
             fst (o, f) <> Panics /\ fpos (snd (o, f)) = fpos f /\
             firstn (Z.to_nat (fpos f)) (fdata (snd (o, f))) =
             firstn (Z.to_nat (fpos f)) (fdata f) /\
             skipn (Z.to_nat (fpos f + remain)) (fdata (snd (o, f))) =
             skipn (Z.to_nat (fpos f + remain)) (fdata f)).
  { intros A o Ho. cbn [fst snd]. repeat split; assumption. }
  unfold writeToFile. cbv zeta.
  destruct (Z.leb_spec remain 0) as [Hle | Hgt];
    [ apply Hsame; discriminate | ].
  destruct (seekErr env); [ apply Hsame; discriminate | ].
  destruct (statErr env); [ apply Hsame; discriminate | ].
  rewrite add64_small by lia.
  set (total := fpos f + remain) in *.
  assert (Hkf : (Z.to_nat (fpos f) <= length (fdata f))%nat)
    by (unfold len in *; lia).
  assert (Hext : forall f1 : File,
             fdata f1 = extended (fdata f) total -> fpos f1 = fpos f ->
             forall A (o : outcome A),
             o <> Panics ->
             fst (o, f1) <> Panics /\ fpos (snd (o, f1)) = fpos f /\
             firstn (Z.to_nat (fpos f)) (fdata (snd (o, f1))) =
             firstn (Z.to_nat (fpos f)) (fdata f) /\
             skipn (Z.to_nat total) (fdata (snd (o, f1))) =
             skipn (Z.to_nat total) (fdata f)).
  { intros f1 Hd Hp A o Ho. cbn [fst snd]. rewrite Hd.
    split; [ exact Ho | ]. split; [ exact Hp | ].
    split; [ apply extended_firstn; exact Hkf | apply extended_skipn ]. }
  assert (Htr :
            (exists f1,
               (if total >? len (fdata f)
                then match truncateErr env with
                     | Some _ => None
                     | None => Some {| fdata := truncate (fdata f) total;
                                       fpos := fpos f |}
                     end
                else Some f) = Some f1 /\
               fdata f1 = extended (fdata f) total /\ fpos f1 = fpos f) \/
            (if total >? len (fdata f)
             then match truncateErr env with
                  | Some _ => None
                  | None => Some {| fdata := truncate (fdata f) total;
                                    fpos := fpos f |}
                  end
             else Some f) = None).
  { unfold extended. destruct (total >? len (fdata f)).
    - destruct (truncateErr env); [ right; reflexivity | ].
      left. eexists. split; [ reflexivity | split; reflexivity ].
    - left. exists f. split; [ reflexivity | split; reflexivity ]. }
  destruct Htr as [(f1 & Htr & Hd1 & Hp1) | Htr]; rewrite Htr.
  2:{ apply Hsame. discriminate. }
  destruct (mmapErr env); [ apply Hext; [ assumption .. | discriminate ] | ].
  pose proof (extended_length (fdata f) total ltac:(lia)) as Hl1.
  rewrite <- Hd1 in Hl1.
  assert (Hb : (0 <=? fpos f) && (fpos f <=? total) &&
               (total <=? len (fdata f1)) = true).
  { rewrite !andb_true_iff, !Z.leb_le. lia. }
  rewrite Hb. cbn [negb].
  set (bytes := firstn (Z.to_nat remain) (skipn (Z.to_nat (fpos f)) (fdata f1))).
  assert (Hbytes : len bytes = remain).
  { subst bytes. unfold len in *.
    rewrite length_firstn, length_skipn. lia. }
  pose proof (readLoop_safe remain ltac:(lia) reads bytes 0 maxBufferSize
                Hbytes ltac:(lia) ltac:(lia)) as [Hnp Hlen'].
  destruct (readLoop remain reads bytes 0 maxBufferSize) as [res bytes'].
  cbn [fst snd] in Hnp, Hlen'.
  assert (Hf1 : length (firstn (Z.to_nat (fpos f)) (fdata f1)) =
                Z.to_nat (fpos f)).
  { rewrite length_firstn. unfold len in *. lia. }
  assert (Hfinal :
            firstn (Z.to_nat (fpos f))
              (firstn (Z.to_nat (fpos f)) (fdata f1) ++ bytes' ++
               skipn (Z.to_nat total) (fdata f1)) =
            firstn (Z.to_nat (fpos f)) (fdata f) /\
            skipn (Z.to_nat total)
              (firstn (Z.to_nat (fpos f)) (fdata f1) ++ bytes' ++
               skipn (Z.to_nat total) (fdata f1)) =
            skipn (Z.to_nat total) (fdata f)).
  { split.
    - rewrite firstn_app_exact by exact Hf1.
      rewrite Hd1. apply extended_firstn. exact Hkf.
    - rewrite app_assoc.
      rewrite skipn_app_exact
        by (rewrite length_app, Hf1; unfold len in *; subst total; lia).
      rewrite Hd1. apply extended_skipn. }
  destruct Hfinal as [Hfst Hskp].
  destruct res as [ [w e] | | ]; cbn [fst snd fdata fpos];
    [ | exfalso; apply Hnp; reflexivity | ];
    (split; [ discriminate
            | split; [ exact Hp1 | split; [ exact Hfst | exact Hskp ] ] ]).
Qed.

Lemma writeToFile_stays_in_window_witness :
  let r := writeToFile okFiles [([x61; x62], None)]
             {| fdata := [x01; x02; x03; x04; x05]; fpos := 1 |} 3 in
  fst r <> Panics /\
  fpos (snd r) = 1 /\
  firstn (Z.to_nat 1) (fdata (snd r)) =
  firstn (Z.to_nat 1) [x01; x02; x03; x04; x05] /\
  skipn (Z.to_nat (1 + 3)) (fdata (snd r)) =
  skipn (Z.to_nat (1 + 3)) [x01; x02; x03; x04; x05].
Proof.
  apply (writeToFile_stays_in_window okFiles [([x61; x62], None)]
           {| fdata := [x01; x02; x03; x04; x05]; fpos := 1 |} 3).
  - cbn. lia.
  - apply Z.leb_le. reflexivity.
Defined.

(** *** The splice bridge *)

Lemma spliceToFile_uninterrupted_witness :
  exists fuel l' w',
    spliceToFile fuel okSplice
      {| sock := map SockData [[x61]; [x62; x63]]; pipe := [];
         fileq := [FileShort 1]; dst := emptyFile |}
      (len (concat [[x61]; [x62; x63]])) =
    Some (Returns (len (concat [[x61]; [x62; x63]]), None, true), l', w') /\
    sock w' = [] /\
    fdata (dst w') =
    write_at (fdata emptyFile) (Z.to_nat (fpos emptyFile))
      (concat [[x61]; [x62; x63]]) /\
    fpos (dst w') = fpos emptyFile + len (concat [[x61]; [x62; x63]]).
Proof.
  apply (spliceToFile_uninterrupted okSplice [[x61]; [x62; x63]]
           [FileShort 1] emptyFile); try reflexivity.
  - repeat constructor; discriminate.
  - repeat constructor. exists 1%nat. reflexivity.
  - split; [ reflexivity | apply Z.leb_le; reflexivity ].
Defined.

(** One end-of-stream answer: the socket-to-pipe splice returns 0, the
    pipe-to-file closure has nothing to move, and the loop of the read
    closure goes round again with [remain] and [written] as they were. *)
Lemma readClosure_end_of_stream (fuel : nat) (env : SpliceEnv)
    (l : splice_locals) (q : list sock_ev) (f : File) :
  fscWriteErr env = None ->
  0 < sl_remain l <= max_int64 ->
  min_int64 <= sl_written l <= max_int64 ->
  readClosure (S (S fuel)) env l
    {| sock := SockData [] :: q; pipe := []; fileq := []; dst := f |} =
  readClosure (S fuel) env
    {| sl_remain := sl_remain l; sl_written := sl_written l; sl_err := None;
       sl_n := 0; sl_m := 0 |}
    {| sock := q; pipe := []; fileq := []; dst := f |}.
Proof.
  intros Hwe Hr Hw.
  assert (Hmi : max_int64 = 9223372036854775807) by reflexivity.
  assert (Hmn : min_int64 = -9223372036854775808) by reflexivity.
  remember (S fuel) as fuel1 eqn:Hf1.
  cbn [readClosure]. unfold spliceSock. cbn [sock pipe fileq dst].
  rewrite firstn_nil, skipn_nil. cbn [app len length Z.of_nat].
  cbn [is_EAGAIN sl_remain sl_written sl_err sl_n sl_m].
  rewrite Hwe. subst fuel1. cbn [bump].
  unfold spliceFile. cbn [sock pipe fileq dst sl_n tl].
  change (0 <? 0) with false. cbv iota.
  cbn [sl_remain sl_written sl_err sl_n sl_m].
  rewrite sub64_small, add64_small by lia.
  rewrite Z.sub_0_r, Z.add_0_r.
  change (0 <? 0) with false. cbv iota.
  cbn [sl_remain sl_written sl_err sl_n sl_m].
  destruct (Z.leb_spec (sl_remain l) 0) as [Hle | Hgt]; [ lia | ].
  reflexivity.
Qed.

Lemma readClosure_end_of_stream_run (env : SpliceEnv) (f : File)
    (q : list sock_ev) (fuel : nat) (remain written : Z) :
  fscWriteErr env = None ->
  0 < remain <= max_int64 ->
  min_int64 <= written <= max_int64 ->
  forall (k : nat) (n m : Z),
    readClosure (k + S fuel) env
      {| sl_remain := remain; sl_written := written; sl_err := None;
         sl_n := n; sl_m := m |}
      {| sock := repeat (SockData []) k ++ q; pipe := []; fileq := [];
         dst := f |} =
    readClosure (S fuel) env
      {| sl_remain := remain; sl_written := written; sl_err := None;
         sl_n := match k with O => n | S _ => 0 end;
         sl_m := match k with O => m | S _ => 0 end |}
      {| sock := q; pipe := []; fileq := []; dst := f |}.
Proof.
  intros Hwe Hr Hw k.
  induction k as [ | k IH ]; intros n m.
  - reflexivity.
  - cbn [repeat app].
    replace (S k + S fuel)%nat with (S (S (k + fuel))) by lia.
    rewrite readClosure_end_of_stream by (cbn; assumption).
    cbn [sl_remain sl_written].
    replace (S (k + fuel)) with (k + S fuel)%nat by lia.
    rewrite IH. destruct k; reflexivity.
Qed.

(** With no answer left the splice would block: the closure suspends,
    its two counters shifted by the -1 of the splice. *)
Lemma readClosure_no_event (fuel : nat) (env : SpliceEnv)
    (l : splice_locals) (w : splice_world) :
  sock w = [] ->
  min_int64 <= sl_remain l < max_int64 ->
  min_int64 < sl_written l <= max_int64 ->
  readClosure (S fuel) env l w =
  Some (false,
        {| sl_remain := sl_remain l + 1; sl_written := sl_written l - 1;
           sl_err := None; sl_n := -1; sl_m := sl_m l |}, w).
Proof.
  intros Hs Hr Hw. cbn [readClosure]. unfold spliceSock. rewrite Hs.
  cbn [is_EAGAIN sl_remain sl_written sl_err sl_n sl_m].
  rewrite sub64_small, add64_small by lia.
  replace (sl_remain l - -1) with (sl_remain l + 1) by lia.
  replace (sl_written l + -1) with (sl_written l - 1) by lia.
  reflexivity.
Qed.

(** X19.  A splice that returns 0 bytes does not end the transfer.  On a
    socket at the end of its stream, whose [k] splices all return 0, a
    call with [remain > 0] consumes the [k] answers without returning and
    without touching the file; it is then left waiting for data, its
    counters shifted by the would-block answer that suspends it. *)
Theorem spliceToFile_end_of_stream_not_detected :
  forall (k fuel : nat) (remain : Z) (f : File),
    0 < remain < max_int64 ->
    spliceToFile (k + 1 + fuel) okSplice
      {| sock := repeat (SockData []) k; pipe := []; fileq := []; dst := f |}
      remain =
    Some (Parks,
          {| sl_remain := remain + 1; sl_written := -1; sl_err := None;
             sl_n := -1; sl_m := 0 |},
          {| sock := []; pipe := []; fileq := []; dst := f |}).
Proof.
  intros k fuel remain f Hr.
  assert (Hmi : max_int64 = 9223372036854775807) by reflexivity.
  assert (Hmn : min_int64 = -9223372036854775808) by reflexivity.
  apply spliceToFile_fuel_mono.
  unfold spliceToFile. cbn [okSplice connIsTCP scErr fscErr pipeErr negb].
  replace (k + 1)%nat with (S k) by lia. cbn [scRead sock].
  assert (Hrc : readClosure (S k) okSplice
                  {| sl_remain := remain; sl_written := 0; sl_err := None;
                     sl_n := maxSpliceSize; sl_m := 0 |}
                  {| sock := repeat (SockData []) k; pipe := [];
                     fileq := []; dst := f |} =
                Some (false,
                      {| sl_remain := remain + 1; sl_written := -1;
                         sl_err := None; sl_n := -1; sl_m := 0 |},
                      {| sock := []; pipe := []; fileq := []; dst := f |})).
  { replace (S k) with (k + 1)%nat by lia.
    rewrite <- (app_nil_r (repeat (SockData []) k)).
    rewrite (readClosure_end_of_stream_run okSplice f [] 0 remain 0)
      by (try reflexivity; lia).
    rewrite readClosure_no_event by (cbn; first [ reflexivity | lia ]).
    cbn [sl_remain sl_written sl_m]. destruct k; reflexivity. }
  destruct (repeat (SockData []) k) as [ | ev s ] eqn:Hs.
  - rewrite Hrc. reflexivity.
  - assert (Hev : ev = SockData []).
    { destruct k; [ discriminate | ]. cbn in Hs. congruence. }
    subst ev. rewrite Hrc. reflexivity.
Qed.

Lemma spliceToFile_end_of_stream_not_detected_witness :
  spliceToFile (2 + 1 + 0) okSplice
    {| sock := repeat (SockData []) 2; pipe := []; fileq := [];
       dst := emptyFile |} 5 =
  Some (Parks,
        {| sl_remain := 5 + 1; sl_written := -1; sl_err := None;
           sl_n := -1; sl_m := 0 |},
        {| sock := []; pipe := []; fileq := []; dst := emptyFile |}).
Proof.
  apply (spliceToFile_end_of_stream_not_detected 2 0 5 emptyFile).
  split; [ reflexivity | reflexivity ].
Defined.

(** *** The release string of the probe *)

Lemma inCutset_app (a b : list byte) (x : byte) :
  inCutset (a ++ b) x = inCutset a x || inCutset b x.
Proof. unfold inCutset. apply existsb_app. Qed.

Lemma inCutset_head (x : byte) (s : list byte) : inCutset (x :: s) x = true.
Proof.
  unfold inCutset. cbn [existsb]. rewrite (Byte.byte_dec_lb eq_refl).
  reflexivity.
Qed.

Lemma byte_eqb_sym (x y : byte) : Byte.eqb x y = Byte.eqb y x.
Proof.
  destruct (Byte.eqb x y) eqn:E.
  - apply Byte.byte_dec_bl in E. subst. symmetry.
    apply Byte.byte_dec_lb. reflexivity.
  - destruct (Byte.eqb y x) eqn:E'; [ | reflexivity ].
    apply Byte.byte_dec_bl in E'. subst.
    rewrite (Byte.byte_dec_lb eq_refl) in E. discriminate.
Qed.

Lemma Index_absent (s : list byte) (c : byte) :
  inCutset s c = false -> Index s c = -1.
Proof.
  induction s as [ | x s IH ]; intros H; [ reflexivity | ].
  unfold inCutset in *. cbn [existsb Index] in *.
  apply orb_false_iff in H. destruct H as [Hx Hs].
  rewrite byte_eqb_sym, Hx. rewrite (IH Hs). reflexivity.
Qed.

Lemma Index_first (a t : list byte) (c : byte) :
  inCutset a c = false -> Index (a ++ c :: t) c = len a.
Proof.
  induction a as [ | x a IH ]; intros H.
  - cbn [app Index]. rewrite (Byte.byte_dec_lb eq_refl). reflexivity.
  - unfold inCutset in H. cbn [existsb] in H.
    apply orb_false_iff in H. destruct H as [Hx Ha].
    cbn [app Index]. rewrite byte_eqb_sym, Hx. rewrite (IH Ha).
    pose proof (len_nonneg a) as Hn.
    destruct (Z.eqb_spec (len a) (-1)) as [E | E]; [ lia | ].
    unfold len. cbn [length]. lia.
Qed.

Lemma slice_to_first (a t : list byte) :
  slice_to (a ++ t) (len a) = Returns a.
Proof.
  unfold slice_to. pose proof (len_nonneg a) as Hn.
  assert (Hb : (0 <=? len a) && (len a <=? len (a ++ t)) = true).
  { rewrite andb_true_iff, !Z.leb_le, len_app.
    pose proof (len_nonneg t). lia. }
  rewrite Hb. unfold len. rewrite Nat2Z.id.
  rewrite firstn_app_exact by reflexivity. reflexivity.
Qed.

Lemma trimLeftASCII_app (p t cutset : list byte) :
  forallb (inCutset cutset) p = true ->
  trimLeftASCII (p ++ t) cutset = trimLeftASCII t cutset.
Proof.
  induction p as [ | x p IH ]; intros H; [ reflexivity | ].
  cbn [forallb] in H. apply andb_true_iff in H. destruct H as [Hx Hp].
  cbn [app trimLeftASCII]. rewrite Hx. apply IH. exact Hp.
Qed.

Lemma trimLeftASCII_absent (t cutset : list byte) (c : byte) :
  inCutset t c = false -> inCutset (trimLeftASCII t cutset) c = false.
Proof.
  induction t as [ | x t IH ]; intros H; [ reflexivity | ].
  cbn [trimLeftASCII].
  destruct (inCutset cutset x); [ | exact H ].
  apply IH. unfold inCutset in *. cbn [existsb] in H.
  apply orb_false_iff in H. apply H.
Qed.

Lemma forallb_inCutset_app_l (a b s : list byte) :
  forallb (inCutset a) s = true -> forallb (inCutset (a ++ b)) s = true.
Proof.
  intros H. rewrite forallb_forall in *. intros x Hx.
  rewrite inCutset_app, (H x Hx). reflexivity.
Qed.

Lemma forallb_inCutset_self (a b : list byte) :
  forallb (inCutset (a ++ b)) a = true.
Proof.
  rewrite forallb_forall. intros x Hx. rewrite inCutset_app.
  apply orb_true_iff. left. unfold inCutset. rewrite existsb_exists.
  exists x. split; [ exact Hx | apply Byte.byte_dec_lb; reflexivity ].
Qed.

(** The major part and its dot are in the cutset: [TrimLeft] removes
    them, and goes on into what follows. *)
Lemma TrimLeft_major (a t : list byte) :
  isASCII a = true ->
  TrimLeft (a ++ dot :: t) (a ++ [dot]) =
  Some (trimLeftASCII t (a ++ [dot])).
Proof.
  intros Ha. unfold TrimLeft.
  assert (Hc : isASCII (a ++ [dot]) = true).
  { unfold isASCII in *. rewrite forallb_app, Ha. reflexivity. }
  rewrite Hc. f_equal.
  rewrite trimLeftASCII_app by apply forallb_inCutset_self.
  cbn [trimLeftASCII].
  assert (Hd : inCutset (a ++ [dot]) dot = true).
  { rewrite inCutset_app, inCutset_head. apply orb_true_r. }
  rewrite Hd. reflexivity.
Qed.

Lemma releaseOf_cut (r pad : list byte) :
  inCutset r x00 = false -> releaseOf (r ++ x00 :: pad) = r.
Proof.
  intros H. unfold releaseOf. cbv zeta. rewrite (Index_first r pad x00 H).
  pose proof (len_nonneg r) as Hn.
  destruct (Z.eqb_spec (len r) (-1)) as [E | E]; [ lia | ].
  cbn [negb]. unfold len. rewrite Nat2Z.id.
  apply firstn_app_exact. reflexivity.
Qed.

Lemma isASCII_app (a b : list byte) :
  isASCII (a ++ b) = isASCII a && isASCII b.
Proof. unfold isASCII. apply forallb_app. Qed.

Lemma parseRelease_no_second_dot (a t : list byte) :
  isASCII a = true ->
  inCutset a dot = false ->
  inCutset (trimLeftASCII t (a ++ [dot])) dot = false ->
  parseRelease (a ++ dot :: t) = Some Panics.
Proof.
  intros Ha Hda Hdt. unfold parseRelease.
  rewrite (Index_first a t dot Hda), slice_to_first.
  rewrite (TrimLeft_major a t Ha).
  rewrite (Index_absent _ _ Hdt). reflexivity.
Qed.

(** X20.  On a machine with the module present and offload enabled,
    whose release field holds [a.b.rest] followed by a NUL, with no dot
    in [a] and [b], [a] in ASCII and the first byte of [b] not occurring
    in [a], the probe takes [a] for the major and [b] for the minor
    release: its capabilities are those of the thresholds at the two
    results of Atoi. *)
Theorem initMachine_reads_major_minor :
  forall (a b rest pad : list byte),
    isASCII a = true ->
    inCutset a dot = false ->
    inCutset b dot = false ->
    inCutset (a ++ b ++ rest) x00 = false ->
    match b with [] => false | x :: _ => negb (inCutset a x) end = true ->
    initMachine true true
      (Some ((a ++ dot :: b ++ dot :: rest) ++ x00 :: pad)) =
    Some (Returns
            (init {| statOK := true; kTLSEnabled := true; unameOK := true;
                     majorRelease := Atoi a; minorRelease := Atoi b |})).
Proof.
  intros a b rest pad Ha Hda Hdb Hnul Hhead.
  unfold initMachine. cbn [negb andb orb].
  assert (Hcut : inCutset (a ++ dot :: b ++ dot :: rest) x00 = false).
  { rewrite !inCutset_app in Hnul. apply orb_false_iff in Hnul.
    destruct Hnul as [H1 H2]. apply orb_false_iff in H2.
    destruct H2 as [H2 H3].
    rewrite inCutset_app. rewrite H1. cbn [orb].
    change (dot :: b ++ dot :: rest) with ([dot] ++ b ++ [dot] ++ rest).
    rewrite !inCutset_app, H2, H3. reflexivity. }
  rewrite (releaseOf_cut _ pad Hcut).
  unfold parseRelease.
  rewrite (Index_first a _ dot Hda), slice_to_first.
  rewrite (TrimLeft_major a _ Ha).
  destruct b as [ | x b ]; [ discriminate | ].
  apply negb_true_iff in Hhead.
  assert (Hx : inCutset (a ++ [dot]) x = false).
  { rewrite inCutset_app, Hhead. cbn [orb].
    unfold inCutset in *. cbn [existsb] in *.
    apply orb_false_iff in Hdb. destruct Hdb as [Hxd _].
    rewrite byte_eqb_sym, Hxd. reflexivity. }
  cbn [app trimLeftASCII]. rewrite Hx.
  change (x :: b ++ dot :: rest) with ((x :: b) ++ dot :: rest).
  rewrite (Index_first (x :: b) rest dot Hdb), slice_to_first.
  reflexivity.
Qed.

Lemma initMachine_reads_major_minor_witness :
  initMachine true true (Some release_5_15) = Some (Returns (probe 5 15)).
Proof.
  exact (initMachine_reads_major_minor [x35] [x31; x35]
           [x30; x2d; x39; x31; x2d; x67; x65; x6e; x65; x72; x69; x63]
           (repeat x00 47) eq_refl eq_refl eq_refl eq_refl eq_refl).
Defined.

Lemma first_dot (r : list byte) :
  inCutset r dot = true ->
  exists a t, r = a ++ dot :: t /\ inCutset a dot = false.
Proof.
  induction r as [ | x r IH ]; intros H; [ discriminate | ].
  destruct (Byte.eqb x dot) eqn:E.
  - apply Byte.byte_dec_bl in E. subst x.
    exists [], r. split; reflexivity.
  - unfold inCutset in H. cbn [existsb] in H.
    rewrite byte_eqb_sym, E in H. cbn [orb] in H.
    destruct (IH H) as (a & t & -> & Ha).
    exists (x :: a), t. split; [ reflexivity | ].
    unfold inCutset in *. cbn [existsb].
    rewrite byte_eqb_sym, E. exact Ha.
Qed.

Lemma countByte_zero (c : byte) (s : list byte) :
  countByte c s = 0%nat -> inCutset s c = false.
Proof.
  induction s as [ | x s IH ]; intros H; [ reflexivity | ].
  unfold countByte in *. cbn [filter] in H.
  unfold inCutset in *. cbn [existsb].
  rewrite byte_eqb_sym.
  destruct (Byte.eqb x c); [ discriminate | ]. apply IH. exact H.
Qed.

Lemma countByte_app (c : byte) (a b : list byte) :
  countByte c (a ++ b) = (countByte c a + countByte c b)%nat.
Proof. unfold countByte. rewrite filter_app, length_app. reflexivity. Qed.

(** X21.  A release with fewer than two dots makes the probe panic: on a
    machine with the module present and offload enabled, whose release
    (in ASCII, ended by a NUL) has no dot or one dot, a slice expression
    of [init] is out of range. *)
Theorem initMachine_panics_below_two_dots :
  forall (r pad : list byte),
    isASCII r = true ->
    inCutset r x00 = false ->
    (countByte dot r < 2)%nat ->
    initMachine true true (Some (r ++ x00 :: pad)) = Some Panics.
Proof.
  intros r pad Hascii Hnul Hcount.
  unfold initMachine. cbn [negb andb orb].
  rewrite (releaseOf_cut r pad Hnul).
  assert (Hp : parseRelease r = Some Panics).
  { destruct (inCutset r dot) eqn:Hd.
    - destruct (first_dot r Hd) as (a & t & -> & Ha).
      rewrite isASCII_app in Hascii. apply andb_true_iff in Hascii.
      apply parseRelease_no_second_dot; [ apply Hascii | exact Ha | ].
      apply trimLeftASCII_absent. apply countByte_zero.
      change (dot :: t) with ([dot] ++ t) in Hcount.
      rewrite !countByte_app in Hcount.
      change (countByte dot [dot]) with 1%nat in Hcount. lia.
    - unfold parseRelease. rewrite (Index_absent r dot Hd). reflexivity. }
  rewrite Hp. reflexivity.
Qed.

Lemma initMachine_panics_below_two_dots_witness :
  initMachine true true (Some ([x36; x2e; x31] ++ x00 :: repeat x00 61)) =
  Some Panics.
Proof.
  apply (initMachine_panics_below_two_dots [x36; x2e; x31] (repeat x00 61)).
  - reflexivity.
  - reflexivity.
  - cbn. lia.
Defined.

(** X22.  A minor release written with bytes of the major release makes
    the probe panic: [TrimLeft] takes its second argument for a set of
    bytes, so on a release [a.b.rest] where every byte of [b] occurs in
    [a] it removes [b] and the dot after it as well, and when [rest] has
    no dot the slice expression that follows is out of range. *)
Theorem initMachine_panics_minor_within_major :
  forall (a b rest pad : list byte),
    isASCII a = true ->
    inCutset a dot = false ->
    forallb (inCutset a) b = true ->
    inCutset rest dot = false ->
    inCutset (a ++ b ++ rest) x00 = false ->
    initMachine true true
      (Some ((a ++ dot :: b ++ dot :: rest) ++ x00 :: pad)) =
    Some Panics.
Proof.
  intros a b rest pad Ha Hda Hb Hdr Hnul.
  unfold initMachine. cbn [negb andb orb].
  assert (Hcut : inCutset (a ++ dot :: b ++ dot :: rest) x00 = false).
  { rewrite !inCutset_app in Hnul. apply orb_false_iff in Hnul.
    destruct Hnul as [H1 H2]. apply orb_false_iff in H2.
    destruct H2 as [H2 H3].
    rewrite inCutset_app. rewrite H1. cbn [orb].
    change (dot :: b ++ dot :: rest) with ([dot] ++ b ++ [dot] ++ rest).
    rewrite !inCutset_app, H2, H3. reflexivity. }
  rewrite (releaseOf_cut _ pad Hcut).
  assert (Hp : parseRelease (a ++ dot :: b ++ dot :: rest) = Some Panics).
  { apply parseRelease_no_second_dot; [ exact Ha | exact Hda | ].
    rewrite trimLeftASCII_app by (apply forallb_inCutset_app_l; exact Hb).
    cbn [trimLeftASCII].
    assert (Hd : inCutset (a ++ [dot]) dot = true).
    { rewrite inCutset_app, inCutset_head. apply orb_true_r. }
    rewrite Hd. apply trimLeftASCII_absent. exact Hdr. }
  rewrite Hp. reflexivity.
Qed.

Lemma initMachine_panics_minor_within_major_witness :
  initMachine true true (Some release_6_6) = Some Panics.
Proof.
  exact (initMachine_panics_minor_within_major [x36] [x36]
           [x38; x2d; x61; x72; x63; x68; x31; x2d; x31] (repeat x00 51)
           eq_refl eq_refl eq_refl eq_refl eq_refl).
Defined.

(** *** A failing ULP bind, family by family *)

(** X23.  When the ULP bind of an encoder fails (inputs of the required
    lengths, [skip] clear), the AES-256-GCM and ChaCha20-Poly1305
    encoders return the bind failure and issue nothing else, whereas the
    AES-128-GCM encoder goes on to the cipher configuration and returns
    what the kernel answers to that call. *)
Theorem enable_bind_failure :
  forall (f : family) (c : TCPConn) (ver opt : Z)
         (key_ iv_ seq : list byte) (log : syslog) (e : Z),
    len key_ = KEY_SIZE f ->
    len iv_ = requiredIVLen f ver ->
    len seq = REC_SEQ_SIZE f ->
    syscallConnErr c = None -> controlErr c = None ->
    kernel c log ulpBind = Some e ->
    let call := cipherConfig opt (wireBlob f ver key_ iv_ seq) in
    enable f c ver opt false key_ iv_ seq log =
    match f with
    | AES_GCM_128 =>
      (option_map Errno (kernel c (log ++ [ulpBind]) call),
       log ++ [ulpBind; call])
    | _ => (Some (Errno e), log ++ [ulpBind])
    end.
Proof.
  intros f c ver opt key_ iv_ seq log e Hkey Hiv Hseq Hsc Hctl Hb call.
  subst call. destruct f; cbn [enable].
  - apply (ktlsEnableAES128GCM_goes_on_after_bind_failure c ver opt key_ iv_
             seq log e); assumption.
  - apply ktlsEnableAES256GCM_returns_bind_failure; assumption.
  - apply ktlsEnableCHACHA20POLY1305_returns_bind_failure; assumption.
Qed.

Lemma enable_bind_failure_witness :
  enable AES_GCM_256 boundSocket VersionTLS13 TLS_TX false (zeros 32)
    (zeros 12) (zeros 8) [] =
  (Some (Errno EEXIST), [] ++ [ulpBind]).
Proof.
  apply (enable_bind_failure AES_GCM_256 boundSocket VersionTLS13 TLS_TX
           (zeros 32) (zeros 12) (zeros 8) [] EEXIST);
    reflexivity.
Defined.
